(** * Scaled dot-product self-attention notebook (2_Attention.ipynb)

    A shallow embedding of the two code cells of the notebook:
    the character tokenizer with [get_batch], and the single attention head.

    Conventions of the embedding.
    - A Python exception is a value of [exn]; code that can raise returns
      a [result].
    - A Python [int] is a [Z] where it is used as a dictionary key or a token
      id, and a [nat] where it is a tensor dimension or an index.
    - A Python character is an [ascii]; code points above 255 are not
      represented (none of them is in the vocabulary).
    - A torch float has two models.  In [Torch], [Attention], [Embed] and
      [Notebook] it is a real number of [R], and [float('-inf')] is the
      constructor [NegInf] of [xreal]: these modules serve for shapes,
      exceptions, effects and the formulas the cell evaluates, rounding
      left out.  In [Float32] it is a float32 number, an infinity or NaN,
      every operation rounding its result and overflowing: this module
      serves for what the head returns.
    - A torch tensor is a record of its shape and its nested rows. *)

From Stdlib Require Import Reals Lra Lia List Ascii String ZArith Bool Arith.
From stdpp Require Import gmap strings.
Import ListNotations.

(** ** Python exceptions and fallible computations *)

Inductive exn : Type :=
| KeyError            (* dict lookup of a missing key *)
| ZeroDivisionError   (* 0 ** negative *)
| RuntimeError        (* torch shape errors *)
| TypeError           (* an object of the wrong kind *)
| NameError.          (* a name that is bound to no object *)

Inductive result (A : Type) : Type :=
| Ok (a : A)
| Raise (e : exn).
Arguments Ok {A} a.
Arguments Raise {A} e.

#[global] Instance result_ret : MRet result := fun A a => Ok a.
#[global] Instance result_bind : MBind result := fun A B k r =>
  match r with
  | Ok a => k a
  | Raise e => Raise e
  end.

(** [[f(a) for a in l]] where [f] may raise: the first exception wins. *)
Fixpoint comprehension {A B} (f : A -> result B) (l : list A) : result (list B) :=
  match l with
  | [] => Ok []
  | a :: l' => b ← f a; bs ← comprehension f l'; Ok (b :: bs)
  end.

(** ** First code cell: tokenizer *)

Module Tokenizer.

(** [string.whitespace] is [' \t\n\r\x0b\x0c']. *)
Definition whitespace : list ascii :=
  [" "; "009"; "010"; "013"; "011"; "012"]%char.

Definition ascii_lowercase : list ascii :=
  list_ascii_of_string "abcdefghijklmnopqrstuvwxyz".
Definition ascii_uppercase : list ascii :=
  list_ascii_of_string "ABCDEFGHIJKLMNOPQRSTUVWXYZ".
Definition ascii_letters : list ascii := ascii_lowercase ++ ascii_uppercase.
Definition digits : list ascii := list_ascii_of_string "0123456789".

(** [string.punctuation]; the double quote is character 34. *)
Definition punctuation : list ascii :=
  ("!" :: "034" :: list_ascii_of_string "#$%&'()*+,-./:;<=>?@[\]^_`{|}~")%char.

Definition vocab : list ascii :=
  whitespace ++ ascii_letters ++ digits ++ punctuation.
Definition vocab_size : nat := length vocab.

(** [enumerate(l)] *)
Fixpoint enumerate_from {A} (i : Z) (l : list A) : list (Z * A) :=
  match l with
  | [] => []
  | a :: l' => (i, a) :: enumerate_from (i + 1) l'
  end.
Definition enumerate {A} (l : list A) : list (Z * A) := enumerate_from 0 l.

(** A dict comprehension inserts the pairs from left to right, a later pair
    overwriting an earlier one with the same key. *)
Definition vtoi : gmap ascii Z :=
  fold_left (fun d '(i, ch) => <[ch := i]> d) (enumerate vocab) ∅.
Definition itov : gmap Z ascii :=
  fold_left (fun d '(i, ch) => <[i := ch]> d) (enumerate vocab) ∅.

(** [d[k]] *)
Definition subscript {K V} `{Countable K} (d : gmap K V) (k : K) : result V :=
  match d !! k with
  | Some v => Ok v
  | None => Raise KeyError
  end.

Definition encode (v : string) : result (list Z) :=
  comprehension (fun ch => subscript vtoi ch) (list_ascii_of_string v).
Definition decode (t : list Z) : result (list ascii) :=
  comprehension (fun i => subscript itov i) t.

(** The check that a character has an id and that the id gives it back. *)
Definition round_trips (ch : ascii) : bool :=
  match vtoi !! ch with
  | Some i => match itov !! i with
              | Some ch' => Ascii.eqb ch ch'
              | None => false
              end
  | None => false
  end.

Definition text : string := "Attention is all you need".
Definition text_enc : result (list Z) := encode text.

(** [data = torch.LongTensor(text_enc)]: the ids of [text]. *)
Definition data : list Z :=
  match text_enc with
  | Ok l => l
  | Raise _ => []
  end.

Definition block_size : nat := 4.
Definition n_embd : nat := 5.
Definition batch_size : nat := 2.

(** [l[a:b]] for [0 <= a], [0 <= b]: a slice never raises, it is cut at the
    end of the list. *)
Definition slice {A} (l : list A) (a b : nat) : list A :=
  firstn (b - a) (skipn a l).

(** [torch.stack] of one-dimensional tensors: all must have one size, and
    there must be at least one. *)
Definition stack {A} (rows : list (list A)) : result (list (list A)) :=
  match rows with
  | [] => Raise RuntimeError
  | r :: _ =>
      if forallb (fun r' => length r' =? length r) rows
      then Ok rows else Raise RuntimeError
  end.

(** The exclusive upper bound of [torch.randint] in [get_batch]. *)
Definition ix_high (data : list Z) : Z :=
  Z.of_nat (length data) - Z.of_nat block_size - 1.

(** [get_batch()]; [ix] is the draw of [torch.randint(0, high, (block_size,))]:
    [block_size] integers of [[0, high)]. *)
Definition get_batch (data : list Z) (ix : list nat)
  : result (list (list Z) * list (list Z)) :=
  x ← stack (map (fun i => slice data i (i + block_size)) ix);
  y ← stack (map (fun i => slice data (i + 1) (i + block_size + 1)) ix);
  Ok (x, y).

(** The draws [torch.randint] can return. *)
Definition randint_draw (high : Z) (size : nat) (ix : list nat) : Prop :=
  length ix = size /\ Forall (fun i => (Z.of_nat i < high)%Z) ix.

End Tokenizer.

(** ** The part of torch the second code cell uses *)

Module Torch.
Local Open Scope R_scope.

(** Floats after [masked_fill(_, float('-inf'))]. *)
Inductive xreal : Type :=
| Fin (r : R)
| NegInf.

#[global] Instance R_inhabited : Inhabited R := populate 0.
#[global] Instance xreal_inhabited : Inhabited xreal := populate NegInf.
#[global] Instance R_eq_dec : EqDecision R := Req_dec_T.

Record Tensor2 (A : Type) : Type := T2 {
  shape2 : nat * nat;
  data2 : list (list A)
}.
Arguments T2 {A} shape2 data2.
Arguments shape2 {A} t.
Arguments data2 {A} t.

Record Tensor3 (A : Type) : Type := T3 {
  shape3 : nat * nat * nat;
  data3 : list (list (list A))
}.
Arguments T3 {A} shape3 data3.
Arguments shape3 {A} t.
Arguments data3 {A} t.

(** The rows of a tensor have the sizes its shape says. *)
Definition wf2 {A} (t : Tensor2 A) : Prop :=
  let '(n, m) := shape2 t in
  length (data2 t) = n /\ Forall (fun r => length r = m) (data2 t).
Definition wf3 {A} (t : Tensor3 A) : Prop :=
  let '(B, T, C) := shape3 t in
  length (data3 t) = B /\
  Forall (fun mat => length mat = T /\ Forall (fun r => length r = C) mat) (data3 t).

(** [t[i, j]] and [t[b, i, j]] *)
Definition get2 {A} `{Inhabited A} (t : Tensor2 A) (i j : nat) : A :=
  nth j (nth i (data2 t) []) inhabitant.
Definition get3 {A} `{Inhabited A} (t : Tensor3 A) (b i j : nat) : A :=
  nth j (nth i (nth b (data3 t) []) []) inhabitant.

(** [[f(i) for i in range(n)]] *)
Definition tabulate {A} (n : nat) (f : nat -> A) : list A := map f (seq 0 n).

(** The tensor of a shape whose entry at an index is given by [f]. *)
Definition mk2 {A} (n m : nat) (f : nat -> nat -> A) : Tensor2 A :=
  T2 (n, m) (tabulate n (fun i => tabulate m (fun j => f i j))).
Definition mk3 {A} (B T C : nat) (f : nat -> nat -> nat -> A) : Tensor3 A :=
  T3 (B, T, C)
     (tabulate B (fun b => tabulate T (fun i => tabulate C (fun j => f b i j)))).

(** [f 0 + f 1 + ... + f (n-1)], accumulated from the left. *)
Fixpoint rsum (n : nat) (f : nat -> R) : R :=
  match n with
  | O => 0
  | S n' => rsum n' f + f n'
  end.

(** Broadcasting of one dimension: a dimension of size [m] is read at an
    index [i] of a dimension of size [n] when [m = n], and at 0 when [m = 1];
    other sizes do not broadcast. *)
Definition broadcasts (m n : nat) : bool := (m =? n)%nat || (m =? 1)%nat.
Definition bindex (m i : nat) : nat := if (m =? 1)%nat then O else i.
(** The size two dimensions of sizes [m] and [n] that broadcast give. *)
Definition bsize (m n : nat) : nat := if (m =? 1)%nat then n else m.

(** [nn.Linear(in_features, out_features, bias=False)]: a weight of shape
    [(out_features, in_features)].  The initial weight is random;
    [init h c] is the value drawn for [weight[h, c]]. *)
Record Linear : Type := {
  in_features : nat;
  out_features : nat;
  weight : Tensor2 R
}.
Definition nn_Linear (inf outf : nat) (init : nat -> nat -> R) : Linear :=
  {| in_features := inf; out_features := outf; weight := mk2 outf inf init |}.

(** [l(x)] is [x @ l.weight.T], for a three-dimensional [x]. *)
Definition call (l : Linear) (x : Tensor3 R) : result (Tensor3 R) :=
  let '(B, T, C) := shape3 x in
  if (C =? in_features l)%nat
  then Ok (mk3 B T (out_features l)
             (fun b t h => rsum C (fun c => get3 x b t c * get2 (weight l) h c)))
  else Raise RuntimeError.

(** [t.transpose(-2, -1)] *)
Definition transpose (t : Tensor3 R) : Tensor3 R :=
  let '(B, T, C) := shape3 t in
  mk3 B C T (fun b i j => get3 t b j i).

(** [a @ b] for three-dimensional tensors: a batched matrix product, the
    batch dimension broadcast. *)
Definition matmul (a b : Tensor3 R) : result (Tensor3 R) :=
  let '(Ba, n, m) := shape3 a in
  let '(Bb, m', p) := shape3 b in
  if negb (m =? m')%nat then Raise RuntimeError
  else if negb (broadcasts Ba Bb || broadcasts Bb Ba) then Raise RuntimeError
  else Ok (mk3 (bsize Ba Bb) n p
             (fun c i j =>
                rsum m (fun h => get3 a (bindex Ba c) i h * get3 b (bindex Bb c) h j))).

(** [t * s] for a scalar [s] *)
Definition scale (t : Tensor3 R) (s : R) : Tensor3 R :=
  let '(B, T, C) := shape3 t in
  mk3 B T C (fun b i j => get3 t b i j * s).

(** [torch.ones(n, m)] *)
Definition ones (n m : nat) : Tensor2 R := mk2 n m (fun _ _ => 1).

(** [torch.tril(t)]: the entries above the diagonal become 0. *)
Definition tril (t : Tensor2 R) : Tensor2 R :=
  let '(n, m) := shape2 t in
  mk2 n m (fun i j => if (j <=? i)%nat then get2 t i j else 0).

(** [t == 0] *)
Definition eq0 (t : Tensor2 R) : Tensor2 bool :=
  let '(n, m) := shape2 t in
  mk2 n m (fun i j => bool_decide (get2 t i j = 0)).

(** [t.masked_fill(mask, value)], out of place; the mask is broadcast to the
    shape of [t]. *)
Definition masked_fill (t : Tensor3 R) (mask : Tensor2 bool) (value : xreal)
  : result (Tensor3 xreal) :=
  let '(B, T, C) := shape3 t in
  let '(n, m) := shape2 mask in
  if broadcasts n T && broadcasts m C
  then Ok (mk3 B T C
             (fun b i j =>
                if get2 mask (bindex n i) (bindex m j) then value
                else Fin (get3 t b i j)))
  else Raise RuntimeError.

(** [exp], with [exp(-inf) = 0]. *)
Definition xexp (x : xreal) : R :=
  match x with
  | Fin r => exp r
  | NegInf => 0
  end.

(** [F.softmax(t, dim=-1)]: [exp(t[b,i,j]) / sum_j' exp(t[b,i,j'])].
    A row without a finite entry (a row of [NaN] in torch) is not
    represented; the causal mask leaves the diagonal finite. *)
Definition softmax (t : Tensor3 xreal) : Tensor3 R :=
  let '(B, T, C) := shape3 t in
  mk3 B T C
    (fun b i j => xexp (get3 t b i j) / rsum C (fun j' => xexp (get3 t b i j'))).

End Torch.

(** ** Second code cell: one head of self-attention *)

Module Attention.
Import Torch.
Local Open Scope R_scope.

Definition head_size : nat := 6.

(** [n ** -0.5] for a Python int [n >= 0]; [0 ** -0.5] raises. *)
Definition pow_neg_half (n : nat) : result R :=
  if (n =? 0)%nat then Raise ZeroDivisionError
  else Ok (Rpower (INR n) (-0.5)).

(** Lines [k = key(x)] to [W = W * C ** -0.5]: the scaled scores. *)
Definition scores (key query : Linear) (x : Tensor3 R) : result (Tensor3 R) :=
  let '(B, T, C) := shape3 x in
  k ← call key x;
  q ← call query x;
  W ← matmul q (transpose k);
  s ← pow_neg_half C;
  Ok (scale W s).

(** ... to [W = F.softmax(W, dim=-1)]: the attention weights. *)
Definition weights (key query : Linear) (x : Tensor3 R) : result (Tensor3 R) :=
  let '(B, T, C) := shape3 x in
  W ← scores key query x;
  let tril := tril (ones T T) in
  W ← masked_fill W (eq0 tril) NegInf;
  Ok (softmax W).

(** ... to [out = W @ v]. *)
Definition forward (key query value : Linear) (x : Tensor3 R)
  : result (Tensor3 R) :=
  W ← weights key query x;
  v ← call value x;
  matmul W v.

(** The cell from [B,T,C = x.shape] on: the three projections are created
    for the [C] of [x], with the draws [rk], [rq], [rv] as weights. *)
Definition attention (hs : nat) (rk rq rv : nat -> nat -> R) (x : Tensor3 R)
  : result (Tensor3 R) :=
  let '(B, T, C) := shape3 x in
  let key := nn_Linear C hs rk in
  let query := nn_Linear C hs rq in
  let value := nn_Linear C hs rv in
  forward key query value x.

(** The three projections of a head created for input dimension [C] and
    head dimension [H]. *)
Definition configured (key query value : Linear) (C H : nat) : Prop :=
  in_features key = C /\ in_features query = C /\ in_features value = C /\
  out_features key = H /\ out_features query = H /\ out_features value = H.

(** Inputs used below: every entry and every drawn weight is 1. *)
Definition w_ones : nat -> nat -> R := fun _ _ => 1.
Definition x_ones (B T C : nat) : Tensor3 R := mk3 B T C (fun _ _ _ => 1).

(** Two value tensors of shape (1, 2, 1) that differ in row 1 only. *)
Definition v_before : Tensor3 R := T3 (1, 2, 1)%nat [[[1]; [1]]].
Definition v_after : Tensor3 R := T3 (1, 2, 1)%nat [[[1]; [5]]].

(** The numerator of the weight of key position [j] for query position [i],
    from the scaled scores [Sc]: the positions after [i] are masked. *)
Definition masked_exp (Sc : Tensor3 R) (b i j : nat) : R :=
  if (j <=? i)%nat then exp (get3 Sc b i j) else 0.

End Attention.

(** ** The end of the first cell and the first line of the second: embeddings

    [token_embedding_table(x)], [position_embedding_table(torch.arange(T))]
    and [x = emb_pos + emb_tok], which make the input of the head out of a
    batch of token ids. *)

Module Embed.
Import Tokenizer Torch Attention.
Local Open Scope R_scope.

(** The exceptions of this part: those of [exn], and the [IndexError] of an
    embedding lookup out of its table. *)
Inductive pyexn : Type :=
| Exn (e : exn)
| IndexError.

Inductive outcome (A : Type) : Type :=
| Return (a : A)
| Throw (e : pyexn).
Arguments Return {A} a.
Arguments Throw {A} e.

#[global] Instance outcome_ret : MRet outcome := fun A a => Return a.
#[global] Instance outcome_bind : MBind outcome := fun A B k r =>
  match r with
  | Return a => k a
  | Throw e => Throw e
  end.

Definition of_result {A} (r : result A) : outcome A :=
  match r with
  | Ok a => Return a
  | Raise e => Throw (Exn e)
  end.

(** [nn.Embedding(num_embeddings, embedding_dim)]: a table of shape
    [(num_embeddings, embedding_dim)], random at creation; [init i c] is the
    value drawn for [weight[i, c]]. *)
Record Embedding : Type := {
  num_embeddings : nat;
  embedding_dim : nat;
  table : Tensor2 R
}.
Definition nn_Embedding (num dim : nat) (init : nat -> nat -> R) : Embedding :=
  {| num_embeddings := num; embedding_dim := dim; table := mk2 num dim init |}.

(** The indices an embedding accepts: [0 <= i < num_embeddings]. *)
Definition in_table (e : Embedding) (i : Z) : bool :=
  (0 <=? i)%Z && (i <? Z.of_nat (num_embeddings e))%Z.

(** The tensor [torch.stack] makes of rows of one size (there is at least
    one row). *)
Definition stacked (rows : list (list Z)) : Tensor2 Z :=
  T2 (length rows, length (hd [] rows)) rows.

(** [e(idx)] for a two-dimensional tensor of indices: row [idx[b, t]] of the
    table at [[b, t, :]]. *)
Definition lookup2 (e : Embedding) (idx : Tensor2 Z) : outcome (Tensor3 R) :=
  let '(B, T) := shape2 idx in
  if forallb (forallb (in_table e)) (data2 idx)
  then Return (mk3 B T (embedding_dim e)
                 (fun b t c => get2 (table e) (Z.to_nat (get2 idx b t)) c))
  else Throw IndexError.

(** [e(idx)] for a one-dimensional tensor of indices. *)
Definition lookup1 (e : Embedding) (idx : list Z) : outcome (Tensor2 R) :=
  if forallb (in_table e) idx
  then Return (mk2 (length idx) (embedding_dim e)
                 (fun t c => get2 (table e) (Z.to_nat (nth t idx 0%Z)) c))
  else Throw IndexError.

(** [torch.arange(n)] *)
Definition arange (n : nat) : list Z := map Z.of_nat (seq 0 n).

(** The size two broadcast dimensions give, if they broadcast. *)
Definition bdim (m n : nat) : option nat :=
  if (m =? n)%nat then Some n
  else if (m =? 1)%nat then Some n
  else if (n =? 1)%nat then Some m
  else None.

(** [a + b] for a two-dimensional [a] and a three-dimensional [b], with
    broadcasting. *)
Definition add23 (a : Tensor2 R) (b : Tensor3 R) : result (Tensor3 R) :=
  let '(n, m) := shape2 a in
  let '(B, T, C) := shape3 b in
  match bdim n T, bdim m C with
  | Some T', Some C' =>
      Ok (mk3 B T' C'
            (fun c i j =>
               get2 a (bindex n i) (bindex m j) + get3 b c (bindex T i) (bindex C j)))
  | _, _ => Raise RuntimeError
  end.

(** From [x, y = get_batch()] to [x = emb_pos + emb_tok]: the input of the
    head, for the batch of the draw [ix] and the tables drawn as [tok] and
    [pos]. *)
Definition embed (tok pos : nat -> nat -> R) (data : list Z) (ix : list nat)
  : outcome (Tensor3 R) :=
  let token_embedding_table := nn_Embedding vocab_size n_embd tok in
  let position_embedding_table := nn_Embedding block_size n_embd pos in
  xy ← of_result (get_batch data ix);
  let x := stacked xy.1 in
  let '(B, T) := shape2 x in
  emb_tok ← lookup2 token_embedding_table x;
  emb_pos ← lookup1 position_embedding_table (arange T);
  of_result (add23 emb_pos emb_tok).

(** The two code cells, one after the other: the text is encoded and
    decoded, a batch is drawn and embedded, and the head is applied. *)
Definition notebook (tok pos rk rq rv : nat -> nat -> R) (ix : list nat)
  : outcome (Tensor3 R) :=
  text_enc ← of_result (encode text);
  text_dec ← of_result (decode text_enc);
  x ← embed tok pos text_enc ix;
  of_result (attention head_size rk rq rv x).

End Embed.

(** ** The second cell as a program on the store

    The cell once more, from [x = emb_pos + emb_tok] to [out = W @ v],
    with its effects: the objects it creates, the two lines it prints and
    the values it draws from torch's default generator.  A Python name is
    a reference into the store and is read again at each use, so that an
    object changed in place would be seen changed.  [nn.Linear] creates
    its weight empty and fills it in place ([kaiming_uniform_]); every
    other torch operation of the cell allocates its result.  The integers
    [head_size], [B], [T] and [C] are immutable and kept as values; the
    values of the tensors are those of [Torch]. *)

Module Notebook.
Import Torch Attention Embed.
Local Open Scope R_scope.

Inductive obj : Type :=
| OLinear (inf outf : nat) (weight : nat)   (* a module and its weight *)
| OTensor3 (t : Tensor3 R)
| OTensor2 (t : Tensor2 R)
| OMask (t : Tensor2 bool)
| OTensorX (t : Tensor3 xreal).

(** What [print] shows of its arguments. *)
Inductive shown : Type :=
| SStr (s : string)
| SLinear (inf outf : nat)          (* Linear(in_features=.., out_features=.., bias=False) *)
| SSize (sh : nat * nat * nat).     (* torch.Size([.., .., ..]) *)

(** The default generator: the sequence of the uniform samples of [0, 1)
    it yields from its seed, and how many of them have been drawn. *)
Record Generator : Type := {
  sequence : nat -> R;
  position : nat
}.

Record state : Type := {
  heap : list obj;
  stdout : list (list shown);
  default_generator : Generator
}.

Definition M (A : Type) : Type := state -> result (A * state).

#[global] Instance M_ret : MRet M := fun A a s => Ok (a, s).
#[global] Instance M_bind : MBind M := fun A B k m s =>
  match m s with
  | Ok (a, s') => k a s'
  | Raise e => Raise e
  end.

Definition lift {A} (r : result A) : M A := fun s =>
  match r with
  | Ok a => Ok (a, s)
  | Raise e => Raise e
  end.

(** A new object; its reference is its position in the heap. *)
Definition alloc (o : obj) : M nat := fun s =>
  Ok (length (heap s),
      {| heap := heap s ++ [o]; stdout := stdout s;
         default_generator := default_generator s |}).

Definition load (p : nat) : M obj := fun s =>
  match heap s !! p with
  | Some o => Ok (o, s)
  | None => Raise NameError
  end.

(** An update in place: the object at [p] becomes [o]. *)
Definition store (p : nat) (o : obj) : M unit := fun s =>
  match heap s !! p with
  | Some _ =>
      Ok (tt, {| heap := <[p := o]> (heap s); stdout := stdout s;
                 default_generator := default_generator s |})
  | None => Raise NameError
  end.

(** The next [n] samples of the default generator, which advances. *)
Definition uniform (n : nat) : M (nat -> R) := fun s =>
  let g := default_generator s in
  Ok (fun i => sequence g (position g + i)%nat,
      {| heap := heap s; stdout := stdout s;
         default_generator :=
           {| sequence := sequence g; position := (position g + n)%nat |} |}).

Definition print (line : list shown) : M unit := fun s =>
  Ok (tt, {| heap := heap s; stdout := stdout s ++ [line];
             default_generator := default_generator s |}).

Definition load_tensor3 (p : nat) : M (Tensor3 R) :=
  o ← load p;
  match o with OTensor3 t => mret t | _ => lift (Raise TypeError) end.

Definition load_tensor2 (p : nat) : M (Tensor2 R) :=
  o ← load p;
  match o with OTensor2 t => mret t | _ => lift (Raise TypeError) end.

Definition load_mask (p : nat) : M (Tensor2 bool) :=
  o ← load p;
  match o with OMask t => mret t | _ => lift (Raise TypeError) end.

Definition load_tensorx (p : nat) : M (Tensor3 xreal) :=
  o ← load p;
  match o with OTensorX t => mret t | _ => lift (Raise TypeError) end.

(** The layer a module is at the time it is read: its weight is read from
    the store. *)
Definition load_linear (p : nat) : M Linear :=
  o ← load p;
  match o with
  | OLinear inf outf pw =>
      w ← load_tensor2 pw;
      mret {| in_features := inf; out_features := outf; weight := w |}
  | _ => lift (Raise TypeError)
  end.

(** The weight [nn.Linear] makes of a sample [u]: uniform between
    [-1/sqrt(fan_in)] and [1/sqrt(fan_in)]. *)
Definition kaiming (fan_in : nat) (u : R) : R :=
  (2 * u - 1) / sqrt (INR fan_in).

(** [nn.Linear(inf, outf, bias=False)]: the weight is created empty, then
    filled in place with [outf * inf] samples of the default generator. *)
Definition new_Linear (inf outf : nat) : M nat :=
  pw ← alloc (OTensor2 (mk2 outf inf (fun _ _ => 0)));
  u ← uniform (outf * inf);
  _ ← store pw (OTensor2 (mk2 outf inf
                  (fun h c => kaiming inf (u (h * inf + c)%nat))));
  alloc (OLinear inf outf pw).

Definition show_linear (l : Linear) : shown :=
  SLinear (in_features l) (out_features l).

(** The objects the names of the cell are bound to at its end. *)
Record cell : Type := {
  ref_x : nat;
  ref_key : nat;
  ref_query : nat;
  ref_value : nat;
  ref_k : nat;
  ref_q : nat;
  ref_W : nat;
  ref_tril : nat;
  ref_v : nat;
  ref_out : nat
}.

(** The cell, [emb_pos] and [emb_tok] being the objects these names are
    bound to when it starts. *)
Definition run_cell (emb_pos emb_tok : nat) : M cell :=
  (* x = emb_pos + emb_tok *)
  a ← load_tensor2 emb_pos;
  b ← load_tensor3 emb_tok;
  t ← lift (add23 a b);
  x ← alloc (OTensor3 t);
  (* B,T,C = x.shape *)
  t ← load_tensor3 x;
  let '(B, T, C) := shape3 t in
  (* key, query, value = nn.Linear(C, head_size, bias=False) *)
  key ← new_Linear C head_size;
  query ← new_Linear C head_size;
  value ← new_Linear C head_size;
  (* print("keys:", key, "queries:", query) *)
  lk ← load_linear key;
  lq ← load_linear query;
  _ ← print [SStr "keys:"; show_linear lk; SStr "queries:"; show_linear lq];
  (* k = key(x) *)
  lk ← load_linear key;
  t ← load_tensor3 x;
  r ← lift (call lk t);
  k ← alloc (OTensor3 r);
  (* q = query(x) *)
  lq ← load_linear query;
  t ← load_tensor3 x;
  r ← lift (call lq t);
  q ← alloc (OTensor3 r);
  (* print("x:", x.shape, "key_x:", k.shape, "query_x:", q.shape) *)
  tx ← load_tensor3 x;
  tk ← load_tensor3 k;
  tq ← load_tensor3 q;
  _ ← print [SStr "x:"; SSize (shape3 tx); SStr "key_x:"; SSize (shape3 tk);
             SStr "query_x:"; SSize (shape3 tq)];
  (* W = q @ k.transpose(-2, -1) *)
  tq ← load_tensor3 q;
  tk ← load_tensor3 k;
  kt ← alloc (OTensor3 (transpose tk));
  tkt ← load_tensor3 kt;
  r ← lift (matmul tq tkt);
  W ← alloc (OTensor3 r);
  (* W = W * C ** -0.5 *)
  tW ← load_tensor3 W;
  s ← lift (pow_neg_half C);
  W ← alloc (OTensor3 (scale tW s));
  (* tril = torch.tril(torch.ones(T,T)) *)
  o ← alloc (OTensor2 (ones T T));
  to ← load_tensor2 o;
  ptril ← alloc (OTensor2 (tril to));
  (* W = W.masked_fill(tril == 0, float('-inf')) *)
  tW ← load_tensor3 W;
  tt ← load_tensor2 ptril;
  m ← alloc (OMask (eq0 tt));
  tm ← load_mask m;
  r ← lift (masked_fill tW tm NegInf);
  W ← alloc (OTensorX r);
  (* W = F.softmax(W, dim=-1) *)
  tW ← load_tensorx W;
  W ← alloc (OTensor3 (softmax tW));
  (* v = value(x) *)
  lv ← load_linear value;
  t ← load_tensor3 x;
  r ← lift (call lv t);
  v ← alloc (OTensor3 r);
  (* out = W @ v *)
  tW ← load_tensor3 W;
  tv ← load_tensor3 v;
  r ← lift (matmul tW tv);
  out ← alloc (OTensor3 r);
  mret {| ref_x := x; ref_key := key; ref_query := query; ref_value := value;
          ref_k := k; ref_q := q; ref_W := W; ref_tril := ptril; ref_v := v;
          ref_out := out |}.

(** The generator after [n] more samples have been drawn. *)
Definition advance (n : nat) (g : Generator) : Generator :=
  {| sequence := sequence g; position := (position g + n)%nat |}.

(** The weights [nn.Linear] draws for [fan_in] input features when the
    generator is [g]. *)
Definition drawn (g : Generator) (fan_in : nat) : nat -> nat -> R :=
  fun h c => kaiming fan_in (sequence g (position g + (h * fan_in + c))%nat).

(** The two lines the cell prints for an input of shape (B, T, C) and
    projections to dimension H. *)
Definition printed (B T C H : nat) : list (list shown) :=
  [[SStr "keys:"; SLinear C H; SStr "queries:"; SLinear C H];
   [SStr "x:"; SSize (B, T, C); SStr "key_x:"; SSize (B, T, H);
    SStr "query_x:"; SSize (B, T, H)]].

(** A store with an [emb_pos] of shape (4, 5) at 0 and an [emb_tok] of
    shape (4, 4, 5) at 1, their sum [x0], nothing printed yet, and a
    generator that yields 0/1000, 1/1000, 2/1000, ... *)
Definition emb_pos0 : Tensor2 R := mk2 4 5 (fun _ _ => 0).
Definition emb_tok0 : Tensor3 R := x_ones 4 4 5.
Definition x0 : Tensor3 R :=
  mk3 4 4 5 (fun c i j => get2 emb_pos0 (bindex 4 i) (bindex 5 j)
                          + get3 emb_tok0 c (bindex 4 i) (bindex 5 j)).
Definition s0 : state :=
  {| heap := [OTensor2 emb_pos0; OTensor3 emb_tok0];
     stdout := [];
     default_generator :=
       {| sequence := fun i => INR i / 1000; position := 0 |} |}.

End Notebook.

(** ** The second cell on float32 values

    The head once more, line for line, over the values of a float32 tensor:
    the numbers, the two infinities and NaN.  An operation on numbers
    rounds its exact result, [rnd], and overflows to an infinity when the
    rounded result reaches [huge]; operations on the infinities and on NaN
    follow IEEE 754.  The rounding is a parameter, of which only the
    properties of [Rounding] are used; rounding to nearest of float32,
    with its subnormal numbers, has them, and so has the rounding [flush]
    that only underflows.  [expf] is torch's [exp] on a number, before its
    result is rounded.  What is not represented: the sign of zero and the
    order in which torch adds up a sum (here from the left). *)

Module Float32.
Import Torch.
Local Open Scope R_scope.

Inductive f32 : Type :=
| Num (r : R)
| Pinf
| Ninf
| Nan.

#[global] Instance f32_inhabited : Inhabited f32 := populate (Num 0).

(** [huge] = 2^128: a result whose rounding reaches it is an infinity. *)
Definition huge : R := 340282366920938463463374607431768211456.
(** [tiny] = 2^-150: half the smallest positive float32 number. *)
Definition tiny : R := / 1427247692705959881058285969449495136382746624.
(** [eps] = 2^-24: the relative error of a rounding. *)
Definition eps : R := / 16777216.

Class Rounding : Type := {
  rnd : R -> R;
  expf : R -> R;
  rnd_0 : rnd 0 = 0;
  rnd_1 : rnd 1 = 1;
  rnd_idem : forall r, rnd (rnd r) = rnd r;
  rnd_mono : forall r r', r <= r' -> rnd r <= rnd r';
  rnd_err : forall r, Rabs (rnd r - r) <= eps * Rabs r + tiny;
  expf_0 : expf 0 = 1;
  expf_unit : forall x, x <= 0 -> 0 <= expf x <= 1
}.

Definition is_num (a : f32) : Prop :=
  match a with
  | Num _ => True
  | _ => False
  end.

(** The number a value is, 0 for the infinities and NaN. *)
Definition to_R (a : f32) : R :=
  match a with
  | Num r => r
  | _ => 0
  end.

Definition fneg (a : f32) : f32 :=
  match a with
  | Num r => Num (- r)
  | Pinf => Ninf
  | Ninf => Pinf
  | Nan => Nan
  end.

(** The infinity of the sign of [x], NaN for [x = 0]. *)
Definition signed_inf (x : R) : f32 :=
  if Req_dec_T x 0 then Nan else if Rlt_dec 0 x then Pinf else Ninf.

(** The larger of two values, NaN when one is NaN. *)
Definition fmax (a b : f32) : f32 :=
  match a, b with
  | Nan, _ | _, Nan => Nan
  | Pinf, _ | _, Pinf => Pinf
  | Ninf, c | c, Ninf => c
  | Num x, Num y => if Rle_dec x y then Num y else Num x
  end.

(** The maximum of [f 0, ..., f (n-1)]. *)
Fixpoint fmaximum (n : nat) (f : nat -> f32) : f32 :=
  match n with
  | O => Ninf
  | S n' => fmax (fmaximum n' f) (f n')
  end.

(** [nn.Linear(in_features, out_features, bias=False)] with a float32
    weight; [init h c] is the value drawn for [weight[h, c]]. *)
Record Linear : Type := {
  in_features : nat;
  out_features : nat;
  weight : Tensor2 f32
}.
Definition nn_Linear (inf outf : nat) (init : nat -> nat -> f32) : Linear :=
  {| in_features := inf; out_features := outf; weight := mk2 outf inf init |}.

(** [t.transpose(-2, -1)] *)
Definition transpose (t : Tensor3 f32) : Tensor3 f32 :=
  let '(B, T, C) := shape3 t in
  mk3 B C T (fun b i j => get3 t b j i).

(** [torch.ones(n, m)] and [torch.tril(t)] *)
Definition ones (n m : nat) : Tensor2 f32 := mk2 n m (fun _ _ => Num 1).
Definition tril (t : Tensor2 f32) : Tensor2 f32 :=
  let '(n, m) := shape2 t in
  mk2 n m (fun i j => if (j <=? i)%nat then get2 t i j else Num 0).

(** [a == 0] on one value: NaN and the infinities are not 0. *)
Definition is_zero (a : f32) : bool :=
  match a with
  | Num r => bool_decide (r = 0)
  | _ => false
  end.

(** [t == 0] *)
Definition eq0 (t : Tensor2 f32) : Tensor2 bool :=
  let '(n, m) := shape2 t in
  mk2 n m (fun i j => is_zero (get2 t i j)).

(** [t.masked_fill(mask, value)], out of place. *)
Definition masked_fill (t : Tensor3 f32) (mask : Tensor2 bool) (value : f32)
  : result (Tensor3 f32) :=
  let '(B, T, C) := shape3 t in
  let '(n, m) := shape2 mask in
  if broadcasts n T && broadcasts m C
  then Ok (mk3 B T C
             (fun b i j =>
                if get2 mask (bindex n i) (bindex m j) then value
                else get3 t b i j))
  else Raise RuntimeError.

Section Operations.
Context {Rd : Rounding}.

(** The float32 value of an exact result. *)
Definition fl (r : R) : f32 :=
  let y := rnd r in
  if Rle_dec huge y then Pinf
  else if Rle_dec y (- huge) then Ninf
  else Num y.

(** The values [fl] returns: the float32 numbers, the infinities. *)
Definition representable (a : f32) : Prop :=
  match a with
  | Num r => rnd r = r /\ Rabs r < huge
  | _ => True
  end.

Definition fadd (a b : f32) : f32 :=
  match a, b with
  | Nan, _ | _, Nan => Nan
  | Pinf, Ninf | Ninf, Pinf => Nan
  | Pinf, _ | _, Pinf => Pinf
  | Ninf, _ | _, Ninf => Ninf
  | Num x, Num y => fl (x + y)
  end.

Definition fsub (a b : f32) : f32 := fadd a (fneg b).

Definition fmul (a b : f32) : f32 :=
  match a, b with
  | Nan, _ | _, Nan => Nan
  | Num x, Num y => fl (x * y)
  | Pinf, Num x | Num x, Pinf => signed_inf x
  | Ninf, Num x | Num x, Ninf => signed_inf (- x)
  | Pinf, Pinf | Ninf, Ninf => Pinf
  | Pinf, Ninf | Ninf, Pinf => Ninf
  end.

Definition fdiv (a b : f32) : f32 :=
  match a, b with
  | Nan, _ | _, Nan => Nan
  | Num x, Num y => if Req_dec_T y 0 then signed_inf x else fl (x / y)
  | Num _, Pinf | Num _, Ninf => Num 0
  | Pinf, Num y => if Rle_dec 0 y then Pinf else Ninf
  | Ninf, Num y => if Rle_dec 0 y then Ninf else Pinf
  | _, _ => Nan
  end.

Definition fexp (a : f32) : f32 :=
  match a with
  | Nan => Nan
  | Pinf => Pinf
  | Ninf => Num 0
  | Num x => fl (expf x)
  end.

(** [f 0 + f 1 + ... + f (n-1)], accumulated from the left. *)
Fixpoint fsum (n : nat) (f : nat -> f32) : f32 :=
  match n with
  | O => Num 0
  | S n' => fadd (fsum n' f) (f n')
  end.

(** [l(x)] is [x @ l.weight.T]. *)
Definition call (l : Linear) (x : Tensor3 f32) : result (Tensor3 f32) :=
  let '(B, T, C) := shape3 x in
  if (C =? in_features l)%nat
  then Ok (mk3 B T (out_features l)
             (fun b t h => fsum C (fun c => fmul (get3 x b t c)
                                              (get2 (weight l) h c))))
  else Raise RuntimeError.

(** [a @ b], the batch dimension broadcast. *)
Definition matmul (a b : Tensor3 f32) : result (Tensor3 f32) :=
  let '(Ba, n, m) := shape3 a in
  let '(Bb, m', p) := shape3 b in
  if negb (m =? m')%nat then Raise RuntimeError
  else if negb (broadcasts Ba Bb || broadcasts Bb Ba) then Raise RuntimeError
  else Ok (mk3 (bsize Ba Bb) n p
             (fun c i j =>
                fsum m (fun h => fmul (get3 a (bindex Ba c) i h)
                                      (get3 b (bindex Bb c) h j)))).

(** [t * s] for a scalar [s] *)
Definition scale (t : Tensor3 f32) (s : f32) : Tensor3 f32 :=
  let '(B, T, C) := shape3 t in
  mk3 B T C (fun b i j => fmul (get3 t b i j) s).

(** The softmax of a row of [n] values as torch computes it: the maximum
    of the row is subtracted before [exp]. *)
Definition softmax_row (n : nat) (row : nat -> f32) (j : nat) : f32 :=
  let m := fmaximum n row in
  fdiv (fexp (fsub (row j) m)) (fsum n (fun j' => fexp (fsub (row j') m))).

(** [F.softmax(t, dim=-1)] *)
Definition softmax (t : Tensor3 f32) : Tensor3 f32 :=
  let '(B, T, C) := shape3 t in
  mk3 B T C (fun b i j => softmax_row C (fun j' => get3 t b i j') j).

(** [n ** -0.5] for a Python int [n >= 0]; [0 ** -0.5] raises. *)
Definition pow_neg_half (n : nat) : result f32 :=
  if (n =? 0)%nat then Raise ZeroDivisionError
  else Ok (fl (Rpower (INR n) (-0.5))).

(** Lines [k = key(x)] to [W = W * C ** -0.5]. *)
Definition scores (key query : Linear) (x : Tensor3 f32)
  : result (Tensor3 f32) :=
  let '(B, T, C) := shape3 x in
  k ← call key x;
  q ← call query x;
  W ← matmul q (transpose k);
  s ← pow_neg_half C;
  Ok (scale W s).

(** ... to [W = F.softmax(W, dim=-1)]. *)
Definition weights (key query : Linear) (x : Tensor3 f32)
  : result (Tensor3 f32) :=
  let '(B, T, C) := shape3 x in
  W ← scores key query x;
  let tril := tril (ones T T) in
  W ← masked_fill W (eq0 tril) Ninf;
  Ok (softmax W).

(** ... to [out = W @ v]. *)
Definition forward (key query value : Linear) (x : Tensor3 f32)
  : result (Tensor3 f32) :=
  W ← weights key query x;
  v ← call value x;
  matmul W v.

(** The cell from [B,T,C = x.shape] on, the projections created for the
    [C] of [x] with the draws [rk], [rq], [rv]. *)
Definition attention (hs : nat) (rk rq rv : nat -> nat -> f32)
    (x : Tensor3 f32) : result (Tensor3 f32) :=
  let '(B, T, C) := shape3 x in
  let key := nn_Linear C hs rk in
  let query := nn_Linear C hs rq in
  let value := nn_Linear C hs rv in
  forward key query value x.

End Operations.

(** Row [i] of batch element [b] of the scores [Sc] after the mask: the
    positions after [i] hold [-inf]. *)
Definition masked_row (Sc : Tensor3 f32) (b i j : nat) : f32 :=
  if (j <=? i)%nat then get3 Sc b i j else Ninf.

(** The rounding that keeps every number but those up to [tiny], which
    underflow to 0, with the exact [exp]. *)
Definition flush_rnd (r : R) : R := if Rle_dec (Rabs r) tiny then 0 else r.

(** The tensor all of whose entries are [a], and the draw all of whose
    weights are [a]. *)
Definition full (B T C : nat) (a : f32) : Tensor3 f32 :=
  mk3 B T C (fun _ _ _ => a).
Definition w_all (a : f32) : nat -> nat -> f32 := fun _ _ => a.

(** Inputs used below: the draw of weights 1/2; an input of shape (1, 1, 1)
    that makes the score overflow; value tensors of shape (1, 2, 1) that
    differ in row 1, the second holding an infinity there. *)
Definition w_half : nat -> nat -> f32 := w_all (Num (/ 2)).
Definition x_big : Tensor3 f32 := full 1 1 1 (Num 100000000000000000000).
Definition v_num : Tensor3 f32 := T3 (1, 2, 1)%nat [[[Num 1]; [Num 1]]].
Definition v_inf : Tensor3 f32 := T3 (1, 2, 1)%nat [[[Num 1]; [Pinf]]].
Definition v_two : Tensor3 f32 := T3 (1, 2, 1)%nat [[[Num 1]; [Num 2]]].

(** The draws of weights 1 and of weights 0, and an input of shape
    (1, 2, 1) whose scores at position 1 are 225 apart. *)
Definition w_one : nat -> nat -> f32 := w_all (Num 1).
Definition w_zero : nat -> nat -> f32 := w_all (Num 0).
Definition x_gap : Tensor3 f32 := T3 (1, 2, 1)%nat [[[Num 0]; [Num 15]]].

End Float32.

(** * Properties *)

(** ** Tabulated lists and tensors *)

Section TensorFacts.
Import Torch.
Context {A : Type} `{Inhabited A}.

Lemma length_tabulate {X} (n : nat) (f : nat -> X) : length (tabulate n f) = n.
Proof. unfold tabulate. now rewrite length_map, length_seq. Qed.

Lemma nth_tabulate {X} (n i : nat) (f : nat -> X) (d : X) :
  i < n -> nth i (tabulate n f) d = f i.
Proof.
  intros Hi. unfold tabulate.
  rewrite (nth_indep _ d (f 0)) by now rewrite length_map, length_seq.
  rewrite (map_nth f (seq 0 n) 0 i), seq_nth; [reflexivity | assumption].
Qed.

Lemma get2_mk2 (n m i j : nat) (f : nat -> nat -> A) :
  i < n -> j < m -> get2 (mk2 n m f) i j = f i j.
Proof.
  intros Hi Hj. unfold get2, mk2. cbn [data2].
  rewrite nth_tabulate by assumption. now apply nth_tabulate.
Qed.

Lemma get3_mk3 (B T C b i j : nat) (f : nat -> nat -> nat -> A) :
  b < B -> i < T -> j < C -> get3 (mk3 B T C f) b i j = f b i j.
Proof.
  intros Hb Hi Hj. unfold get3, mk3. cbn [data3].
  now rewrite !nth_tabulate by assumption.
Qed.

Lemma Forall_tabulate {X} (P : X -> Prop) (n : nat) (f : nat -> X) :
  (forall i, i < n -> P (f i)) -> Forall P (tabulate n f).
Proof.
  intros Hf. unfold tabulate. apply Forall_forall. intros x Hx.
  apply list_elem_of_In, in_map_iff in Hx. destruct Hx as (i & <- & Hi).
  apply in_seq in Hi. apply Hf. lia.
Qed.

Lemma wf2_mk2 (n m : nat) (f : nat -> nat -> A) : wf2 (mk2 n m f).
Proof.
  unfold wf2, mk2. cbn [shape2 data2]. split; [apply length_tabulate |].
  apply Forall_tabulate. intros. apply length_tabulate.
Qed.

Lemma wf3_mk3 (B T C : nat) (f : nat -> nat -> nat -> A) : wf3 (mk3 B T C f).
Proof.
  unfold wf3, mk3. cbn [shape3 data3]. split; [apply length_tabulate |].
  apply Forall_tabulate. intros. split; [apply length_tabulate |].
  apply Forall_tabulate. intros. apply length_tabulate.
Qed.

End TensorFacts.

(** ** Sums *)

Section Sums.
Import Torch.
Local Open Scope R_scope.

Lemma rsum_ext (n : nat) (f g : nat -> R) :
  (forall i, (i < n)%nat -> f i = g i) -> rsum n f = rsum n g.
Proof.
  induction n as [| n IH]; intros Hfg; simpl; [reflexivity |].
  rewrite IH, Hfg by (intros; try apply Hfg; lia). reflexivity.
Qed.

Lemma rsum_zero (n : nat) (f : nat -> R) :
  (forall i, (i < n)%nat -> f i = 0) -> rsum n f = 0.
Proof.
  induction n as [| n IH]; intros Hf; simpl; [reflexivity |].
  rewrite IH, Hf by (intros; try apply Hf; lia). lra.
Qed.

(** The terms from [m] on do not count when they are 0. *)
Lemma rsum_prefix (m n : nat) (f : nat -> R) :
  (m <= n)%nat -> (forall i, (m <= i < n)%nat -> f i = 0) ->
  rsum n f = rsum m f.
Proof.
  intros Hmn. induction Hmn as [| n Hmn IH]; intros Hf; [reflexivity |].
  simpl. rewrite IH, Hf by (intros; try apply Hf; lia). lra.
Qed.

Lemma rsum_scal_r (n : nat) (f : nat -> R) (c : R) :
  rsum n (fun i => f i * c) = rsum n f * c.
Proof. induction n as [| n IH]; simpl; [lra | rewrite IH; lra]. Qed.

Lemma rsum_nonneg (n : nat) (f : nat -> R) :
  (forall i, (i < n)%nat -> 0 <= f i) -> 0 <= rsum n f.
Proof.
  induction n as [| n IH]; intros Hf; simpl; [lra |].
  assert (0 <= rsum n f) by (apply IH; intros; apply Hf; lia).
  assert (0 <= f n) by (apply Hf; lia). lra.
Qed.

(** A sum of non-negative terms one of which is positive is positive. *)
Lemma rsum_pos (n k : nat) (f : nat -> R) :
  (k < n)%nat -> (forall i, (i < n)%nat -> 0 <= f i) -> 0 < f k ->
  0 < rsum n f.
Proof.
  induction n as [| n IH]; intros Hk Hf Hfk; [lia |]. simpl.
  assert (0 <= f n) by (apply Hf; lia).
  destruct (Nat.eq_dec k n) as [-> | Hne].
  - assert (0 <= rsum n f) by (apply rsum_nonneg; intros; apply Hf; lia). lra.
  - assert (0 < rsum n f) by (apply IH; [lia | intros; apply Hf; lia | assumption]).
    lra.
Qed.

End Sums.

(** ** The torch operations on tensors of matching shapes *)

Section TorchFacts.
Import Torch.
Local Open Scope R_scope.

Lemma bindex_lt (n i : nat) : (i < n)%nat -> bindex n i = i.
Proof.
  unfold bindex. destruct (Nat.eqb_spec n 1) as [-> | _]; [lia | reflexivity].
Qed.

Lemma broadcasts_refl (n : nat) : broadcasts n n = true.
Proof. unfold broadcasts. now rewrite Nat.eqb_refl. Qed.

Lemma bsize_id (n : nat) : bsize n n = n.
Proof. unfold bsize. now destruct (n =? 1)%nat. Qed.

Lemma call_ok (l : Linear) (x : Tensor3 R) (B T C : nat) :
  shape3 x = (B, T, C) -> in_features l = C ->
  call l x =
  Ok (mk3 B T (out_features l)
        (fun b t h => rsum C (fun c => get3 x b t c * get2 (weight l) h c))).
Proof.
  intros Hx Hl. unfold call. rewrite Hx, Hl, Nat.eqb_refl. reflexivity.
Qed.

Lemma matmul_ok (a b : Tensor3 R) (B n m p : nat) :
  shape3 a = (B, n, m) -> shape3 b = (B, m, p) ->
  matmul a b =
  Ok (mk3 B n p
        (fun c i j =>
           rsum m (fun h => get3 a (bindex B c) i h * get3 b (bindex B c) h j))).
Proof.
  intros Ha Hb. unfold matmul.
  rewrite Ha, Hb, Nat.eqb_refl, broadcasts_refl, bsize_id. reflexivity.
Qed.

Lemma matmul_get (a b : Tensor3 R) (B n m p : nat) :
  shape3 a = (B, n, m) -> shape3 b = (B, m, p) ->
  exists out,
    matmul a b = Ok out /\ shape3 out = (B, n, p) /\ wf3 out /\
    forall c i j, (c < B)%nat -> (i < n)%nat -> (j < p)%nat ->
      get3 out c i j = rsum m (fun h => get3 a c i h * get3 b c h j).
Proof.
  intros Ha Hb. eexists. split; [now apply (matmul_ok a b B n m p) |].
  split; [reflexivity |]. split; [apply wf3_mk3 |].
  intros c i j Hc Hi Hj. rewrite get3_mk3 by assumption.
  now rewrite bindex_lt.
Qed.

Lemma masked_fill_ok (t : Tensor3 R) (mask : Tensor2 bool) (v : xreal)
    (B T C : nat) :
  shape3 t = (B, T, C) -> shape2 mask = (T, C) ->
  masked_fill t mask v =
  Ok (mk3 B T C
        (fun b i j =>
           if get2 mask (bindex T i) (bindex C j) then v else Fin (get3 t b i j))).
Proof.
  intros Ht Hm. unfold masked_fill. rewrite Ht, Hm, !broadcasts_refl.
  reflexivity.
Qed.

Lemma pow_neg_half_pos (n : nat) :
  (0 < n)%nat -> Attention.pow_neg_half n = Ok (Rpower (INR n) (-0.5)).
Proof.
  intros Hn. unfold Attention.pow_neg_half.
  destruct (Nat.eqb_spec n 0); [lia | reflexivity].
Qed.

(** [tril(ones(T, T))] is 1 on and below the diagonal and 0 above. *)
Lemma tril_ones_get (T i j : nat) :
  (i < T)%nat -> (j < T)%nat ->
  get2 (tril (ones T T)) i j = if (j <=? i)%nat then 1 else 0.
Proof.
  intros Hi Hj. unfold tril, ones at 1. cbn [shape2 mk2].
  rewrite get2_mk2 by assumption.
  destruct (j <=? i)%nat; [| reflexivity].
  unfold ones. now rewrite get2_mk2.
Qed.

(** [tril == 0] holds exactly above the diagonal. *)
Lemma mask_get (T i j : nat) :
  (i < T)%nat -> (j < T)%nat ->
  get2 (eq0 (tril (ones T T))) i j = negb (j <=? i)%nat.
Proof.
  intros Hi Hj. unfold eq0.
  replace (shape2 (tril (ones T T))) with (T, T) by reflexivity.
  rewrite get2_mk2, tril_ones_get by assumption.
  destruct (j <=? i)%nat; simpl.
  - apply bool_decide_eq_false. lra.
  - now apply bool_decide_eq_true.
Qed.

End TorchFacts.

(** ** The attention head on an input of shape (B, T, C) *)

Section HeadFacts.
Import Torch Attention.
Local Open Scope R_scope.

Variables (key query value : Linear) (x : Tensor3 R) (B T C H : nat).
Hypothesis Hx : shape3 x = (B, T, C).
Hypothesis Hkin : in_features key = C.
Hypothesis Hqin : in_features query = C.
Hypothesis Hkout : out_features key = H.
Hypothesis Hqout : out_features query = H.
Hypothesis HC : (0 < C)%nat.

Lemma scores_spec :
  exists k q Sc,
    call key x = Ok k /\ call query x = Ok q /\
    shape3 k = (B, T, H) /\ shape3 q = (B, T, H) /\
    scores key query x = Ok Sc /\ shape3 Sc = (B, T, T) /\
    forall b i j, (b < B)%nat -> (i < T)%nat -> (j < T)%nat ->
      get3 Sc b i j =
      rsum H (fun h => get3 q b i h * get3 k b j h) * Rpower (INR C) (-0.5).
Proof.
  pose proof (call_ok key x B T C Hx Hkin) as Ek.
  pose proof (call_ok query x B T C Hx Hqin) as Eq.
  rewrite Hkout in Ek. rewrite Hqout in Eq.
  eexists _, _, _. split; [exact Ek |]. split; [exact Eq |].
  split; [reflexivity |]. split; [reflexivity |].
  unfold scores. rewrite Hx, Ek, Eq. cbn [mbind result_bind].
  erewrite matmul_ok; [| reflexivity | reflexivity].
  cbn [mbind result_bind]. rewrite (pow_neg_half_pos C HC). cbn [mbind result_bind].
  split; [reflexivity |]. split; [reflexivity |].
  intros b i j Hb Hi Hj. unfold scale. cbn [shape3 mk3].
  rewrite !get3_mk3 by assumption. f_equal.
  apply rsum_ext. intros h Hh. rewrite bindex_lt by assumption.
  unfold transpose. cbn [shape3 mk3]. f_equal.
  now rewrite (get3_mk3 B H T b h j).
Qed.

Lemma weights_spec :
  exists Sc W,
    scores key query x = Ok Sc /\ weights key query x = Ok W /\
    shape3 W = (B, T, T) /\
    forall b i j, (b < B)%nat -> (i < T)%nat -> (j < T)%nat ->
      get3 W b i j = masked_exp Sc b i j / rsum T (masked_exp Sc b i).
Proof.
  destruct scores_spec as (k & q & Sc & _ & _ & _ & _ & ES & HS & _).
  exists Sc. eexists. split; [exact ES |].
  unfold weights. rewrite Hx, ES. cbn [mbind result_bind].
  erewrite masked_fill_ok; [| exact HS | reflexivity].
  cbn [mbind result_bind]. split; [reflexivity |]. split; [reflexivity |].
  intros b i j Hb Hi Hj. unfold softmax. cbn [shape3 mk3].
  rewrite get3_mk3 by assumption.
  assert (Hm : forall j', (j' < T)%nat ->
            xexp (get3 (mk3 B T T (fun b0 i0 j0 =>
                    if get2 (eq0 (tril (ones T T))) (bindex T i0) (bindex T j0)
                    then NegInf else Fin (get3 Sc b0 i0 j0))) b i j')
            = masked_exp Sc b i j').
  { intros j' Hj'. rewrite get3_mk3, !bindex_lt, mask_get by assumption.
    unfold masked_exp. now destruct (j' <=? i)%nat. }
  rewrite Hm by assumption. f_equal. apply rsum_ext. exact Hm.
Qed.

Lemma masked_exp_nonneg (Sc : Tensor3 R) (b i j : nat) : 0 <= masked_exp Sc b i j.
Proof.
  unfold masked_exp. destruct (j <=? i)%nat; [| lra].
  left. apply exp_pos.
Qed.

Lemma masked_exp_sum_pos (Sc : Tensor3 R) (b i : nat) :
  (i < T)%nat -> 0 < rsum T (masked_exp Sc b i).
Proof.
  intros Hi. apply (rsum_pos T i); [assumption | |].
  - intros. apply masked_exp_nonneg.
  - unfold masked_exp. rewrite Nat.leb_refl. apply exp_pos.
Qed.

(** Every row of the weights is zero after the diagonal, non-negative, and
    sums to 1 up to the diagonal. *)
Lemma weights_rows :
  exists W,
    weights key query x = Ok W /\ shape3 W = (B, T, T) /\
    forall b i, (b < B)%nat -> (i < T)%nat ->
      (forall j, (i < j < T)%nat -> get3 W b i j = 0) /\
      (forall j, (j < T)%nat -> 0 <= get3 W b i j) /\
      rsum (S i) (fun j => get3 W b i j) = 1.
Proof.
  destruct weights_spec as (Sc & W & _ & EW & HW & Hget).
  exists W. split; [exact EW |]. split; [exact HW |].
  intros b i Hb Hi.
  pose proof (masked_exp_sum_pos Sc b i Hi) as Hpos.
  assert (Hzero : forall j, (i < j < T)%nat -> get3 W b i j = 0).
  { intros j [Hij Hj]. rewrite Hget by assumption. unfold masked_exp at 1.
    destruct (Nat.leb_spec j i); [lia |]. unfold Rdiv. lra. }
  split; [exact Hzero |]. split.
  - intros j Hj. rewrite Hget by assumption.
    apply Rmult_le_pos; [apply masked_exp_nonneg |].
    left. now apply Rinv_0_lt_compat.
  - rewrite <- (rsum_prefix (S i) T) by (try lia; intros; apply Hzero; lia).
    rewrite (rsum_ext T _ (fun j => masked_exp Sc b i j * / rsum T (masked_exp Sc b i))).
    + rewrite rsum_scal_r. apply Rinv_r. lra.
    + intros j Hj. now rewrite Hget.
Qed.

Variable Hv : nat.
Hypothesis Hvin : in_features value = C.
Hypothesis Hvout : out_features value = Hv.

Lemma forward_spec :
  exists W v out,
    weights key query x = Ok W /\ call value x = Ok v /\
    shape3 v = (B, T, Hv) /\
    forward key query value x = Ok out /\
    shape3 out = (B, T, Hv) /\ wf3 out /\
    forall b i h, (b < B)%nat -> (i < T)%nat -> (h < Hv)%nat ->
      get3 out b i h = rsum T (fun j => get3 W b i j * get3 v b j h).
Proof.
  destruct weights_rows as (W & EW & HW & _).
  pose proof (call_ok value x B T C Hx Hvin) as Ev. rewrite Hvout in Ev.
  set (v := mk3 B T Hv _) in Ev.
  destruct (matmul_get W v B T T Hv HW eq_refl) as (out & Eo & Ho & Hwf & Hget).
  exists W, v, out.
  split; [exact EW |]. split; [exact Ev |]. split; [reflexivity |].
  split; [| now repeat split].
  unfold forward. rewrite EW. cbn [mbind result_bind].
  rewrite Ev. cbn [mbind result_bind]. exact Eo.
Qed.

End HeadFacts.

(** With C = 0 the scale [C ** -0.5] raises: weights are only returned for
    C > 0. *)
Lemma weights_pos (key query : Torch.Linear) (x W : Torch.Tensor3 R)
    (B T C H : nat) :
  Torch.shape3 x = (B, T, C) ->
  Torch.in_features key = C -> Torch.in_features query = C ->
  Torch.out_features key = H -> Torch.out_features query = H ->
  Attention.weights key query x = Ok W -> 0 < C.
Proof.
  intros Hx Hk Hq Hko Hqo EW. destruct C as [| C]; [exfalso | lia].
  unfold Attention.weights, Attention.scores in EW.
  rewrite Hx, (call_ok key x B T 0 Hx Hk), (call_ok query x B T 0 Hx Hq) in EW.
  cbn [mbind result_bind] in EW.
  rewrite Hko, Hqo in EW.
  erewrite matmul_ok in EW; [| reflexivity | reflexivity].
  discriminate EW.
Qed.

Lemma forward_pos (key query value : Torch.Linear) (x out : Torch.Tensor3 R)
    (B T C H : nat) :
  Torch.shape3 x = (B, T, C) ->
  Torch.in_features key = C -> Torch.in_features query = C ->
  Torch.out_features key = H -> Torch.out_features query = H ->
  Attention.forward key query value x = Ok out -> 0 < C.
Proof.
  intros Hx Hk Hq Hko Hqo Eo. unfold Attention.forward in Eo.
  destruct (Attention.weights key query x) as [W |] eqn:EW; [| discriminate].
  now apply (weights_pos key query x W B T C H).
Qed.

(** ** The attention head: rows of the weights, causality, shapes *)

Section HeadClaims.
Import Torch Attention.
Local Open Scope R_scope.

Variables (hs : nat) (rk rq rv : nat -> nat -> R).
Variables (x : Tensor3 R) (B T C : nat).

(** The projections the cell creates for an input of last dimension [C]. *)
Abbreviation key := (nn_Linear C hs rk).
Abbreviation query := (nn_Linear C hs rq).
Abbreviation value := (nn_Linear C hs rv).

(** C5.  On an input of shape (B, T, C) the cell returns an output when
    C > 0, and the output it returns has shape (B, T, head_size), its rows
    having these sizes; so an input of shape (2, 4, 5) with head size 6
    gives an output of shape (2, 4, 6). *)
Theorem C5_output_shape :
  shape3 x = (B, T, C) ->
  ((0 < C)%nat -> exists out, attention hs rk rq rv x = Ok out) /\
  forall out, attention hs rk rq rv x = Ok out ->
    shape3 out = (B, T, hs) /\ wf3 out.
Proof.
  intros Hx.
  assert (Hatt : attention hs rk rq rv x = forward key query value x)
    by (unfold attention; now rewrite Hx).
  rewrite Hatt.
  assert (Hall : (0 < C)%nat -> exists out,
            forward key query value x = Ok out /\
            shape3 out = (B, T, hs) /\ wf3 out).
  { intros HC.
    destruct (forward_spec key query value x B T C hs
                Hx eq_refl eq_refl eq_refl eq_refl HC hs eq_refl eq_refl)
      as (W & v & out & _ & _ & _ & Eo & Hs & Hwf & _).
    now exists out. }
  split.
  - intros HC. destruct (Hall HC) as (out & Eo & _). now exists out.
  - intros out Eo.
    pose proof (forward_pos key query value x out B T C hs
                  Hx eq_refl eq_refl eq_refl eq_refl Eo) as HC.
    destruct (Hall HC) as (out0 & Eo0 & Hs & Hwf).
    assert (out0 = out) as -> by congruence. now split.
Qed.

End HeadClaims.

Section MaskClaim.
Import Torch.
Local Open Scope R_scope.


End MaskClaim.

(** ** The scale of the scores *)

Section Scale.
Import Torch Attention.
Local Open Scope R_scope.

Lemma Rpower_neg_half_lt (a b : R) :
  0 < a -> a < b -> Rpower b (-0.5) < Rpower a (-0.5).
Proof.
  intros Ha Hab. unfold Rpower. apply exp_increasing.
  pose proof (ln_increasing a b Ha Hab). lra.
Qed.

(** C1.  On the input of shape (4, 4, 5) whose entries are all 1, with all
    projection weights 1 and head size 6, the query-key dot product at
    [(0, 0, 0)] is 150, and the score before the mask is this dot product
    times 5^(-1/2), the input dimension C, not times 6^(-1/2), the head
    dimension. *)
Theorem C1_scale_uses_input_dim :
  let key := nn_Linear 5 head_size w_ones in
  let query := nn_Linear 5 head_size w_ones in
  let x := x_ones 4 4 5 in
  exists k q Sc,
    call key x = Ok k /\ call query x = Ok q /\
    scores key query x = Ok Sc /\
    let d := rsum head_size (fun h => get3 q 0 0 h * get3 k 0 0 h) in
    d = 150 /\
    get3 Sc 0 0 0 = d * Rpower (INR 5) (-0.5) /\
    get3 Sc 0 0 0 <> d * Rpower (INR head_size) (-0.5).
Proof.
  intros key query x.
  destruct (scores_spec key query x 4 4 5 head_size
              eq_refl eq_refl eq_refl eq_refl eq_refl ltac:(lia))
    as (k & q & Sc & Ek & Eq & _ & _ & ES & _ & Hget).
  exists k, q, Sc. split; [exact Ek |]. split; [exact Eq |].
  split; [exact ES |]. intros d.
  assert (Hd : d = 150).
  { assert (Hk : k = mk3 4 4 head_size
        (fun b t h => rsum 5 (fun c => get3 x b t c * get2 (weight key) h c)))
      by (pose proof (call_ok key x 4 4 5 eq_refl eq_refl) as E;
          change (out_features key) with head_size in E; congruence).
    assert (Hq : q = k) by (unfold query in Eq; fold key in Eq; congruence).
    assert (Hk0 : forall h, (h < head_size)%nat -> get3 k 0 0 h = 5).
    { intros h Hh. rewrite Hk, get3_mk3 by (assumption || lia).
      rewrite (rsum_ext 5 _ (fun _ => 1)); [simpl; lra |].
      intros c Hc. unfold x, x_ones. rewrite get3_mk3 by lia.
      unfold key, nn_Linear, w_ones. cbn [weight].
      rewrite get2_mk2 by assumption. lra. }
    unfold d. rewrite Hq.
    rewrite (rsum_ext head_size _ (fun _ => 25)); [simpl; lra |].
    intros h Hh. rewrite Hk0 by assumption. lra. }
  split; [exact Hd |].
  split; [apply Hget; lia |].
  rewrite (Hget 0 0 0)%nat by lia. fold d. rewrite Hd.
  assert (Rpower (INR head_size) (-0.5) < Rpower (INR 5) (-0.5)).
  { apply Rpower_neg_half_lt; unfold head_size; simpl; lra. }
  lra.
Qed.

End Scale.

(** ** Failures *)

Section Failures.
Import Torch Attention.
Local Open Scope R_scope.

(** C4, as stated, fails: on an input with T = 0, of shape (2, 0, 5), the
    cell raises nothing and returns the empty output of shape (2, 0, 6). *)
Lemma C4_empty_sequence_returns :
  let key := nn_Linear 5 head_size w_ones in
  let query := nn_Linear 5 head_size w_ones in
  let value := nn_Linear 5 head_size w_ones in
  configured key query value 5 head_size /\
  forward key query value (x_ones 2 0 5) = Ok (T3 (2, 0, 6)%nat [[]; []]).
Proof. split; [now repeat split | reflexivity]. Qed.

(** C4, amended.  For a head whose projections were created for input
    dimension [Cin]: on an input whose last dimension differs from [Cin] the
    computation raises torch's shape error, a [RuntimeError]; it validates
    neither T nor the head dimension, and on every input of shape (B, T, C)
    with [C = Cin > 0], whatever T and the head dimension (0 included), it
    raises nothing and returns an output. *)
Theorem C4_failures (key query value : Linear) (x : Tensor3 R)
    (B T C Cin H : nat) :
  configured key query value Cin H -> shape3 x = (B, T, C) ->
  (C <> Cin -> forward key query value x = Raise RuntimeError) /\
  (C = Cin -> (0 < C)%nat -> exists out, forward key query value x = Ok out).
Proof.
  intros (Hk & Hq & Hv & Hko & Hqo & Hvo) Hx. split.
  - intros Hne. unfold forward, weights, scores, call. rewrite Hx, Hk.
    destruct (Nat.eqb_spec C Cin); [contradiction | reflexivity].
  - intros -> HC.
    destruct (forward_spec key query value x B T Cin H
                Hx Hk Hq Hko Hqo HC H Hv Hvo)
      as (W & v & out & _ & _ & _ & Eo & _).
    now exists out.
Qed.

End Failures.

(** ** The tokenizer *)

Section TokenizerClaims.
Import Tokenizer.

Lemma vocab_round_trips (ch : ascii) :
  In ch vocab ->
  exists i, subscript vtoi ch = Ok i /\ subscript itov i = Ok ch.
Proof.
  intros Hin.
  assert (Hall : forallb round_trips vocab = true) by (vm_compute; reflexivity).
  rewrite forallb_forall in Hall. specialize (Hall ch Hin).
  unfold round_trips in Hall. unfold subscript.
  destruct (vtoi !! ch) as [i |]; [| discriminate]. exists i.
  destruct (itov !! i) as [ch' |]; [| discriminate].
  apply Ascii.eqb_eq in Hall. now subst.
Qed.

Lemma comprehension_round_trip (l : list ascii) :
  Forall (fun ch => In ch vocab) l ->
  exists t, comprehension (fun ch => subscript vtoi ch) l = Ok t /\
            comprehension (fun i => subscript itov i) t = Ok l.
Proof.
  induction 1 as [| ch l Hch _ (t & Et & Dt)]; [now exists [] |].
  destruct (vocab_round_trips ch Hch) as (i & Ei & Di).
  exists (i :: t). cbn [comprehension].
  rewrite Ei. cbn [mbind result_bind]. rewrite Et. cbn [mbind result_bind].
  rewrite Di. cbn [mbind result_bind]. rewrite Dt. now split.
Qed.

(** C9.  For every string all of whose characters are in the vocabulary,
    [encode] returns ids which [decode] turns back into the list of the
    characters of the string; and on a string with a character outside the
    vocabulary (here the one-character string of character 0) [encode]
    raises [KeyError]. *)
Theorem C9_round_trip :
  (forall s : string,
     Forall (fun ch => ch ∈ vocab) (list_ascii_of_string s) ->
     exists t, encode s = Ok t /\ decode t = Ok (list_ascii_of_string s)) /\
  (exists s : string,
     Exists (fun ch => ch ∉ vocab) (list_ascii_of_string s) /\
     encode s = Raise KeyError).
Proof.
  split.
  - intros s Hs. unfold encode, decode. apply comprehension_round_trip.
    eapply Forall_impl; [exact Hs |]. intros ch. apply list_elem_of_In.
  - exists (String "000" EmptyString). split; [| vm_compute; reflexivity].
    apply Exists_cons_hd. intros Hin%list_elem_of_In.
    assert (Hmem : existsb (Ascii.eqb "000") vocab = false)
      by (vm_compute; reflexivity).
    apply not_true_iff_false in Hmem. apply Hmem, existsb_exists.
    exists "000"%char. split; [assumption | apply Ascii.eqb_refl].
Qed.

Lemma length_slice {X} (l : list X) (a b : nat) :
  a <= b -> b <= length l -> length (slice l a b) = b - a.
Proof.
  intros Hab Hb. unfold slice. rewrite length_firstn, length_skipn. lia.
Qed.

Lemma nth_slice {X} (l : list X) (a b t : nat) (d : X) :
  t < b - a -> nth t (slice l a b) d = nth (a + t) l d.
Proof.
  intros Ht. unfold slice.
  rewrite nth_firstn. destruct (Nat.ltb_spec t (b - a)); [| lia].
  apply nth_skipn.
Qed.

Lemma nth_map_lt {X Y} (f : X -> Y) (l : list X) (n : nat) (d : Y) (d' : X) :
  n < length l -> nth n (map f l) d = f (nth n l d').
Proof.
  intros Hn. rewrite (nth_indep _ d (f d')) by now rewrite length_map.
  apply map_nth.
Qed.

Lemma stack_ok {X} (rows : list (list X)) (n : nat) :
  rows <> [] -> Forall (fun r => length r = n) rows -> stack rows = Ok rows.
Proof.
  intros Hne Hall. destruct rows as [| r rows']; [contradiction |].
  unfold stack.
  assert (Hr : length r = n) by now inversion Hall.
  replace (forallb _ (r :: rows')) with true; [reflexivity |].
  symmetry. apply forallb_forall. intros r' Hr'.
  apply Nat.eqb_eq. rewrite Hr.
  rewrite Forall_forall in Hall. apply Hall. now apply list_elem_of_In.
Qed.

(** C10.  For every draw [ix] of [torch.randint], [get_batch] returns [x]
    and [y] of shape (block_size, block_size) = (4, 4), the number of rows
    being [block_size] and not [batch_size] = 2, and [y] is [x] shifted by
    one position: [y[n][t] = x[n][t+1]] for [t < block_size - 1]. *)
Theorem C10_get_batch (data : list Z) (ix : list nat) :
  randint_draw (ix_high data) block_size ix ->
  exists x y,
    get_batch data ix = Ok (x, y) /\
    length x = block_size /\ length y = block_size /\
    block_size = 4 /\ block_size <> batch_size /\
    Forall (fun r => length r = block_size) x /\
    Forall (fun r => length r = block_size) y /\
    forall n t, n < block_size -> t < block_size - 1 ->
      nth t (nth n y []) 0%Z = nth (t + 1) (nth n x []) 0%Z.
Proof.
  intros [Hlen Hix]. unfold ix_high, block_size in *.
  set (x := map (fun i => slice data i (i + 4)) ix).
  set (y := map (fun i => slice data (i + 1) (i + 4 + 1)) ix).
  assert (Hx : Forall (fun r => length r = 4) x).
  { unfold x. apply Forall_map. eapply Forall_impl; [exact Hix |].
    intros i Hi. cbn beta in *. rewrite length_slice; lia. }
  assert (Hy : Forall (fun r => length r = 4) y).
  { unfold y. apply Forall_map. eapply Forall_impl; [exact Hix |].
    intros i Hi. cbn beta in *. rewrite length_slice; lia. }
  assert (Hne : ix <> []) by (intros ->; discriminate).
  exists x, y. unfold get_batch, block_size. fold x y.
  rewrite (stack_ok x 4), (stack_ok y 4); try assumption;
    try (unfold x, y; destruct ix; [contradiction | discriminate]).
  cbn [mbind result_bind].
  split; [reflexivity |].
  split; [unfold x; now rewrite length_map |].
  split; [unfold y; now rewrite length_map |].
  split; [reflexivity |]. split; [discriminate |].
  split; [exact Hx |]. split; [exact Hy |].
  intros n t Hn Ht. unfold x, y.
  rewrite <- Hlen in Hn.
  rewrite !(nth_map_lt _ ix n [] 0) by assumption.
  rewrite !nth_slice by lia. f_equal. lia.
Qed.

End TokenizerClaims.

(** ** The cell on the store *)

Section HeapFacts.
Import Torch Attention Embed Notebook.
Local Open Scope R_scope.

Lemma bind_M {X Y} (m : M X) (k : X -> M Y) (s : state) :
  (m ≫= k) s =
  match m s with
  | Ok (a, s') => k a s'
  | Raise e => Raise e
  end.
Proof. reflexivity. Qed.

Lemma lookup_new (h l : list obj) (k : nat) (o : obj) :
  l !! k = Some o -> (h ++ l) !! (length h + k)%nat = Some o.
Proof.
  intros Hk. rewrite lookup_app_r by lia.
  now replace (length h + k - length h)%nat with k by lia.
Qed.

Lemma load_tensor3_ok (p : nat) (t : Tensor3 R) (s : state) :
  heap s !! p = Some (OTensor3 t) -> load_tensor3 p s = Ok (t, s).
Proof. intros Hp. unfold load_tensor3, load. rewrite bind_M, Hp. reflexivity. Qed.

Lemma load_tensor2_ok (p : nat) (t : Tensor2 R) (s : state) :
  heap s !! p = Some (OTensor2 t) -> load_tensor2 p s = Ok (t, s).
Proof. intros Hp. unfold load_tensor2, load. rewrite bind_M, Hp. reflexivity. Qed.

Lemma load_mask_ok (p : nat) (t : Tensor2 bool) (s : state) :
  heap s !! p = Some (OMask t) -> load_mask p s = Ok (t, s).
Proof. intros Hp. unfold load_mask, load. rewrite bind_M, Hp. reflexivity. Qed.

Lemma load_tensorx_ok (p : nat) (t : Tensor3 xreal) (s : state) :
  heap s !! p = Some (OTensorX t) -> load_tensorx p s = Ok (t, s).
Proof. intros Hp. unfold load_tensorx, load. rewrite bind_M, Hp. reflexivity. Qed.

Lemma load_linear_ok (p inf outf pw : nat) (w : Tensor2 R) (s : state) :
  heap s !! p = Some (OLinear inf outf pw) -> heap s !! pw = Some (OTensor2 w) ->
  load_linear p s =
  Ok ({| in_features := inf; out_features := outf; weight := w |}, s).
Proof.
  intros Hp Hw. unfold load_linear. rewrite bind_M. unfold load at 1. rewrite Hp.
  rewrite bind_M, (load_tensor2_ok pw w s Hw). reflexivity.
Qed.

Lemma new_Linear_ok (inf outf : nat) (h l : list obj) (o : list (list shown))
    (g : Generator) :
  new_Linear inf outf {| heap := h ++ l; stdout := o; default_generator := g |} =
  Ok ((length h + S (length l))%nat,
      {| heap := h ++ (l ++ [OTensor2 (mk2 outf inf (drawn g inf));
                             OLinear inf outf (length h + length l)]);
         stdout := o;
         default_generator := advance (outf * inf) g |}).
Proof.
  unfold new_Linear. rewrite bind_M. cbn [alloc heap stdout default_generator].
  rewrite bind_M. cbn [uniform heap stdout default_generator].
  rewrite bind_M. unfold store. cbn [heap stdout default_generator].
  rewrite length_app, <- app_assoc.
  rewrite (lookup_new h (l ++ [_]) (length l) _)
    by (apply list_lookup_middle; reflexivity).
  cbn [alloc heap stdout default_generator].
  rewrite insert_app_r, insert_app_r_alt, Nat.sub_diag by lia.
  cbn [insert list_insert]. unfold alloc. cbn [heap stdout default_generator].
  rewrite !length_app, <- !app_assoc. cbn [length app].
  now rewrite Nat.add_1_r.
Qed.


Lemma lookup_new0 (h l : list obj) (o : obj) :
  l !! 0%nat = Some o -> (h ++ l) !! length h = Some o.
Proof. intros Hk. rewrite <- (Nat.add_0_r (length h)). now apply lookup_new. Qed.

(** Runs the steps of a program of [M] that compute, the heap kept in the
    form [h ++ l]. *)
Ltac norm :=
  cbn [heap stdout default_generator];
  rewrite ?length_app; rewrite <- ?app_assoc; cbn [length app].

Ltac look :=
  cbn [heap];
  first [ eapply lookup_new; reflexivity
        | eapply lookup_new0; reflexivity
        | apply lookup_app_l_Some; eassumption
        | eassumption ].

Ltac run_alloc := rewrite bind_M; cbn [alloc]; norm.
Ltac run_print := rewrite bind_M; cbn [print]; norm.
Ltac run_load lem := rewrite bind_M; erewrite lem by look; cbv beta iota.
Ltac run_lift eqn := rewrite bind_M, eqn; cbn [lift].

(** [store] changes the object it is given: a program of [M] can change
    an object in place. *)
Lemma store_changes :
  exists s',
    store 0 (OTensor3 emb_tok0) s0 = Ok (tt, s') /\
    heap s' !! 0%nat <> heap s0 !! 0%nat.
Proof. eexists. split; [reflexivity |]. cbn. discriminate. Qed.

Lemma advance_advance (n m : nat) (g : Generator) :
  advance m (advance n g) = advance (n + m) g.
Proof. unfold advance. cbn [sequence position]. f_equal. lia. Qed.

(** The run of the cell, step by step: the result and the final store. *)
Lemma run_cell_spec (h : list obj) (o : list (list shown)) (g : Generator)
    (pemb_pos pemb_tok : nat) (emb_pos : Tensor2 R) (emb_tok x : Tensor3 R)
    (B T C : nat) :
  h !! pemb_pos = Some (OTensor2 emb_pos) ->
  h !! pemb_tok = Some (OTensor3 emb_tok) ->
  add23 emb_pos emb_tok = Ok x -> shape3 x = (B, T, C) -> (0 < C)%nat ->
  let n := (head_size * C)%nat in
  exists out news,
    attention head_size (drawn g C) (drawn (advance n g) C)
      (drawn (advance (2 * n) g) C) x = Ok out /\
    run_cell pemb_pos pemb_tok
      {| heap := h; stdout := o; default_generator := g |} =
    Ok ({| ref_x := length h; ref_key := length h + 2;
           ref_query := length h + 4; ref_value := length h + 6;
           ref_k := length h + 7; ref_q := length h + 8;
           ref_W := length h + 16; ref_tril := length h + 13;
           ref_v := length h + 17; ref_out := length h + 18 |},
        {| heap := h ++ news; stdout := o ++ printed B T C head_size;
           default_generator := advance (3 * n) g |}) /\
    news !! 0%nat = Some (OTensor3 x) /\
    news !! 1%nat = Some (OTensor2 (mk2 head_size C (drawn g C))) /\
    news !! 2%nat = Some (OLinear C head_size (length h + 1)) /\
    news !! 3%nat = Some (OTensor2 (mk2 head_size C (drawn (advance n g) C))) /\
    news !! 4%nat = Some (OLinear C head_size (length h + 3)) /\
    news !! 5%nat
      = Some (OTensor2 (mk2 head_size C (drawn (advance (2 * n) g) C))) /\
    news !! 6%nat = Some (OLinear C head_size (length h + 5)) /\
    news !! 18%nat = Some (OTensor3 out).
Proof.
  intros Hpos Htok Hadd Hx HC n.
  replace (advance (2 * n) g) with (advance n (advance n g))
    by (rewrite advance_advance; f_equal; lia).
  replace (advance (3 * n) g) with (advance n (advance n (advance n g)))
    by (rewrite !advance_advance; f_equal; lia).
  subst n.
  set (key := nn_Linear C head_size (drawn g C)).
  set (query := nn_Linear C head_size (drawn (advance (head_size * C) g) C)).
  set (value := nn_Linear C head_size
                  (drawn (advance (head_size * C) (advance (head_size * C) g)) C)).
  destruct (scores_spec key query x B T C head_size Hx eq_refl eq_refl eq_refl
              eq_refl HC)
    as (k & q & Sc & Ek & Eq & Hsk & Hsq & ES & HSc & _).
  destruct (forward_spec key query value x B T C head_size Hx eq_refl eq_refl
              eq_refl eq_refl HC head_size eq_refl eq_refl)
    as (W & v & out & EW & Ev & _ & Eo & _).
  pose proof Eo as Eo0.
  unfold forward, weights, scores in Eo. rewrite Hx, Ek, Eq in Eo.
  cbn [mbind result_bind] in Eo.
  destruct (matmul q (transpose k)) as [W0 |] eqn:EW0; [| discriminate].
  cbn [mbind result_bind] in Eo. rewrite (pow_neg_half_pos C HC) in Eo.
  cbn [mbind result_bind] in Eo.
  destruct (masked_fill _ _ _) as [W1 |] eqn:EW1; [| discriminate].
  cbn [mbind result_bind] in Eo. rewrite Ev in Eo.
  cbn [mbind result_bind] in Eo.
  exists out. eexists. split.
  { unfold attention. rewrite Hx. exact Eo0. }
  subst key query value. unfold nn_Linear in Ek, Eq, Ev.
  unfold run_cell.
  run_load load_tensor2_ok. run_load load_tensor3_ok. run_lift Hadd.
  run_alloc. run_load load_tensor3_ok. rewrite Hx.
  rewrite bind_M, new_Linear_ok. cbv beta iota. norm.
  rewrite bind_M, new_Linear_ok. cbv beta iota. norm.
  rewrite bind_M, new_Linear_ok. cbv beta iota. norm.
  run_load load_linear_ok. run_load load_linear_ok. run_print.
  run_load load_linear_ok. run_load load_tensor3_ok.
  run_lift Ek. run_alloc.
  run_load load_linear_ok. run_load load_tensor3_ok.
  run_lift Eq. run_alloc.
  run_load load_tensor3_ok. run_load load_tensor3_ok. run_load load_tensor3_ok.
  run_print.
  run_load load_tensor3_ok. run_load load_tensor3_ok. run_alloc.
  run_load load_tensor3_ok. run_lift EW0. run_alloc.
  run_load load_tensor3_ok. run_lift (pow_neg_half_pos C HC). run_alloc.
  run_alloc. run_load load_tensor2_ok. run_alloc.
  run_load load_tensor3_ok. run_load load_tensor2_ok. run_alloc.
  run_load load_mask_ok. run_lift EW1. run_alloc.
  run_load load_tensorx_ok. run_alloc.
  run_load load_linear_ok. run_load load_tensor3_ok.
  run_lift Ev. run_alloc.
  run_load load_tensor3_ok. run_load load_tensor3_ok. run_lift Eo. run_alloc.
  cbn [show_linear in_features out_features]. rewrite Hx, Hsk, Hsq.
  split; [reflexivity |]. repeat split.
Qed.

(** C8, as stated, fails: the cell has effects.  From the store [s0] it runs
    to its end; two lines have been printed and the default generator has
    advanced by the 90 values of the three projections. *)
Lemma C8_cell_has_effects :
  exists r s',
    run_cell 0 1 s0 = Ok (r, s') /\
    stdout s' <> stdout s0 /\
    position (default_generator s') <> position (default_generator s0).
Proof.
  destruct (run_cell_spec (heap s0) (stdout s0) (default_generator s0) 0 1
              emb_pos0 emb_tok0 x0 4 4 5 eq_refl eq_refl eq_refl eq_refl
              ltac:(lia))
    as (out & news & _ & Erun & _).
  eexists _, _. split; [exact Erun |]. cbn [stdout default_generator]. split.
  - discriminate.
  - cbn. lia.
Qed.

(** C8, amended.  From a store in which [emb_pos] and [emb_tok] are tensors
    whose sum [x] has C > 0, the cell runs to its end, and: no object that
    existed before is changed; at the end [x] and the three projections
    are as they were created, the projections holding the weights drawn;
    two lines have been printed; the default generator has advanced by
    the [3 * head_size * C] values of the three projections; and [out] is
    the attention of [x] for the weights drawn, a function of [x] and of
    the three projection matrices alone. *)
Theorem C8_cell_effects (s : state) (pemb_pos pemb_tok : nat)
    (emb_pos : Tensor2 R) (emb_tok x : Tensor3 R) (B T C : nat) :
  heap s !! pemb_pos = Some (OTensor2 emb_pos) ->
  heap s !! pemb_tok = Some (OTensor3 emb_tok) ->
  add23 emb_pos emb_tok = Ok x -> shape3 x = (B, T, C) -> (0 < C)%nat ->
  exists r s' out,
    run_cell pemb_pos pemb_tok s = Ok (r, s') /\
    (forall p o, heap s !! p = Some o -> heap s' !! p = Some o) /\
    heap s' !! ref_x r = Some (OTensor3 x) /\
    load_linear (ref_key r) s'
      = Ok (nn_Linear C head_size (drawn (default_generator s) C), s') /\
    load_linear (ref_query r) s'
      = Ok (nn_Linear C head_size
              (drawn (advance (head_size * C) (default_generator s)) C), s') /\
    load_linear (ref_value r) s'
      = Ok (nn_Linear C head_size
              (drawn (advance (2 * (head_size * C)) (default_generator s)) C),
            s') /\
    stdout s' = stdout s ++ printed B T C head_size /\
    default_generator s' = advance (3 * (head_size * C)) (default_generator s) /\
    attention head_size (drawn (default_generator s) C)
      (drawn (advance (head_size * C) (default_generator s)) C)
      (drawn (advance (2 * (head_size * C)) (default_generator s)) C) x
      = Ok out /\
    heap s' !! ref_out r = Some (OTensor3 out).
Proof.
  intros Hpos Htok Hadd Hx HC. destruct s as [h o g].
  cbn [heap stdout default_generator] in *.
  destruct (run_cell_spec h o g pemb_pos pemb_tok emb_pos emb_tok x B T C
              Hpos Htok Hadd Hx HC)
    as (out & news & Eo & Erun & H0 & H1 & H2 & H3 & H4 & H5 & H6 & H18).
  eexists _, _, out. split; [exact Erun |].
  cbn [heap stdout default_generator ref_x ref_key ref_query ref_value ref_out].
  split; [intros p ob Hp; now apply lookup_app_l_Some |].
  split; [now apply lookup_new0 |].
  split; [apply (load_linear_ok _ _ _ (length h + 1)); cbn [heap];
          now apply lookup_new |].
  split; [apply (load_linear_ok _ _ _ (length h + 3)); cbn [heap];
          now apply lookup_new |].
  split; [apply (load_linear_ok _ _ _ (length h + 5)); cbn [heap];
          now apply lookup_new |].
  split; [reflexivity |]. split; [reflexivity |]. split; [exact Eo |].
  now apply lookup_new.
Qed.

End HeapFacts.

(** ** The theorems at concrete inputs *)

Section Instances.
Import Tokenizer Torch Attention Embed Notebook.
Local Open Scope R_scope.

(** C4 on a head created for input dimension 5: an input of last dimension
    3 raises, an input of shape (2, 4, 5) returns. *)
Lemma C4_failures_witness :
  let key := nn_Linear 5 head_size w_ones in
  configured key key key 5 head_size /\
  forward key key key (x_ones 2 4 3) = Raise RuntimeError /\
  exists out, forward key key key (x_ones 2 4 5) = Ok out.
Proof.
  intros key.
  assert (Hcfg : configured key key key 5 head_size) by now repeat split.
  split; [exact Hcfg |]. split.
  - apply (C4_failures key key key (x_ones 2 4 3) 2 4 3 5 head_size);
      [exact Hcfg | reflexivity | lia].
  - apply (C4_failures key key key (x_ones 2 4 5) 2 4 5 5 head_size);
      [exact Hcfg | reflexivity | reflexivity | lia].
Defined.

(** C5: an input of shape (2, 4, 5) with head size 6 gives an output of
    shape (2, 4, 6). *)
Lemma C5_output_shape_witness :
  shape3 (x_ones 2 4 5) = (2, 4, 5)%nat /\
  exists out,
    attention head_size w_ones w_ones w_ones (x_ones 2 4 5) = Ok out /\
    shape3 out = (2, 4, 6)%nat /\ wf3 out.
Proof.
  split; [reflexivity |].
  destruct (C5_output_shape head_size w_ones w_ones w_ones (x_ones 2 4 5)
              2 4 5 eq_refl) as [Hret Hshape].
  destruct Hret as [out Eo]; [lia |].
  exists out. split; [exact Eo | exact (Hshape out Eo)].
Defined.


(** C8 from the store [s0]. *)
Lemma C8_cell_effects_witness :
  heap s0 !! 0%nat = Some (OTensor2 emb_pos0) /\
  heap s0 !! 1%nat = Some (OTensor3 emb_tok0) /\
  add23 emb_pos0 emb_tok0 = Ok x0 /\ shape3 x0 = (4, 4, 5)%nat /\ (0 < 5)%nat /\
  exists r s' out,
    run_cell 0 1 s0 = Ok (r, s') /\
    (forall p o, heap s0 !! p = Some o -> heap s' !! p = Some o) /\
    heap s' !! ref_x r = Some (OTensor3 x0) /\
    stdout s' = printed 4 4 5 head_size /\
    position (default_generator s') = 90%nat /\
    heap s' !! ref_out r = Some (OTensor3 out).
Proof.
  split; [reflexivity |]. split; [reflexivity |]. split; [reflexivity |].
  split; [reflexivity |]. split; [lia |].
  destruct (C8_cell_effects s0 0 1 emb_pos0 emb_tok0 x0 4 4 5 eq_refl eq_refl
              eq_refl eq_refl ltac:(lia))
    as (r & s' & out & Erun & Hframe & Hx & _ & _ & _ & Hout & Hgen & Eo & Hpo).
  exists r, s', out. split; [exact Erun |]. split; [exact Hframe |].
  split; [exact Hx |]. split; [rewrite Hout; reflexivity |].
  split; [rewrite Hgen; reflexivity |]. exact Hpo.
Defined.

(** C9 on the text of the notebook. *)
Lemma C9_round_trip_witness :
  Forall (fun ch => ch ∈ vocab) (list_ascii_of_string text) /\
  exists t, encode text = Ok t /\ decode t = Ok (list_ascii_of_string text).
Proof.
  assert (Hin : Forall (fun ch => ch ∈ vocab) (list_ascii_of_string text)).
  { apply (bool_decide_unpack _). vm_compute. reflexivity. }
  split; [exact Hin |]. apply (proj1 C9_round_trip text Hin).
Defined.

(** C10 on the data of the notebook, for the draw 0, 1, 2, 19. *)
Lemma C10_get_batch_witness :
  randint_draw (ix_high data) block_size [0; 1; 2; 19]%nat /\
  exists x y,
    get_batch data [0; 1; 2; 19]%nat = Ok (x, y) /\
    length x = block_size /\ length y = block_size /\
    block_size = 4%nat /\ block_size <> batch_size /\
    Forall (fun r => length r = block_size) x /\
    Forall (fun r => length r = block_size) y /\
    forall n t, (n < block_size)%nat -> (t < block_size - 1)%nat ->
      nth t (nth n y []) 0%Z = nth (t + 1) (nth n x []) 0%Z.
Proof.
  assert (Hix : randint_draw (ix_high data) block_size [0; 1; 2; 19]%nat).
  { split; [reflexivity |]. repeat constructor. }
  split; [exact Hix |]. apply (C10_get_batch data _ Hix).
Defined.

End Instances.

(** * Further properties *)

(** ** The two dictionaries of the tokenizer *)

Section Dictionaries.
Import Tokenizer.

(** The characters, all 256 of them. *)
Lemma ascii_enumerated (ch : ascii) :
  In ch (map ascii_of_nat (seq 0 256)).
Proof.
  apply in_map_iff. exists (nat_of_ascii ch). split.
  - apply ascii_nat_embedding.
  - apply in_seq. pose proof (nat_ascii_bounded ch). lia.
Qed.

Lemma vocab_NoDup : NoDup vocab.
Proof. apply (bool_decide_unpack _). vm_compute. reflexivity. Qed.

Lemma vtoi_position (ch : ascii) (i : Z) :
  vtoi !! ch = Some i <-> (0 <= i)%Z /\ vocab !! Z.to_nat i = Some ch.
Proof.
  assert (Hall : forallb (fun c =>
            match vtoi !! c with
            | Some j => (0 <=? j)%Z &&
                        bool_decide (vocab !! Z.to_nat j = Some c)
            | None => bool_decide (c ∉ vocab)
            end) (map ascii_of_nat (seq 0 256)) = true)
    by (vm_compute; reflexivity).
  rewrite forallb_forall in Hall. specialize (Hall ch (ascii_enumerated ch)).
  split.
  - intros Hi. rewrite Hi in Hall. apply andb_true_iff in Hall as [H0 Hv].
    split; [now apply Z.leb_le | now apply bool_decide_eq_true in Hv].
  - intros [H0 Hv]. destruct (vtoi !! ch) as [j |] eqn:Hj.
    + apply andb_true_iff in Hall as [Hj0 Hv']. apply Z.leb_le in Hj0.
      apply bool_decide_eq_true in Hv'. f_equal.
      pose proof (NoDup_lookup vocab _ _ ch vocab_NoDup Hv Hv'). lia.
    + apply bool_decide_eq_true in Hall. exfalso. apply Hall.
      now apply list_elem_of_lookup_2 in Hv.
Qed.

Lemma itov_inverse (ch : ascii) (i : Z) :
  itov !! i = Some ch <-> vtoi !! ch = Some i.
Proof.
  split; intros Hl.
  - assert (Hall : forallb (fun p => bool_decide (vtoi !! p.2 = Some p.1))
                     (map_to_list itov) = true) by (vm_compute; reflexivity).
    rewrite forallb_forall in Hall.
    apply elem_of_map_to_list, list_elem_of_In, Hall in Hl.
    now apply bool_decide_eq_true in Hl.
  - assert (Hall : forallb (fun p => bool_decide (itov !! p.2 = Some p.1))
                     (map_to_list vtoi) = true) by (vm_compute; reflexivity).
    rewrite forallb_forall in Hall.
    apply elem_of_map_to_list, list_elem_of_In, Hall in Hl.
    now apply bool_decide_eq_true in Hl.
Qed.

(** X1.  The id of a character is its position in [vocab]: [vtoi] has
    [ch -> i] exactly when [vocab[i]] is [ch], and [itov] has [i -> ch]
    exactly when [vtoi] has [ch -> i]. *)
Theorem vocab_ids (ch : ascii) (i : Z) :
  (vtoi !! ch = Some i <-> (0 <= i)%Z /\ vocab !! Z.to_nat i = Some ch) /\
  (itov !! i = Some ch <-> vtoi !! ch = Some i).
Proof. split; [apply vtoi_position | apply itov_inverse]. Qed.

Lemma vocab_ids_witness :
  ((0 <= 32)%Z /\ vocab !! Z.to_nat 32 = Some "A"%char) /\
  vtoi !! "A"%char = Some 32%Z /\ itov !! 32%Z = Some "A"%char.
Proof.
  assert (Hpos : (0 <= 32)%Z /\ vocab !! Z.to_nat 32 = Some "A"%char)
    by (split; [lia | reflexivity]).
  split; [exact Hpos |].
  pose proof (proj2 (proj1 (vocab_ids "A" 32)) Hpos) as Hv.
  split; [exact Hv | exact (proj2 (proj2 (vocab_ids "A" 32)) Hv)].
Defined.

End Dictionaries.

(** ** [encode] and [decode] on every input *)

Section Codec.
Import Tokenizer.

Lemma comprehension_app {X Y} (f : X -> result Y) (l1 l2 : list X) :
  comprehension f (l1 ++ l2) =
  (a ← comprehension f l1; b ← comprehension f l2; Ok (a ++ b)).
Proof.
  induction l1 as [| a l1 IH]; cbn [app comprehension mbind result_bind].
  - now destruct (comprehension f l2).
  - destruct (f a) as [b | e]; cbn [mbind result_bind]; [| reflexivity].
    rewrite IH. destruct (comprehension f l1); cbn [mbind result_bind];
      [| reflexivity].
    now destruct (comprehension f l2).
Qed.

Lemma comprehension_inv {X Y} (f : X -> result Y) (l : list X) (bs : list Y) :
  comprehension f l = Ok bs -> Forall2 (fun a b => f a = Ok b) l bs.
Proof.
  revert bs. induction l as [| a l IH]; intros bs Hc; cbn [comprehension] in Hc.
  - injection Hc as <-. constructor.
  - destruct (f a) as [b |] eqn:Hb; cbn [mbind result_bind] in Hc;
      [| discriminate].
    destruct (comprehension f l) as [bs' |]; cbn [mbind result_bind] in Hc;
      [| discriminate].
    injection Hc as <-. constructor; [assumption | now apply IH].
Qed.

Lemma comprehension_all {X Y} (f : X -> result Y) (l : list X) (bs : list Y) :
  Forall2 (fun a b => f a = Ok b) l bs -> comprehension f l = Ok bs.
Proof.
  induction 1 as [| a b l bs Hab _ IH]; cbn [comprehension]; [reflexivity |].
  rewrite Hab. cbn [mbind result_bind]. now rewrite IH.
Qed.

(** The first failing element decides, when every failure is the same. *)
Lemma comprehension_raise {X Y} (f : X -> result Y) (l : list X) (e : exn) :
  (forall a e', f a = Raise e' -> e' = e) ->
  Exists (fun a => exists e', f a = Raise e') l ->
  comprehension f l = Raise e.
Proof.
  intros Hone. induction l as [| a l IH]; intros Hex;
    [now apply Exists_nil in Hex |].
  cbn [comprehension]. destruct (f a) as [b | e'] eqn:Hb;
    cbn [mbind result_bind].
  - apply Exists_cons in Hex as [[e' He'] | Hex]; [congruence |].
    now rewrite (IH Hex).
  - f_equal. now apply (Hone a).
Qed.

Lemma subscript_vtoi (ch : ascii) :
  (forall i, subscript vtoi ch = Ok i <->
             (0 <= i)%Z /\ vocab !! Z.to_nat i = Some ch) /\
  (ch ∉ vocab <-> subscript vtoi ch = Raise KeyError).
Proof.
  unfold subscript. split.
  - intros i. rewrite <- vtoi_position. destruct (vtoi !! ch); split; congruence.
  - split.
    + intros Hnot. destruct (vtoi !! ch) as [i |] eqn:Hi; [| reflexivity].
      apply vtoi_position in Hi as [_ Hi].
      exfalso. apply Hnot. now apply list_elem_of_lookup_2 in Hi.
    + intros Hr [n Hn]%list_elem_of_lookup_1.
      assert (Hi : vtoi !! ch = Some (Z.of_nat n))
        by (apply vtoi_position; rewrite Nat2Z.id; split; [lia | assumption]).
      rewrite Hi in Hr. discriminate.
Qed.

Lemma subscript_itov (i : Z) :
  (forall ch, subscript itov i = Ok ch <->
              (0 <= i)%Z /\ vocab !! Z.to_nat i = Some ch) /\
  (~ (0 <= i < Z.of_nat vocab_size)%Z <-> subscript itov i = Raise KeyError).
Proof.
  unfold subscript. split.
  - intros ch. rewrite <- vtoi_position, <- itov_inverse.
    destruct (itov !! i); split; congruence.
  - split.
    + intros Hnot. destruct (itov !! i) as [ch |] eqn:Hi; [| reflexivity].
      apply itov_inverse, vtoi_position in Hi as [H0 Hi].
      apply lookup_lt_Some in Hi. unfold vocab_size in Hnot. lia.
    + intros Hr [H0 Hlt]. unfold vocab_size in Hlt.
      destruct (lookup_lt_is_Some_2 vocab (Z.to_nat i)) as [ch Hch]; [lia |].
      assert (Hi : itov !! i = Some ch)
        by (apply itov_inverse, vtoi_position; now split).
      rewrite Hi in Hr. discriminate.
Qed.

Lemma chars_app (s1 s2 : string) :
  list_ascii_of_string (s1 ++ s2) =
  list_ascii_of_string s1 ++ list_ascii_of_string s2.
Proof. induction s1 as [| c s1 IH]; simpl; [reflexivity | now rewrite IH]. Qed.

(** X2.  [encode] on every string: when all its characters are in the
    vocabulary it returns one id for each character, the position of the
    character in [vocab], an id of [[0, vocab_size)]; when a character is
    not in the vocabulary it raises [KeyError]. *)
Theorem encode_outcome (s : string) :
  (Forall (fun ch => ch ∈ vocab) (list_ascii_of_string s) ->
   exists t,
     encode s = Ok t /\
     Forall2 (fun ch i => vocab !! Z.to_nat i = Some ch)
       (list_ascii_of_string s) t /\
     Forall (fun i => (0 <= i < Z.of_nat vocab_size)%Z) t) /\
  (Exists (fun ch => ch ∉ vocab) (list_ascii_of_string s) ->
   encode s = Raise KeyError).
Proof.
  unfold encode. split.
  - intros Hall.
    destruct (comprehension_round_trip (list_ascii_of_string s)) as (t & Et & _).
    { eapply Forall_impl; [exact Hall |]. intros ch. apply list_elem_of_In. }
    exists t. split; [exact Et |].
    apply comprehension_inv in Et.
    assert (Hpos : Forall2 (fun ch i => (0 <= i)%Z /\ vocab !! Z.to_nat i = Some ch)
                     (list_ascii_of_string s) t).
    { eapply Forall2_impl; [exact Et |]. intros ch i Hi.
      now apply (proj1 (subscript_vtoi ch)). }
    split.
    + eapply Forall2_impl; [exact Hpos |]. now intros ch i [_ Hi].
    + clear Et Hall. induction Hpos as [| ch i l t' [H0 Hi] _ IH];
        [constructor |]. constructor; [| exact IH].
      apply lookup_lt_Some in Hi. unfold vocab_size. lia.
  - intros Hex. apply comprehension_raise.
    + intros ch e He. unfold subscript in He.
      destruct (vtoi !! ch); congruence.
    + eapply Exists_impl; [exact Hex |]. intros ch Hch.
      exists KeyError. now apply (proj2 (subscript_vtoi ch)).
Qed.

Lemma encode_outcome_witness :
  (Forall (fun ch => ch ∈ vocab) (list_ascii_of_string "need") /\
   exists t,
     encode "need" = Ok t /\
     Forall2 (fun ch i => vocab !! Z.to_nat i = Some ch)
       (list_ascii_of_string "need") t /\
     Forall (fun i => (0 <= i < Z.of_nat vocab_size)%Z) t) /\
  (Exists (fun ch => ch ∉ vocab) (list_ascii_of_string (String "127" "a")) /\
   encode (String "127" "a") = Raise KeyError).
Proof.
  assert (Hin : Forall (fun ch => ch ∈ vocab) (list_ascii_of_string "need")).
  { apply (bool_decide_unpack _). vm_compute. reflexivity. }
  assert (Hex : Exists (fun ch => ch ∉ vocab)
                  (list_ascii_of_string (String "127" "a"))).
  { apply Exists_cons_hd. apply (bool_decide_unpack _). vm_compute. reflexivity. }
  split.
  - split; [exact Hin | exact (proj1 (encode_outcome _) Hin)].
  - split; [exact Hex | exact (proj2 (encode_outcome _) Hex)].
Defined.

(** X3.  [decode] on every list of ids: when all are in [[0, vocab_size)]
    it returns the characters at these positions of [vocab], and [encode]
    turns these characters back into the ids; when an id is outside
    [[0, vocab_size)] it raises [KeyError]. *)
Theorem decode_outcome (t : list Z) :
  (Forall (fun i => (0 <= i < Z.of_nat vocab_size)%Z) t ->
   exists l,
     decode t = Ok l /\
     Forall2 (fun i ch => vocab !! Z.to_nat i = Some ch) t l /\
     encode (string_of_list_ascii l) = Ok t) /\
  (Exists (fun i => ~ (0 <= i < Z.of_nat vocab_size)%Z) t ->
   decode t = Raise KeyError).
Proof.
  unfold decode, encode. split.
  - intros Hall.
    assert (Hl : exists l, Forall2 (fun i ch => subscript itov i = Ok ch) t l).
    { induction Hall as [| i t' Hi _ [l Hl]]; [exists []; constructor |].
      unfold vocab_size in Hi.
      destruct (lookup_lt_is_Some_2 vocab (Z.to_nat i)) as [ch Hch]; [lia |].
      exists (ch :: l). constructor; [| exact Hl].
      apply (proj1 (subscript_itov i)). split; [lia | exact Hch]. }
    destruct Hl as [l Hl]. exists l.
    split; [now apply comprehension_all |].
    assert (Hpos : Forall2 (fun i ch => (0 <= i)%Z /\ vocab !! Z.to_nat i = Some ch)
                     t l).
    { eapply Forall2_impl; [exact Hl |]. intros i ch Hi.
      now apply (proj1 (subscript_itov i)). }
    split.
    + eapply Forall2_impl; [exact Hpos |]. now intros i ch [_ Hi].
    + rewrite list_ascii_of_string_of_list_ascii. apply comprehension_all.
      apply Forall2_flip. eapply Forall2_impl; [exact Hpos |].
      intros i ch Hi. now apply (proj1 (subscript_vtoi ch)).
  - intros Hex. apply comprehension_raise.
    + intros i e He. unfold subscript in He. destruct (itov !! i); congruence.
    + eapply Exists_impl; [exact Hex |]. intros i Hi.
      exists KeyError. now apply (proj2 (subscript_itov i)).
Qed.

Lemma decode_outcome_witness :
  (Forall (fun i => (0 <= i < Z.of_nat vocab_size)%Z) [32; 0; 99]%Z /\
   exists l,
     decode [32; 0; 99]%Z = Ok l /\
     Forall2 (fun i ch => vocab !! Z.to_nat i = Some ch) [32; 0; 99]%Z l /\
     encode (string_of_list_ascii l) = Ok [32; 0; 99]%Z) /\
  (Exists (fun i => ~ (0 <= i < Z.of_nat vocab_size)%Z) [32; 100]%Z /\
   decode [32; 100]%Z = Raise KeyError).
Proof.
  assert (Hin : Forall (fun i => (0 <= i < Z.of_nat vocab_size)%Z) [32; 0; 99]%Z)
    by (repeat constructor; vm_compute; congruence).
  assert (Hout : Exists (fun i => ~ (0 <= i < Z.of_nat vocab_size)%Z) [32; 100]%Z).
  { apply Exists_cons_tl, Exists_cons_hd. intros [_ Hlt]. vm_compute in Hlt.
    discriminate. }
  split.
  - split; [exact Hin | exact (proj1 (decode_outcome _) Hin)].
  - split; [exact Hout | exact (proj2 (decode_outcome _) Hout)].
Defined.

(** X4.  [encode] of a concatenation is the concatenation of the two
    encodings, the first exception winning. *)
Theorem encode_app (s1 s2 : string) :
  encode (s1 ++ s2) = (a ← encode s1; b ← encode s2; Ok (a ++ b)).
Proof. unfold encode. rewrite chars_app. apply comprehension_app. Qed.

(** X5.  [encode] is injective: two strings with the same ids are the same
    string. *)
Theorem encode_injective (s s' : string) (t : list Z) :
  encode s = Ok t -> encode s' = Ok t -> s = s'.
Proof.
  unfold encode. intros Hs%comprehension_inv Hs'%comprehension_inv.
  rewrite <- (string_of_list_ascii_of_string s),
          <- (string_of_list_ascii_of_string s').
  f_equal. revert Hs'. generalize (list_ascii_of_string s').
  induction Hs as [| ch i l t' Hi _ IH]; intros l' Hl'; inversion Hl'; subst;
    [reflexivity |].
  f_equal; [| now apply IH].
  match goal with H : subscript vtoi ?c = Ok i |- _ =>
    apply (proj1 (subscript_vtoi c)) in H as [_ Hc] end.
  apply (proj1 (subscript_vtoi ch)) in Hi as [_ Hi]. congruence.
Qed.

Lemma encode_injective_witness :
  encode "need" = Ok [19; 10; 10; 9]%Z /\
  forall s', encode s' = Ok [19; 10; 10; 9]%Z -> "need"%string = s'.
Proof.
  assert (He : encode "need" = Ok [19; 10; 10; 9]%Z) by (vm_compute; reflexivity).
  split; [exact He |]. intros s' Hs'. exact (encode_injective _ _ _ He Hs').
Defined.

End Codec.

(** ** The windows of [get_batch] *)

Section Windows.
Import Tokenizer.

Lemma get_batch_ok (data : list Z) (ix : list nat) :
  randint_draw (ix_high data) block_size ix ->
  get_batch data ix =
  Ok (map (fun i => slice data i (i + block_size)) ix,
      map (fun i => slice data (i + 1) (i + block_size + 1)) ix).
Proof.
  intros [Hlen Hix]. unfold ix_high, block_size in *.
  assert (Hne : ix <> []) by (intros ->; discriminate).
  unfold get_batch, block_size.
  rewrite (stack_ok (map (fun i => slice data i (i + 4)) ix) 4),
          (stack_ok (map (fun i => slice data (i + 1) (i + 4 + 1)) ix) 4);
    try (destruct ix; [contradiction | discriminate]);
    try (apply Forall_map; eapply Forall_impl; [exact Hix |];
         intros i Hi; cbn beta in *; rewrite length_slice; lia).
  reflexivity.
Qed.

(** X6.  For every draw [ix], row [n] of [x] is the window of [block_size]
    elements of [data] that starts at [ix[n]], and row [n] of [y] the
    window that starts one element later; no window reaches the last
    element of [data], which is in no batch. *)
Theorem get_batch_windows (data : list Z) (ix : list nat) :
  randint_draw (ix_high data) block_size ix ->
  exists x y,
    get_batch data ix = Ok (x, y) /\
    forall n t, n < block_size -> t < block_size ->
      nth t (nth n x []) 0%Z = nth (nth n ix 0 + t) data 0%Z /\
      nth t (nth n y []) 0%Z = nth (nth n ix 0 + t + 1) data 0%Z /\
      nth n ix 0 + t + 1 < length data - 1.
Proof.
  intros Hdraw. eexists _, _. split; [now apply get_batch_ok |].
  destruct Hdraw as [Hlen Hix]. unfold ix_high, block_size in *.
  intros n t Hn Ht. rewrite <- Hlen in Hn.
  rewrite !(nth_map_lt _ ix n [] 0) by assumption.
  rewrite !nth_slice by lia.
  rewrite Forall_forall in Hix.
  assert (Hi : (Z.of_nat (nth n ix 0%nat) < Z.of_nat (length data) - 4 - 1)%Z)
    by (apply Hix, list_elem_of_In, nth_In; assumption).
  repeat split; [f_equal; lia | lia].
Qed.

Lemma get_batch_windows_witness :
  randint_draw (ix_high data) block_size [0; 1; 2; 19] /\
  exists x y,
    get_batch data [0; 1; 2; 19] = Ok (x, y) /\
    forall n t, n < block_size -> t < block_size ->
      nth t (nth n x []) 0%Z = nth (nth n [0; 1; 2; 19] 0 + t) data 0%Z /\
      nth t (nth n y []) 0%Z = nth (nth n [0; 1; 2; 19] 0 + t + 1) data 0%Z /\
      nth n [0; 1; 2; 19] 0 + t + 1 < length data - 1.
Proof.
  assert (Hix : randint_draw (ix_high data) block_size [0; 1; 2; 19]).
  { split; [reflexivity |]. repeat constructor. }
  split; [exact Hix | exact (get_batch_windows data _ Hix)].
Defined.

End Windows.

(** ** From the batch to the input of the head *)

Section Embedding.
Import Tokenizer Torch Attention Embed.
Local Open Scope R_scope.

Lemma slice_Forall {X} (P : X -> Prop) (l : list X) (a b : nat) :
  Forall P l -> Forall P (slice l a b).
Proof. intros Hl. unfold slice. now apply Forall_take, Forall_drop. Qed.

Lemma in_table_spec (e : Embedding) (i : Z) :
  in_table e i = true <-> (0 <= i < Z.of_nat (num_embeddings e))%Z.
Proof. unfold in_table. rewrite andb_true_iff, Z.leb_le, Z.ltb_lt. tauto. Qed.

Lemma arange_in_table (e : Embedding) (n : nat) :
  (n <= num_embeddings e)%nat -> forallb (in_table e) (arange n) = true.
Proof.
  intros Hn. apply forallb_forall. intros i Hi. unfold arange in Hi.
  apply in_map_iff in Hi as (k & <- & Hk). apply in_seq in Hk.
  apply in_table_spec. lia.
Qed.

Lemma nth_arange (n t : nat) : (t < n)%nat -> nth t (arange n) 0%Z = Z.of_nat t.
Proof.
  intros Ht. unfold arange.
  rewrite (nth_map_lt Z.of_nat (seq 0 n) t 0%Z 0%nat) by now rewrite length_seq.
  now rewrite seq_nth.
Qed.

(** The embedding of a batch, entry by entry, from the ids of the batch. *)
Lemma embed_spec (tok pos : nat -> nat -> R) (data : list Z) (ix : list nat) :
  Forall (fun i => (0 <= i < Z.of_nat vocab_size)%Z) data ->
  randint_draw (ix_high data) block_size ix ->
  exists x,
    embed tok pos data ix = Return x /\
    shape3 x = (block_size, block_size, n_embd) /\ wf3 x /\
    forall b t c, (b < block_size)%nat -> (t < block_size)%nat ->
      (c < n_embd)%nat ->
      get3 x b t c =
      get2 (mk2 block_size n_embd pos) t c +
      get2 (mk2 vocab_size n_embd tok)
        (Z.to_nat (nth t (slice data (nth b ix 0%nat)
                            (nth b ix 0%nat + block_size)) 0%Z)) c.
Proof.
  intros Hdata Hdraw. unfold embed. rewrite (get_batch_ok data ix Hdraw).
  cbn [of_result mbind outcome_bind fst].
  destruct Hdraw as [Hlen Hix]. unfold ix_high, block_size in *.
  set (rows := map (fun i => slice data i (i + 4)) ix).
  assert (Hrows : Forall (fun r => length r = 4%nat) rows).
  { unfold rows. apply Forall_map. eapply Forall_impl; [exact Hix |].
    intros i Hi. cbn beta in *. rewrite length_slice; lia. }
  assert (Hshape : shape2 (stacked rows) = (4, 4)%nat).
  { unfold stacked. cbn [shape2]. unfold rows at 1. rewrite length_map, Hlen.
    f_equal. unfold rows in *. destruct ix as [| i0 ix']; [discriminate |].
    cbn [map hd] in *. now inversion Hrows. }
  rewrite Hshape. unfold lookup2. rewrite Hshape.
  replace (forallb _ (data2 (stacked rows))) with true.
  2:{ symmetry. apply forallb_forall. intros r Hr. apply forallb_forall.
      intros i Hi. apply in_table_spec. cbn [num_embeddings nn_Embedding].
      unfold stacked, rows in Hr. cbn [data2] in Hr.
      apply in_map_iff in Hr as (i0 & <- & _).
      pose proof (slice_Forall _ data i0 (i0 + 4) Hdata) as Hs.
      rewrite Forall_forall in Hs. now apply Hs, list_elem_of_In. }
  cbn [mbind outcome_bind]. unfold lookup1.
  rewrite arange_in_table by (cbn; lia).
  cbn [mbind outcome_bind]. unfold add23.
  cbn [shape2 shape3 mk2 mk3 embedding_dim nn_Embedding].
  replace (length (arange 4)) with 4%nat by reflexivity.
  cbn [bdim Nat.eqb n_embd of_result].
  eexists. split; [reflexivity |]. split; [reflexivity |].
  split; [apply wf3_mk3 |].
  intros b t c Hb Ht Hc. unfold n_embd in Hc.
  rewrite get3_mk3, !bindex_lt by (assumption || lia).
  rewrite (get2_mk2 4 5), get3_mk3 by (assumption || lia).
  rewrite nth_arange, Nat2Z.id by assumption.
  cbn [table nn_Embedding]. do 3 f_equal.
  unfold get2, stacked, rows. cbn [data2].
  rewrite (nth_map_lt _ ix b [] 0%nat) by lia.
  apply nth_indep.
  rewrite Forall_forall in Hix.
  assert (Hi : (Z.of_nat (nth b ix 0%nat) < Z.of_nat (length data) - 4 - 1)%Z)
    by (apply Hix, list_elem_of_In, nth_In; lia).
  rewrite length_slice; lia.
Qed.

Lemma text_enc_data : encode text = Ok data.
Proof. vm_compute. reflexivity. Qed.

Lemma text_dec_text : decode data = Ok (list_ascii_of_string text).
Proof. vm_compute. reflexivity. Qed.

Lemma data_in_table : Forall (fun i => (0 <= i < Z.of_nat vocab_size)%Z) data.
Proof. apply (bool_decide_unpack _). vm_compute. reflexivity. Qed.

(** X7.  For ids that are all in [[0, vocab_size)] and every draw [ix], the
    embedding of the batch raises nothing, no lookup leaving its table, and
    gives an input [x] of shape (block_size, block_size, n_embd) with
    [x[b, t, :]] the sum of row [t] of the position table and of the row
    of the token table for the id at [data[ix[b] + t]]. *)
Theorem embed_input (tok pos : nat -> nat -> R) (data : list Z)
    (ix : list nat) :
  Forall (fun i => (0 <= i < Z.of_nat vocab_size)%Z) data ->
  randint_draw (ix_high data) block_size ix ->
  exists x,
    embed tok pos data ix = Return x /\
    shape3 x = (block_size, block_size, n_embd) /\ wf3 x /\
    forall b t c, (b < block_size)%nat -> (t < block_size)%nat ->
      (c < n_embd)%nat ->
      get3 x b t c =
      pos t c + tok (Z.to_nat (nth (nth b ix 0%nat + t) data 0%Z)) c.
Proof.
  intros Hdata Hdraw.
  destruct (embed_spec tok pos data ix Hdata Hdraw) as (x & Ex & Hs & Hwf & Hx).
  exists x. repeat (split; [assumption |]).
  intros b t c Hb Ht Hc. rewrite (Hx b t c Hb Ht Hc).
  destruct Hdraw as [Hlen Hix]. unfold ix_high, block_size, n_embd in *.
  rewrite Forall_forall in Hix. rewrite Forall_forall in Hdata.
  assert (Hi : (Z.of_nat (nth b ix 0%nat) < Z.of_nat (length data) - 4 - 1)%Z)
    by (apply Hix, list_elem_of_In, nth_In; lia).
  assert (Hd : (0 <= nth (nth b ix 0%nat + t) data 0 < Z.of_nat vocab_size)%Z)
    by (apply Hdata, list_elem_of_In, nth_In; lia).
  rewrite nth_slice by lia.
  rewrite !get2_mk2; [reflexivity | | assumption | assumption | assumption].
  lia.
Qed.

Lemma embed_input_witness :
  Forall (fun i => (0 <= i < Z.of_nat vocab_size)%Z) Tokenizer.data /\
  randint_draw (ix_high Tokenizer.data) block_size [0; 1; 2; 19]%nat /\
  exists x,
    embed w_ones w_ones Tokenizer.data [0; 1; 2; 19]%nat = Return x /\
    shape3 x = (block_size, block_size, n_embd) /\ wf3 x /\
    forall b t c, (b < block_size)%nat -> (t < block_size)%nat ->
      (c < n_embd)%nat ->
      get3 x b t c =
      w_ones t c +
      w_ones (Z.to_nat (nth (nth b [0; 1; 2; 19]%nat 0%nat + t)
                          Tokenizer.data 0%Z)) c.
Proof.
  assert (Hix : randint_draw (ix_high Tokenizer.data) block_size [0; 1; 2; 19]%nat).
  { split; [reflexivity |]. repeat constructor. }
  split; [exact data_in_table |]. split; [exact Hix |].
  exact (embed_input w_ones w_ones Tokenizer.data _ data_in_table Hix).
Defined.

(** X8.  The two cells run to the end for every draw of the tables, of the
    projection weights and of the batch: nothing is raised, and [out] has
    shape (block_size, block_size, head_size) = (4, 4, 6). *)
Theorem notebook_runs (tok pos rk rq rv : nat -> nat -> R) (ix : list nat) :
  randint_draw (ix_high Tokenizer.data) block_size ix ->
  exists out,
    notebook tok pos rk rq rv ix = Return out /\
    shape3 out = (4, 4, 6)%nat /\ wf3 out.
Proof.
  intros Hdraw.
  destruct (embed_spec tok pos Tokenizer.data ix data_in_table Hdraw)
    as (x & Ex & Hx & _).
  destruct (forward_spec (nn_Linear n_embd head_size rk)
              (nn_Linear n_embd head_size rq) (nn_Linear n_embd head_size rv)
              x block_size block_size n_embd head_size
              Hx eq_refl eq_refl eq_refl eq_refl ltac:(unfold n_embd; lia)
              head_size eq_refl eq_refl)
    as (W & v & out & _ & _ & _ & Eo & Hs & Hwf & _).
  exists out. unfold notebook.
  rewrite text_enc_data. cbn [of_result mbind outcome_bind].
  rewrite text_dec_text. cbn [of_result mbind outcome_bind].
  rewrite Ex. cbn [of_result mbind outcome_bind].
  unfold attention. rewrite Hx, Eo. now repeat split.
Qed.

Lemma notebook_runs_witness :
  randint_draw (ix_high Tokenizer.data) block_size [0; 1; 2; 19]%nat /\
  exists out,
    notebook w_ones w_ones w_ones w_ones w_ones [0; 1; 2; 19]%nat = Return out /\
    shape3 out = (4, 4, 6)%nat /\ wf3 out.
Proof.
  assert (Hix : randint_draw (ix_high Tokenizer.data) block_size [0; 1; 2; 19]%nat).
  { split; [reflexivity |]. repeat constructor. }
  split; [exact Hix |].
  exact (notebook_runs w_ones w_ones w_ones w_ones w_ones _ Hix).
Defined.

End Embedding.

(** ** The head in formulas *)

Section HeadFormulas.
Import Torch Attention.
Local Open Scope R_scope.

Lemma rsum_plus (n : nat) (f g : nat -> R) :
  rsum n (fun i => f i + g i) = rsum n f + rsum n g.
Proof. induction n as [| n IH]; simpl; [lra | rewrite IH; lra]. Qed.

Lemma rsum_scal_l (n : nat) (f : nat -> R) (c : R) :
  rsum n (fun i => c * f i) = c * rsum n f.
Proof. induction n as [| n IH]; simpl; [lra | rewrite IH; lra]. Qed.

Lemma rsum_const (n : nat) (c : R) : rsum n (fun _ => c) = INR n * c.
Proof.
  induction n as [| n IH]; [simpl; lra |].
  rewrite S_INR. simpl. rewrite IH. lra.
Qed.

Lemma rsum_le (n : nat) (f g : nat -> R) :
  (forall i, (i < n)%nat -> f i <= g i) -> rsum n f <= rsum n g.
Proof.
  induction n as [| n IH]; intros Hfg; simpl; [lra |].
  assert (rsum n f <= rsum n g) by (apply IH; intros; apply Hfg; lia).
  assert (f n <= g n) by (apply Hfg; lia). lra.
Qed.

(** The sum of the masked row is the sum over the visible prefix. *)
Lemma masked_exp_prefix (Sc : Tensor3 R) (b i T : nat) :
  (i < T)%nat ->
  rsum T (masked_exp Sc b i) = rsum (S i) (fun j => exp (get3 Sc b i j)).
Proof.
  intros Hi. rewrite (rsum_prefix (S i) T).
  2: lia.
  2:{ intros j Hj. unfold masked_exp.
      destruct (Nat.leb_spec j i); [lia | reflexivity]. }
  apply rsum_ext. intros j Hj. unfold masked_exp.
  destruct (Nat.leb_spec j i); [reflexivity | lia].
Qed.

Variables (key query value : Linear) (x : Tensor3 R) (B T C H Hv : nat).
Hypothesis Hx : shape3 x = (B, T, C).
Hypothesis Hkin : in_features key = C.
Hypothesis Hqin : in_features query = C.
Hypothesis Hvin : in_features value = C.
Hypothesis Hkout : out_features key = H.
Hypothesis Hqout : out_features query = H.
Hypothesis Hvout : out_features value = Hv.
Hypothesis HC : (0 < C)%nat.

(** Every tensor of the cell, entry by entry. *)
Lemma forward_formulas :
  exists k q v Sc W out,
    call key x = Ok k /\ call query x = Ok q /\ call value x = Ok v /\
    scores key query x = Ok Sc /\ weights key query x = Ok W /\
    forward key query value x = Ok out /\
    (forall b t h, (b < B)%nat -> (t < T)%nat -> (h < H)%nat ->
       get3 k b t h = rsum C (fun c => get3 x b t c * get2 (weight key) h c) /\
       get3 q b t h = rsum C (fun c => get3 x b t c * get2 (weight query) h c)) /\
    (forall b t h, (b < B)%nat -> (t < T)%nat -> (h < Hv)%nat ->
       get3 v b t h = rsum C (fun c => get3 x b t c * get2 (weight value) h c)) /\
    (forall b i j, (b < B)%nat -> (i < T)%nat -> (j < T)%nat ->
       get3 Sc b i j =
       rsum H (fun h => get3 q b i h * get3 k b j h) * Rpower (INR C) (-0.5)) /\
    (forall b i j, (b < B)%nat -> (i < T)%nat -> (j < T)%nat ->
       get3 W b i j =
       if (j <=? i)%nat
       then exp (get3 Sc b i j) / rsum (S i) (fun j' => exp (get3 Sc b i j'))
       else 0) /\
    (forall b i h, (b < B)%nat -> (i < T)%nat -> (h < Hv)%nat ->
       get3 out b i h = rsum (S i) (fun j => get3 W b i j * get3 v b j h)).
Proof.
  destruct (scores_spec key query x B T C H Hx Hkin Hqin Hkout Hqout HC)
    as (k & q & Sc & Ek & Eq & _ & _ & ES & _ & HSc).
  destruct (weights_spec key query x B T C H Hx Hkin Hqin Hkout Hqout HC)
    as (Sc' & W & ES' & EW & _ & HW).
  destruct (forward_spec key query value x B T C H Hx Hkin Hqin Hkout Hqout HC
              Hv Hvin Hvout)
    as (W' & v & out & EW' & Ev & _ & Eo & _ & _ & Hout).
  assert (Sc' = Sc) as -> by congruence. assert (W' = W) as -> by congruence.
  exists k, q, v, Sc, W, out. repeat (split; [assumption |]).
  pose proof (call_ok key x B T C Hx Hkin) as Ek'.
  pose proof (call_ok query x B T C Hx Hqin) as Eq'.
  pose proof (call_ok value x B T C Hx Hvin) as Ev'.
  rewrite Hkout in Ek'. rewrite Hqout in Eq'. rewrite Hvout in Ev'.
  assert (Hk : k = mk3 B T H (fun b t h =>
            rsum C (fun c => get3 x b t c * get2 (weight key) h c)))
    by congruence.
  assert (Hq : q = mk3 B T H (fun b t h =>
            rsum C (fun c => get3 x b t c * get2 (weight query) h c)))
    by congruence.
  assert (Hvv : v = mk3 B T Hv (fun b t h =>
            rsum C (fun c => get3 x b t c * get2 (weight value) h c)))
    by congruence.
  assert (HWz : forall b i j, (b < B)%nat -> (i < T)%nat -> (j < T)%nat ->
            get3 W b i j =
            if (j <=? i)%nat
            then exp (get3 Sc b i j) / rsum (S i) (fun j' => exp (get3 Sc b i j'))
            else 0).
  { intros b i j Hb Hi Hj. rewrite HW, masked_exp_prefix by assumption.
    unfold masked_exp. destruct (j <=? i)%nat; [reflexivity |].
    unfold Rdiv. lra. }
  split; [| split; [| split; [exact HSc | split; [exact HWz |]]]].
  - intros b t h Hb Ht Hh. rewrite Hk, Hq. now rewrite !get3_mk3.
  - intros b t h Hb Ht Hh. rewrite Hvv. now rewrite get3_mk3.
  - intros b i h Hb Hi Hh. rewrite Hout by assumption.
    apply rsum_prefix; [lia |]. intros j Hj. rewrite HWz by (assumption || lia).
    destruct (Nat.leb_spec j i); [lia | lra].
Qed.

End HeadFormulas.

(** ** More on the head *)

Section HeadMore.
Import Torch Attention.
Local Open Scope R_scope.

Lemma rsum_ge_term (n k : nat) (f : nat -> R) :
  (k < n)%nat -> (forall i, (i < n)%nat -> 0 <= f i) -> f k <= rsum n f.
Proof.
  induction n as [| n IH]; intros Hk Hf; [lia |]. simpl.
  assert (0 <= f n) by (apply Hf; lia).
  assert (0 <= rsum n f) by (apply rsum_nonneg; intros; apply Hf; lia).
  destruct (Nat.eq_dec k n) as [-> | Hne]; [lra |].
  assert (f k <= rsum n f) by (apply IH; [lia | intros; apply Hf; lia]). lra.
Qed.

Lemma get2_nn_Linear (C hs h c : nat) (r : nat -> nat -> R) :
  (h < hs)%nat -> (c < C)%nat -> get2 (weight (nn_Linear C hs r)) h c = r h c.
Proof. intros Hh Hc. unfold nn_Linear. cbn [weight]. now apply get2_mk2. Qed.

Variables (hs : nat) (rk rq rv : nat -> nat -> R).
Variables (x : Tensor3 R) (B T C : nat).
Hypothesis Hx : shape3 x = (B, T, C).
Hypothesis HC : (0 < C)%nat.

Abbreviation key := (nn_Linear C hs rk).
Abbreviation query := (nn_Linear C hs rq).
Abbreviation value := (nn_Linear C hs rv).

(** The formulas of the cell, for the projections it creates, in terms of
    the input and of the drawn weights. *)
Lemma cell_formulas :
  exists k q v Sc W out,
    call key x = Ok k /\ call query x = Ok q /\ call value x = Ok v /\
    scores key query x = Ok Sc /\ weights key query x = Ok W /\
    attention hs rk rq rv x = Ok out /\
    (forall b t h, (b < B)%nat -> (t < T)%nat -> (h < hs)%nat ->
       get3 k b t h = rsum C (fun c => get3 x b t c * rk h c) /\
       get3 q b t h = rsum C (fun c => get3 x b t c * rq h c) /\
       get3 v b t h = rsum C (fun c => get3 x b t c * rv h c)) /\
    (forall b i j, (b < B)%nat -> (i < T)%nat -> (j < T)%nat ->
       get3 Sc b i j =
       rsum hs (fun h => get3 q b i h * get3 k b j h) * Rpower (INR C) (-0.5)) /\
    (forall b i j, (b < B)%nat -> (i < T)%nat -> (j < T)%nat ->
       get3 W b i j =
       if (j <=? i)%nat
       then exp (get3 Sc b i j) / rsum (S i) (fun j' => exp (get3 Sc b i j'))
       else 0) /\
    (forall b i h, (b < B)%nat -> (i < T)%nat -> (h < hs)%nat ->
       get3 out b i h = rsum (S i) (fun j => get3 W b i j * get3 v b j h)).
Proof.
  destruct (forward_formulas key query value x B T C hs hs
              Hx eq_refl eq_refl eq_refl eq_refl eq_refl eq_refl HC)
    as (k & q & v & Sc & W & out & Ek & Eq & Ev & ES & EW & Eo
        & Hkq & Hv & HSc & HW & Hout).
  exists k, q, v, Sc, W, out. repeat (split; [assumption |]).
  split; [unfold attention; now rewrite Hx |].
  split; [| now repeat split].
  intros b t h Hb Ht Hh.
  destruct (Hkq b t h Hb Ht Hh) as [Hk Hq]. rewrite Hk, Hq, (Hv b t h Hb Ht Hh).
  repeat split; apply rsum_ext; intros c Hc; now rewrite get2_nn_Linear.
Qed.

End HeadMore.

(** ** The scores in terms of the input, and when the head raises *)

Section HeadPairs.
Import Torch Attention.
Local Open Scope R_scope.

(** X9.  The score before the mask, in terms of the input and of the drawn
    weights: the dot product of the query row of position [i] and of the
    key row of position [j], times [C ** -0.5] for the input dimension
    [C]. *)
Theorem scores_formula (hs : nat) (rk rq : nat -> nat -> R)
    (x : Tensor3 R) (B T C : nat) :
  shape3 x = (B, T, C) -> (0 < C)%nat ->
  exists Sc,
    scores (nn_Linear C hs rk) (nn_Linear C hs rq) x = Ok Sc /\
    forall b i j, (b < B)%nat -> (i < T)%nat -> (j < T)%nat ->
      get3 Sc b i j =
      rsum hs (fun h => rsum C (fun c => get3 x b i c * rq h c) *
                        rsum C (fun c => get3 x b j c * rk h c))
      * Rpower (INR C) (-0.5).
Proof.
  intros Hx HC.
  destruct (cell_formulas hs rk rq rk x B T C Hx HC)
    as (k & q & v & Sc & W & out & _ & _ & _ & ES & _ & _ & Hkqv & HSc & _).
  exists Sc. split; [exact ES |]. intros b i j Hb Hi Hj.
  rewrite HSc by assumption. f_equal. apply rsum_ext. intros h Hh.
  destruct (Hkqv b i h Hb Hi Hh) as (_ & -> & _).
  now destruct (Hkqv b j h Hb Hj Hh) as (-> & _).
Qed.

Lemma attention_zero_dim (hs : nat) (rk rq rv : nat -> nat -> R)
    (x : Tensor3 R) (B T : nat) :
  shape3 x = (B, T, 0%nat) ->
  attention hs rk rq rv x = Raise ZeroDivisionError.
Proof.
  intros Hx. unfold attention, forward, weights, scores. rewrite Hx.
  rewrite (call_ok (nn_Linear 0 hs rk) x B T 0 Hx eq_refl),
          (call_ok (nn_Linear 0 hs rq) x B T 0 Hx eq_refl).
  cbn [mbind result_bind out_features nn_Linear].
  erewrite matmul_ok; [| reflexivity | reflexivity]. reflexivity.
Qed.

(** X14.  The cell raises one exception only: [ZeroDivisionError], from
    [C ** -0.5], exactly when the input has last dimension 0. *)
Theorem attention_raises (hs : nat) (rk rq rv : nat -> nat -> R)
    (x : Tensor3 R) (B T C : nat) :
  shape3 x = (B, T, C) ->
  forall e, attention hs rk rq rv x = Raise e <->
            C = 0%nat /\ e = ZeroDivisionError.
Proof.
  intros Hx e. destruct C as [| C'].
  - rewrite (attention_zero_dim hs rk rq rv x B T Hx). split.
    + intros He. split; congruence.
    + now intros [_ ->].
  - destruct (cell_formulas hs rk rq rv x B T (S C') Hx ltac:(lia))
      as (k & q & v & Sc & W & out & _ & _ & _ & _ & _ & Eo & _).
    rewrite Eo. split; [discriminate | intros [? _]; discriminate].
Qed.

End HeadPairs.

(** ** The further theorems at concrete inputs *)

Section MoreInstances.
Import Torch Attention.
Local Open Scope R_scope.

Lemma scores_formula_witness :
  shape3 (x_ones 2 4 5) = (2, 4, 5)%nat /\ (0 < 5)%nat /\
  exists Sc,
    scores (nn_Linear 5 head_size w_ones) (nn_Linear 5 head_size w_ones)
      (x_ones 2 4 5) = Ok Sc /\
    forall b i j, (b < 2)%nat -> (i < 4)%nat -> (j < 4)%nat ->
      get3 Sc b i j =
      rsum head_size
        (fun h => rsum 5 (fun c => get3 (x_ones 2 4 5) b i c * w_ones h c) *
                  rsum 5 (fun c => get3 (x_ones 2 4 5) b j c * w_ones h c))
      * Rpower (INR 5) (-0.5).
Proof.
  split; [reflexivity |]. split; [lia |].
  apply (scores_formula head_size w_ones w_ones (x_ones 2 4 5) 2 4 5);
    [reflexivity | lia].
Defined.

Lemma attention_raises_witness :
  shape3 (x_ones 2 4 0) = (2, 4, 0)%nat /\
  attention head_size w_ones w_ones w_ones (x_ones 2 4 0)
  = Raise ZeroDivisionError.
Proof.
  split; [reflexivity |].
  apply (proj2 (attention_raises head_size w_ones w_ones w_ones (x_ones 2 4 0)
                  2 4 0 eq_refl ZeroDivisionError)).
  split; reflexivity.
Defined.

End MoreInstances.

(** ** The cell run twice *)

Section Rerun.
Import Torch Attention Embed Notebook.
Local Open Scope R_scope.

(** X17.  A second run of the cell, from the store the first run leaves,
    makes the same input [x] of the same embeddings and draws the next
    [3 * head_size * C] values of the generator for its projections: its
    output is the attention of [x] for these other weights.  The objects
    of the first run are still there, unchanged. *)
Theorem rerun_draws_again (s : state) (pemb_pos pemb_tok : nat)
    (emb_pos : Tensor2 R) (emb_tok x : Tensor3 R) (B T C : nat) :
  heap s !! pemb_pos = Some (OTensor2 emb_pos) ->
  heap s !! pemb_tok = Some (OTensor3 emb_tok) ->
  add23 emb_pos emb_tok = Ok x -> shape3 x = (B, T, C) -> (0 < C)%nat ->
  exists r s' out r' s'' out',
    run_cell pemb_pos pemb_tok s = Ok (r, s') /\
    run_cell pemb_pos pemb_tok s' = Ok (r', s'') /\
    heap s'' !! ref_x r = Some (OTensor3 x) /\
    heap s'' !! ref_x r' = Some (OTensor3 x) /\
    heap s'' !! ref_out r = Some (OTensor3 out) /\
    heap s'' !! ref_out r' = Some (OTensor3 out') /\
    attention head_size (drawn (default_generator s) C)
      (drawn (advance (head_size * C) (default_generator s)) C)
      (drawn (advance (2 * (head_size * C)) (default_generator s)) C) x
      = Ok out /\
    attention head_size
      (drawn (advance (3 * (head_size * C)) (default_generator s)) C)
      (drawn (advance (4 * (head_size * C)) (default_generator s)) C)
      (drawn (advance (5 * (head_size * C)) (default_generator s)) C) x
      = Ok out'.
Proof.
  intros Hpos Htok Hadd Hx HC. destruct s as [h o g].
  cbn [heap stdout default_generator] in *.
  destruct (run_cell_spec h o g pemb_pos pemb_tok emb_pos emb_tok x B T C
              Hpos Htok Hadd Hx HC)
    as (out & news & Eo & Erun & H0 & _ & _ & _ & _ & _ & _ & H18).
  destruct (run_cell_spec (h ++ news) (o ++ printed B T C head_size)
              (advance (3 * (head_size * C)) g) pemb_pos pemb_tok emb_pos
              emb_tok x B T C)
    as (out' & news' & Eo' & Erun' & H0' & _ & _ & _ & _ & _ & _ & H18');
    try assumption; try (now apply lookup_app_l_Some).
  rewrite !advance_advance in Eo'.
  replace (3 * (head_size * C) + head_size * C)%nat
    with (4 * (head_size * C))%nat in Eo' by lia.
  replace (3 * (head_size * C) + 2 * (head_size * C))%nat
    with (5 * (head_size * C))%nat in Eo' by lia.
  eexists _, _, out, _, _, out'. split; [exact Erun |]. split; [exact Erun' |].
  cbn [heap ref_x ref_out].
  split; [apply lookup_app_l_Some; now apply lookup_new0 |].
  split; [now apply lookup_new0 |].
  split; [apply lookup_app_l_Some; now apply lookup_new |].
  split; [now apply lookup_new |]. split; assumption.
Qed.

(** The first row of the output is the first projected value row. *)
Lemma out_first_row (hs : nat) (rk rq rv : nat -> nat -> R) (x out : Tensor3 R)
    (B T C b h : nat) :
  shape3 x = (B, T, C) -> (0 < C)%nat -> (0 < T)%nat -> (b < B)%nat ->
  (h < hs)%nat -> attention hs rk rq rv x = Ok out ->
  get3 out b 0 h = rsum C (fun c => get3 x b 0 c * rv h c).
Proof.
  intros Hx HC HT Hb Hh Eo.
  destruct (cell_formulas hs rk rq rv x B T C Hx HC)
    as (k & q & v & Sc & W & out' & _ & _ & _ & _ & _ & Eo' & Hkqv & _ & HW
        & Hout).
  assert (out' = out) as -> by congruence.
  rewrite Hout by assumption. cbn [rsum]. rewrite HW by assumption.
  cbn [rsum Nat.leb].
  destruct (Hkqv b 0%nat h Hb HT Hh) as (_ & _ & ->).
  pose proof (exp_pos (get3 Sc b 0 0)). field. lra.
Qed.

Lemma x0_first_row (c : nat) : (c < 5)%nat -> get3 x0 0 0 c = 1.
Proof.
  intros Hc. unfold x0. rewrite get3_mk3 by lia. cbn [bindex Nat.eqb].
  unfold emb_pos0, emb_tok0, x_ones. rewrite get2_mk2, get3_mk3 by lia. lra.
Qed.

Lemma rerun_draws_again_witness :
  heap s0 !! 0%nat = Some (OTensor2 emb_pos0) /\
  heap s0 !! 1%nat = Some (OTensor3 emb_tok0) /\
  add23 emb_pos0 emb_tok0 = Ok x0 /\ shape3 x0 = (4, 4, 5)%nat /\ (0 < 5)%nat /\
  exists r s' out r' s'' out',
    run_cell 0 1 s0 = Ok (r, s') /\
    run_cell 0 1 s' = Ok (r', s'') /\
    heap s'' !! ref_out r = Some (OTensor3 out) /\
    heap s'' !! ref_out r' = Some (OTensor3 out') /\
    get3 out 0 0 0 <> get3 out' 0 0 0.
Proof.
  split; [reflexivity |]. split; [reflexivity |]. split; [reflexivity |].
  split; [reflexivity |]. split; [lia |].
  destruct (rerun_draws_again s0 0 1 emb_pos0 emb_tok0 x0 4 4 5 eq_refl eq_refl
              eq_refl eq_refl ltac:(lia))
    as (r & s' & out & r' & s'' & out' & Erun & Erun' & _ & _ & Ho & Ho' & Eo
        & Eo').
  exists r, s', out, r', s'', out'. repeat (split; [assumption |]).
  rewrite (out_first_row head_size _ _ _ x0 out 4 4 5 0 0 eq_refl ltac:(lia) ltac:(lia)
             ltac:(lia) ltac:(unfold head_size; lia) Eo).
  rewrite (out_first_row head_size _ _ _ x0 out' 4 4 5 0 0 eq_refl ltac:(lia)
             ltac:(lia) ltac:(lia) ltac:(unfold head_size; lia) Eo').
  cbn [rsum]. rewrite !x0_first_row by lia.
  unfold drawn, kaiming, advance, s0. cbn [default_generator sequence position].
  assert (Hs : 0 < sqrt (INR 5)) by (apply sqrt_lt_R0, lt_0_INR; lia).
  set (t := sqrt (INR 5)) in *.
  repeat match goal with
  | |- context [INR ?n] =>
      let z := eval vm_compute in (Z.of_nat n) in
      replace (INR n) with (IZR z) by (rewrite INR_IZR_INZ; reflexivity)
  end.
  pose proof (Rinv_0_lt_compat t Hs) as Hu. unfold Rdiv.
  set (u := / t) in *. intros E. lra.
Defined.

End Rerun.

(** * The head on float32 values *)

(** ** The arithmetic of float32 values *)

Section FloatFacts.
Import Torch Float32.
Local Open Scope R_scope.
Context {Rd : Rounding}.

Lemma tiny_lt_1 : 0 < tiny < 1.
Proof. unfold tiny. split; lra. Qed.

Lemma eps_lt_1 : 0 < eps < 1.
Proof. unfold eps. split; lra. Qed.

Lemma huge_gt_1 : 1 < huge.
Proof. unfold huge. lra. Qed.

Lemma INR_le_IZR (n : nat) (z : Z) : (Z.of_nat n <= z)%Z -> INR n <= IZR z.
Proof. intros H. rewrite INR_IZR_INZ. now apply IZR_le. Qed.

Lemma Rabs_bounds (x a : R) : Rabs x <= a -> - a <= x <= a.
Proof. unfold Rabs. destruct (Rcase_abs x); lra. Qed.

(** The rounded result is within the rounding error of the exact one. *)
Lemma rnd_bounds (r : R) :
  r - (eps * Rabs r + tiny) <= rnd r <= r + (eps * Rabs r + tiny).
Proof. pose proof (Rabs_bounds _ _ (rnd_err r)). lra. Qed.

Lemma fl_id (r : R) : representable (Num r) -> fl r = Num r.
Proof.
  intros [Hr Hh]. unfold fl. rewrite Hr. apply Rabs_def2 in Hh.
  destruct (Rle_dec huge r); [lra |].
  destruct (Rle_dec r (- huge)); [lra | reflexivity].
Qed.

Lemma fl_representable (r : R) : representable (fl r).
Proof.
  unfold fl. destruct (Rle_dec huge (rnd r)); [exact I |].
  destruct (Rle_dec (rnd r) (- huge)); [exact I |].
  split; [apply rnd_idem | apply Rabs_def1; lra].
Qed.

Lemma fl_0 : fl 0 = Num 0.
Proof.
  apply fl_id. split; [apply rnd_0 |]. rewrite Rabs_R0.
  pose proof huge_gt_1. lra.
Qed.

Lemma fl_1 : fl 1 = Num 1.
Proof.
  apply fl_id. split; [apply rnd_1 |]. rewrite Rabs_R1. apply huge_gt_1.
Qed.

(** A result of [[0, 1]] rounds to a number of [[0, 1]]. *)
Lemma fl_unit (r : R) :
  0 <= r <= 1 ->
  exists r', fl r = Num r' /\ representable (Num r') /\ 0 <= r' <= 1 /\
             Rabs (r' - r) <= eps * r + tiny.
Proof.
  intros [H0 H1]. pose proof huge_gt_1 as Hh.
  pose proof (rnd_mono 0 r H0) as Hlo. rewrite rnd_0 in Hlo.
  pose proof (rnd_mono r 1 H1) as Hhi. rewrite rnd_1 in Hhi.
  exists (rnd r). unfold fl.
  destruct (Rle_dec huge (rnd r)); [lra |].
  destruct (Rle_dec (rnd r) (- huge)); [lra |].
  split; [reflexivity |]. split.
  - split; [apply rnd_idem | apply Rabs_def1; lra].
  - split; [lra |]. pose proof (rnd_err r) as He.
    now rewrite (Rabs_pos_eq r H0) in He.
Qed.

Lemma fadd_representable (a b : f32) : representable (fadd a b).
Proof. destruct a, b; cbn; try exact I. apply fl_representable. Qed.

Lemma fadd_0_l (a : f32) : representable a -> fadd (Num 0) a = a.
Proof.
  intros Ha. destruct a as [r | | |]; cbn [fadd]; try reflexivity.
  rewrite Rplus_0_l. now apply fl_id.
Qed.

Lemma fadd_0_r (a : f32) : representable a -> fadd a (Num 0) = a.
Proof.
  intros Ha. destruct a as [r | | |]; cbn [fadd]; try reflexivity.
  rewrite Rplus_0_r. now apply fl_id.
Qed.

Lemma signed_inf_pos (x : R) : 0 < x -> signed_inf x = Pinf.
Proof.
  intros Hx. unfold signed_inf. destruct (Req_dec_T x 0); [lra |].
  destruct (Rlt_dec 0 x); [reflexivity | lra].
Qed.

Lemma signed_inf_neg (x : R) : x < 0 -> signed_inf x = Ninf.
Proof.
  intros Hx. unfold signed_inf. destruct (Req_dec_T x 0); [lra |].
  destruct (Rlt_dec 0 x); [lra | reflexivity].
Qed.

Lemma signed_inf_0 : signed_inf 0 = Nan.
Proof. unfold signed_inf. destruct (Req_dec_T 0 0); [reflexivity | lra]. Qed.

Lemma fmul_1_l (a : f32) : representable a -> fmul (Num 1) a = a.
Proof.
  intros Ha. destruct a as [r | | |]; cbn [fmul]; try reflexivity.
  - rewrite Rmult_1_l. now apply fl_id.
  - apply signed_inf_pos. lra.
  - apply signed_inf_neg. lra.
Qed.

Lemma fmul_0_num (r : R) : fmul (Num 0) (Num r) = Num 0.
Proof. cbn [fmul]. rewrite Rmult_0_l. apply fl_0. Qed.

Lemma fsum_representable (n : nat) (f : nat -> f32) : representable (fsum n f).
Proof.
  destruct n; cbn [fsum]; [| apply fadd_representable].
  split; [apply rnd_0 |]. rewrite Rabs_R0. pose proof huge_gt_1. lra.
Qed.

Lemma fsum_ext (n : nat) (f g : nat -> f32) :
  (forall i, (i < n)%nat -> f i = g i) -> fsum n f = fsum n g.
Proof.
  induction n as [| n IH]; intros Hfg; cbn [fsum]; [reflexivity |].
  rewrite IH, Hfg by (intros; try apply Hfg; lia). reflexivity.
Qed.

Lemma fsum_zeros (n : nat) (f : nat -> f32) :
  (forall j, (j < n)%nat -> f j = Num 0) -> fsum n f = Num 0.
Proof.
  induction n as [| n IH]; intros Hf; [reflexivity |].
  cbn [fsum]. rewrite IH by (intros; apply Hf; lia). rewrite Hf by lia.
  cbn [fadd]. rewrite Rplus_0_l. apply fl_0.
Qed.

(** The terms after [i], which are 0, add nothing. *)
Lemma fsum_tail (n i : nat) (f : nat -> f32) :
  (i < n)%nat -> (forall j, (i < j < n)%nat -> f j = Num 0) ->
  fsum n f = fsum (S i) f.
Proof.
  intros Hi Htail. induction n as [| n IH]; [lia |].
  destruct (Nat.eq_dec n i) as [-> | Hne]; [reflexivity |].
  change (fsum (S n) f) with (fadd (fsum n f) (f n)).
  rewrite (Htail n) by lia. rewrite fadd_0_r by apply fsum_representable.
  apply IH; [lia | intros; apply Htail; lia].
Qed.

Lemma fsum_head (n : nat) (f : nat -> f32) :
  (0 < n)%nat -> representable (f 0%nat) ->
  (forall j, (0 < j < n)%nat -> f j = Num 0) ->
  fsum n f = f 0%nat.
Proof.
  intros Hn H0 Htail. rewrite (fsum_tail n 0 f Hn Htail).
  cbn [fsum]. now apply fadd_0_l.
Qed.

Lemma fmaximum_ext (n : nat) (f g : nat -> f32) :
  (forall i, (i < n)%nat -> f i = g i) -> fmaximum n f = fmaximum n g.
Proof.
  induction n as [| n IH]; intros Hfg; cbn [fmaximum]; [reflexivity |].
  rewrite IH, Hfg by (intros; try apply Hfg; lia). reflexivity.
Qed.

Lemma fmax_ninf_r (m : f32) : fmax m Ninf = m.
Proof. now destruct m. Qed.

(** The positions after [i], which hold [-inf], do not change the
    maximum. *)
Lemma fmaximum_tail (n i : nat) (row : nat -> f32) :
  (i < n)%nat -> (forall j, (i < j < n)%nat -> row j = Ninf) ->
  fmaximum n row = fmaximum (S i) row.
Proof.
  intros Hi Htail. induction n as [| n IH]; [lia |].
  destruct (Nat.eq_dec n i) as [-> | Hne]; [reflexivity |].
  change (fmaximum (S n) row) with (fmax (fmaximum n row) (row n)).
  rewrite (Htail n) by lia. rewrite fmax_ninf_r.
  apply IH; [lia | intros; apply Htail; lia].
Qed.

Lemma fmaximum_zeros (n : nat) (f : nat -> f32) :
  (0 < n)%nat -> (forall j, (j < n)%nat -> f j = Num 0) ->
  fmaximum n f = Num 0.
Proof.
  intros Hn Hf. induction n as [| n IH]; [lia |].
  cbn [fmaximum]. rewrite (Hf n) by lia. destruct n as [| n].
  - reflexivity.
  - rewrite IH by (try lia; intros; apply Hf; lia).
    cbn [fmax]. now destruct (Rle_dec 0 0).
Qed.

(** A weight that is 0 or NaN gives the same product with every number. *)
Lemma fmul_masked (w a a' : f32) :
  w = Num 0 \/ w = Nan -> is_num a -> is_num a' -> fmul w a = fmul w a'.
Proof.
  intros [-> | ->] Ha Ha'; [| reflexivity].
  destruct a, a'; try contradiction. now rewrite !fmul_0_num.
Qed.

(** The scale [C ** -0.5] is a number. *)
Lemma f_scale_unit (C : nat) :
  (0 < C)%nat -> exists s, fl (Rpower (INR C) (-0.5)) = Num s.
Proof.
  intros HC.
  assert (H1 : 1 <= INR C) by (apply (le_INR 1); lia).
  assert (Hs : 0 <= Rpower (INR C) (-0.5) <= 1).
  { unfold Rpower. split; [left; apply exp_pos |].
    rewrite <- exp_0. destruct (Req_dec_T (INR C) 1) as [-> | Hne].
    - rewrite ln_1, Rmult_0_r. lra.
    - left. apply exp_increasing.
      assert (0 < ln (INR C)) by (rewrite <- ln_1; apply ln_increasing; lra).
      nra. }
  destruct (fl_unit _ Hs) as (s & Hfl & _). now exists s.
Qed.

End FloatFacts.

(** ** The cell on float32 values, entry by entry *)

Section FloatHead.
Import Torch Float32.
Local Open Scope R_scope.
Context {Rd : Rounding}.

Lemma f_mask_get (T i j : nat) :
  (i < T)%nat -> (j < T)%nat ->
  get2 (eq0 (tril (ones T T))) i j = negb (j <=? i)%nat.
Proof.
  intros Hi Hj. unfold eq0.
  replace (shape2 (tril (ones T T))) with (T, T) by reflexivity.
  rewrite get2_mk2 by assumption. unfold tril, ones at 1. cbn [shape2 mk2].
  rewrite get2_mk2 by assumption.
  destruct (j <=? i)%nat; cbn [negb].
  - unfold ones. rewrite get2_mk2 by assumption. cbn [is_zero].
    apply bool_decide_eq_false. lra.
  - cbn [is_zero]. now apply bool_decide_eq_true.
Qed.

Lemma f_pow_neg_half_pos (n : nat) :
  (0 < n)%nat -> pow_neg_half n = Ok (fl (Rpower (INR n) (-0.5))).
Proof.
  intros Hn. unfold pow_neg_half.
  destruct (Nat.eqb_spec n 0); [lia | reflexivity].
Qed.

Variables (hs : nat) (rk rq rv : nat -> nat -> f32).
Variables (x : Tensor3 f32) (B T C : nat).
Hypothesis Hx : shape3 x = (B, T, C).
Hypothesis HC : (0 < C)%nat.

Abbreviation key := (nn_Linear C hs rk).
Abbreviation query := (nn_Linear C hs rq).
Abbreviation value := (nn_Linear C hs rv).

(** Every tensor of the cell, entry by entry. *)
Lemma f_cell_formulas :
  exists k q v Sc W out,
    call key x = Ok k /\ call query x = Ok q /\ call value x = Ok v /\
    scores key query x = Ok Sc /\ weights key query x = Ok W /\
    forward key query value x = Ok out /\
    attention hs rk rq rv x = Ok out /\
    shape3 v = (B, T, hs) /\ shape3 W = (B, T, T) /\
    shape3 out = (B, T, hs) /\
    (forall b t h, (b < B)%nat -> (t < T)%nat -> (h < hs)%nat ->
       get3 k b t h = fsum C (fun c => fmul (get3 x b t c) (rk h c)) /\
       get3 q b t h = fsum C (fun c => fmul (get3 x b t c) (rq h c)) /\
       get3 v b t h = fsum C (fun c => fmul (get3 x b t c) (rv h c))) /\
    (forall b i j, (b < B)%nat -> (i < T)%nat -> (j < T)%nat ->
       get3 Sc b i j =
       fmul (fsum hs (fun h => fmul (get3 q b i h) (get3 k b j h)))
            (fl (Rpower (INR C) (-0.5)))) /\
    (forall b i j, (b < B)%nat -> (i < T)%nat -> (j < T)%nat ->
       get3 W b i j = softmax_row T (masked_row Sc b i) j) /\
    (forall b i h, (b < B)%nat -> (i < T)%nat -> (h < hs)%nat ->
       get3 out b i h = fsum T (fun j => fmul (get3 W b i j) (get3 v b j h))).
Proof.
  set (k := mk3 B T hs (fun b t h =>
         fsum C (fun c => fmul (get3 x b t c) (get2 (weight key) h c)))).
  set (q := mk3 B T hs (fun b t h =>
         fsum C (fun c => fmul (get3 x b t c) (get2 (weight query) h c)))).
  set (v := mk3 B T hs (fun b t h =>
         fsum C (fun c => fmul (get3 x b t c) (get2 (weight value) h c)))).
  assert (Ek : call key x = Ok k)
    by (unfold call; rewrite Hx; cbn [in_features nn_Linear];
        now rewrite Nat.eqb_refl).
  assert (Eq : call query x = Ok q)
    by (unfold call; rewrite Hx; cbn [in_features nn_Linear];
        now rewrite Nat.eqb_refl).
  assert (Ev : call value x = Ok v)
    by (unfold call; rewrite Hx; cbn [in_features nn_Linear];
        now rewrite Nat.eqb_refl).
  set (P := mk3 B T T (fun c i j =>
         fsum hs (fun h => fmul (get3 q (bindex B c) i h)
                                (get3 (transpose k) (bindex B c) h j)))).
  assert (EP : matmul q (transpose k) = Ok P).
  { unfold matmul, transpose. cbn [shape3 k q mk3].
    now rewrite Nat.eqb_refl, broadcasts_refl, bsize_id. }
  set (Sc := scale P (fl (Rpower (INR C) (-0.5)))).
  assert (ES : scores key query x = Ok Sc).
  { unfold scores. rewrite Hx, Ek, Eq. cbn [mbind result_bind].
    rewrite EP. cbn [mbind result_bind].
    rewrite (f_pow_neg_half_pos C HC). reflexivity. }
  set (M := mk3 B T T (fun b i j =>
         if get2 (eq0 (tril (ones T T))) (bindex T i) (bindex T j)
         then Ninf else get3 Sc b i j)).
  assert (EM : masked_fill Sc (eq0 (tril (ones T T))) Ninf = Ok M).
  { unfold masked_fill.
    replace (shape3 Sc) with (B, T, T) by reflexivity.
    replace (shape2 (eq0 (tril (ones T T)))) with (T, T) by reflexivity.
    now rewrite !broadcasts_refl. }
  assert (EW : weights key query x = Ok (softmax M)).
  { unfold weights. rewrite Hx, ES. cbn [mbind result_bind].
    rewrite EM. reflexivity. }
  set (out := mk3 B T hs (fun c i j =>
         fsum T (fun h => fmul (get3 (softmax M) (bindex B c) i h)
                               (get3 v (bindex B c) h j)))).
  assert (Eo : forward key query value x = Ok out).
  { unfold forward. rewrite EW, Ev. cbn [mbind result_bind].
    unfold matmul. replace (shape3 (softmax M)) with (B, T, T) by reflexivity.
    cbn [shape3 v mk3]. now rewrite Nat.eqb_refl, broadcasts_refl, bsize_id. }
  exists k, q, v, Sc, (softmax M), out.
  repeat (split; [assumption || reflexivity |]).
  split; [unfold attention; now rewrite Hx |].
  repeat (split; [reflexivity |]).
  split; [| split; [| split]].
  - intros b t h Hb Ht Hh. unfold k, q, v. rewrite !get3_mk3 by assumption.
    repeat split; apply fsum_ext; intros c Hc; unfold nn_Linear;
      cbn [weight]; now rewrite get2_mk2.
  - intros b i j Hb Hi Hj. unfold Sc, scale.
    replace (shape3 P) with (B, T, T) by reflexivity.
    rewrite get3_mk3 by assumption. f_equal. unfold P.
    rewrite get3_mk3 by assumption. apply fsum_ext. intros h Hh.
    rewrite bindex_lt by assumption. f_equal.
    unfold transpose. cbn [shape3 k mk3]. now rewrite (get3_mk3 B hs T).
  - intros b i j Hb Hi Hj. unfold softmax.
    replace (shape3 M) with (B, T, T) by reflexivity.
    rewrite get3_mk3 by assumption.
    assert (Hrow : forall j', (j' < T)%nat ->
              get3 M b i j' = masked_row Sc b i j').
    { intros j' Hj'. unfold M. rewrite get3_mk3, !bindex_lt by assumption.
      rewrite f_mask_get by assumption. unfold masked_row.
      now destruct (j' <=? i)%nat. }
    unfold softmax_row.
    rewrite (fmaximum_ext T (fun j' => get3 M b i j') (masked_row Sc b i) Hrow).
    rewrite (Hrow j Hj).
    f_equal. apply fsum_ext. intros j' Hj'. now rewrite Hrow.
  - intros b i h Hb Hi Hh. unfold out. rewrite get3_mk3 by assumption.
    apply fsum_ext. intros j Hj. now rewrite bindex_lt.
Qed.


End FloatHead.

(** ** Products and rows *)

Section FloatRows.
Import Torch Float32.
Local Open Scope R_scope.
Context {Rd : Rounding}.

Lemma f_matmul_get (a b : Tensor3 f32) (B n m p : nat) :
  shape3 a = (B, n, m) -> shape3 b = (B, m, p) ->
  exists out,
    matmul a b = Ok out /\ shape3 out = (B, n, p) /\
    forall c i j, (c < B)%nat -> (i < n)%nat -> (j < p)%nat ->
      get3 out c i j = fsum m (fun h => fmul (get3 a c i h) (get3 b c h j)).
Proof.
  intros Ha Hb. eexists. split.
  - unfold matmul. rewrite Ha, Hb, Nat.eqb_refl, broadcasts_refl, bsize_id.
    reflexivity.
  - split; [reflexivity |]. intros c i j Hc Hi Hj.
    rewrite get3_mk3 by assumption. now rewrite bindex_lt.
Qed.

Lemma softmax_row_ext (n : nat) (row row' : nat -> f32) (j : nat) :
  (forall j', (j' < n)%nat -> row j' = row' j') -> (j < n)%nat ->
  softmax_row n row j = softmax_row n row' j.
Proof.
  intros Hrow Hj. unfold softmax_row.
  rewrite (fmaximum_ext n row row' Hrow), (Hrow j Hj). f_equal.
  apply fsum_ext. intros j' Hj'. now rewrite Hrow.
Qed.

End FloatRows.

(** ** The softmax of a row *)

Section FloatSoftmax.
Import Torch Float32.
Local Open Scope R_scope.
Context {Rd : Rounding}.

(** A masked position has weight 0, or NaN when the row is NaN. *)
Lemma softmax_row_masked (n : nat) (row : nat -> f32) (j : nat) :
  row j = Ninf ->
  softmax_row n row j = Num 0 \/ softmax_row n row j = Nan.
Proof.
  intros Hj. unfold softmax_row. rewrite Hj.
  set (S := fsum n _). generalize S. clear S. intros S.
  destruct (fmaximum n row) as [m | | |]; cbn [fsub fneg fadd fexp];
    try (right; reflexivity).
  - destruct S as [y | | |]; cbn [fdiv]; try (left; reflexivity);
      try (right; reflexivity).
    destruct (Req_dec_T y 0); [right; apply signed_inf_0 |].
    left. unfold Rdiv. rewrite Rmult_0_l. apply fl_0.
  - destruct S as [y | | |]; cbn [fdiv]; try (left; reflexivity);
      try (right; reflexivity).
    destruct (Req_dec_T y 0); [right; apply signed_inf_0 |].
    left. unfold Rdiv. rewrite Rmult_0_l. apply fl_0.
Qed.

(** The maximum of a row of numbers and [-inf]. *)
Lemma fmaximum_nums (n : nat) (row : nat -> f32) :
  (forall j, (j < n)%nat -> is_num (row j) \/ row j = Ninf) ->
  (fmaximum n row = Ninf /\ forall j, (j < n)%nat -> row j = Ninf) \/
  (exists mu, fmaximum n row = Num mu /\
     (forall j s, (j < n)%nat -> row j = Num s -> s <= mu) /\
     exists j, (j < n)%nat /\ row j = Num mu).
Proof.
  induction n as [| n IH]; intros Hrow.
  - left. split; [reflexivity | intros; lia].
  - cbn [fmaximum].
    destruct IH as [[Hm Hall] | (mu & Hm & Hle & j0 & Hj0 & Hmax)];
      [intros; apply Hrow; lia | |]; rewrite Hm.
    + destruct (Hrow n (Nat.lt_succ_diag_r n)) as [Hnum | Hninf].
      * destruct (row n) as [s | | |] eqn:Hs; try contradiction.
        right. exists s. split; [reflexivity |]. split.
        -- intros j s' Hj Hs'. destruct (Nat.eq_dec j n) as [-> | Hne].
           ++ rewrite Hs in Hs'. injection Hs' as <-. lra.
           ++ rewrite Hall in Hs' by lia. discriminate.
        -- exists n. split; [lia | exact Hs].
      * left. rewrite Hninf. split; [reflexivity |].
        intros j Hj. destruct (Nat.eq_dec j n) as [-> | Hne];
          [exact Hninf | apply Hall; lia].
    + destruct (Hrow n (Nat.lt_succ_diag_r n)) as [Hnum | Hninf].
      * destruct (row n) as [s | | |] eqn:Hs; try contradiction.
        right. cbn [fmax]. destruct (Rle_dec mu s) as [Hms | Hms].
        -- exists s. split; [reflexivity |]. split.
           ++ intros j s' Hj Hs'. destruct (Nat.eq_dec j n) as [-> | Hne].
              ** rewrite Hs in Hs'. injection Hs' as <-. lra.
              ** pose proof (Hle j s' ltac:(lia) Hs'). lra.
           ++ exists n. split; [lia | exact Hs].
        -- exists mu. split; [reflexivity |]. split.
           ++ intros j s' Hj Hs'. destruct (Nat.eq_dec j n) as [-> | Hne].
              ** rewrite Hs in Hs'. injection Hs' as <-. lra.
              ** apply (Hle j s'); [lia | exact Hs'].
           ++ exists j0. split; [lia | exact Hmax].
      * right. rewrite Hninf. cbn [fmax]. exists mu.
        split; [reflexivity |]. split.
        -- intros j s' Hj Hs'. destruct (Nat.eq_dec j n) as [-> | Hne].
           ++ rewrite Hninf in Hs'. discriminate.
           ++ apply (Hle j s'); [lia | exact Hs'].
        -- exists j0. split; [lia | exact Hmax].
Qed.

(** [exp] of a value minus the maximum of its row is a number of [[0, 1]]. *)
Lemma fexp_shift_unit (a : f32) (mu : R) :
  a = Ninf \/ (exists s, a = Num s /\ s <= mu) ->
  exists e, fexp (fsub a (Num mu)) = Num e /\ representable (Num e) /\
            0 <= e <= 1 /\ (a = Ninf -> e = 0) /\ (a = Num mu -> e = 1).
Proof.
  pose proof huge_gt_1 as Hh.
  assert (Hrep0 : representable (Num 0)).
  { split; [apply rnd_0 |]. rewrite Rabs_R0. lra. }
  intros [-> | (s & -> & Hs)].
  - exists 0. cbn [fsub fneg fadd fexp]. split; [reflexivity |].
    split; [exact Hrep0 |]. split; [lra |]. split; [reflexivity | discriminate].
  - cbn [fsub fneg fadd]. unfold fl.
    pose proof (rnd_mono (s + - mu) 0 ltac:(lra)) as Hy. rewrite rnd_0 in Hy.
    destruct (Rle_dec huge (rnd (s + - mu))); [lra |].
    destruct (Rle_dec (rnd (s + - mu)) (- huge)) as [Hlow | _].
    { exists 0. cbn [fexp]. split; [reflexivity |]. split; [exact Hrep0 |].
      split; [lra |]. split; [discriminate |].
      intros [= ->]. rewrite Rplus_opp_r, rnd_0 in Hlow. lra. }
    cbn [fexp].
    destruct (fl_unit _ (expf_unit _ Hy)) as (e & He & Hrep & Hb & _).
    exists e. split; [exact He |]. split; [exact Hrep |]. split; [exact Hb |].
    split; [discriminate |].
    intros [= ->]. rewrite Rplus_opp_r, rnd_0, expf_0, fl_1 in He.
    now injection He as <-.
Qed.

Lemma tiny_eps : tiny / eps <= / 1000000 /\ 0 < tiny / eps /\ eps * (tiny / eps) = tiny.
Proof.
  unfold tiny, eps. split; [| split].
  - lra.
  - lra.
  - field.
Qed.

Lemma sum_step (k s sigma e s' : R) :
  0 <= k -> 10001 / 10000 * k * eps <= / 10000 -> 0 <= sigma -> 0 <= e ->
  Rabs (s - sigma) <= 10001 / 10000 * k * eps * (sigma + tiny / eps) ->
  Rabs (s' - (s + e)) <= eps * (s + e) + tiny ->
  Rabs (s' - (sigma + e))
    <= 10001 / 10000 * (k + 1) * eps * (sigma + e + tiny / eps).
Proof.
  intros Hk Hsmall Hsig He HE Hstep.
  destruct tiny_eps as (Hc1 & Hc0 & Hc).
  set (c := tiny / eps) in *. rewrite <- Hc in Hstep.
  assert (Heps : 0 < eps) by (unfold eps; lra).
  set (t := 10001 / 10000 * k * eps) in *.
  assert (Ht : 0 <= t) by (unfold t; apply Rmult_le_pos; [| lra]; lra).
  set (X := sigma + e + c).
  assert (HX : 0 <= X) by (unfold X; lra).
  assert (HB : t * (sigma + c) <= t * X)
    by (apply Rmult_le_compat_l; [exact Ht | unfold X; lra]).
  apply Rabs_bounds in HE, Hstep.
  assert (Hmul : 0 <= eps * X * (/ 10000 - t)).
  { apply Rmult_le_pos; [apply Rmult_le_pos; lra | lra]. }
  assert (Hmul2 : 0 <= eps * (t * X - t * (sigma + c))) by nra.
  replace (10001 / 10000 * (k + 1) * eps) with (t + 10001 / 10000 * eps)
    by (unfold t; lra).
  fold X. apply Rabs_le. unfold X in *. split; nra.
Qed.

Lemma softmax_sum_bound (N sigma s W : R) :
  1 <= N <= 1024 -> 1 <= s -> 0 <= sigma ->
  Rabs (s - sigma) <= 10001 / 10000 * N * eps * (sigma + tiny / eps) ->
  (1 - eps) * (sigma / s) - N * tiny <= W <= (1 + eps) * (sigma / s) + N * tiny ->
  Rabs (W - 1) <= (N + 2) * eps.
Proof.
  intros HN Hs Hsig HE HW.
  destruct tiny_eps as (Hc1 & Hc0 & Hc).
  set (c := tiny / eps) in *. rewrite <- Hc in HW.
  assert (Heps : eps = / 16777216) by reflexivity.
  assert (Heps0 : 0 < eps) by lra.
  set (t := 10001 / 10000 * N * eps) in *.
  assert (Ht : 0 <= t <= 7 / 100000) by (unfold t; split; nra).
  set (r := / s). assert (Hr : 0 < r <= 1).
  { unfold r. split; [apply Rinv_0_lt_compat; lra |].
    rewrite <- Rinv_1. apply Rinv_le_contravar; lra. }
  assert (Hsr : s * r = 1) by (unfold r; apply Rinv_r; lra).
  unfold Rdiv in HW. fold r in HW. set (q := sigma * r) in *.
  assert (Hq0 : 0 <= q) by (unfold q; apply Rmult_le_pos; lra).
  apply Rabs_bounds in HE.
  assert (Hq : - (t * (q + c)) <= 1 - q <= t * (q + c)).
  { assert (H1 : (s - sigma) * r = 1 - q) by (unfold q; lra).
    assert (H2 : t * (sigma + c) * r <= t * (q + c)).
    { unfold q. assert (0 <= t * c * (1 - r)) by (apply Rmult_le_pos; nra). nra. }
    rewrite <- H1. split.
    - apply (Rle_trans _ (- (t * (sigma + c) * r))); [lra |].
      assert ((- (t * (sigma + c))) * r <= (s - sigma) * r)
        by (apply Rmult_le_compat_r; lra). lra.
    - apply (Rle_trans _ (t * (sigma + c) * r)); [| lra].
      apply Rmult_le_compat_r; lra. }
  assert (Hq2 : q <= 1 + 2 * t) by nra.
  assert (Hq3 : - (t * (1 + 2 * t + c)) <= 1 - q <= t * (1 + 2 * t + c)).
  { assert (t * (q + c) <= t * (1 + 2 * t + c))
      by (apply Rmult_le_compat_l; lra). lra. }
  assert (Htt : t * (2 * t + c) <= t * (15 / 100000))
    by (apply Rmult_le_compat_l; lra).
  assert (HNc : N * (eps * c) <= eps * (2 / 1000)) by nra.
  assert (Hepsq : eps * q <= eps * (1 + 2 * t)) by (apply Rmult_le_compat_l; lra).
  assert (Hept : eps * (2 * t) <= eps * (2 / 1000)) by nra.
  assert (HtN : t = N * eps + N * eps / 10000) by (unfold t; lra).
  assert (HN2 : N * eps / 10000 <= eps * (11 / 100)) by nra.
  assert (Ht2 : t * (15 / 100000) <= eps * (2 / 10)) by (rewrite HtN; nra).
  apply Rabs_le. split; nra.
Qed.

(** A sum of at most 1024 numbers of [[0, 1]]: a number, not below any
    of its terms, within the rounding errors of the exact sum. *)
Lemma fsum_unit (n : nat) (f : nat -> f32) :
  (forall j, (j < n)%nat ->
     exists e, f j = Num e /\ representable (Num e) /\ 0 <= e <= 1) ->
  (n <= 1024)%nat ->
  exists s, fsum n f = Num s /\ representable (Num s) /\ 0 <= s /\
    (forall j, (j < n)%nat -> to_R (f j) <= s) /\
    0 <= rsum n (fun j => to_R (f j)) <= INR n /\
    Rabs (s - rsum n (fun j => to_R (f j)))
      <= 10001 / 10000 * INR n * eps
         * (rsum n (fun j => to_R (f j)) + tiny / eps).
Proof.
  pose proof huge_gt_1 as Hh. destruct tiny_eps as (Hc1 & Hc0 & Hc).
  assert (Heps : eps = / 16777216) by reflexivity.
  induction n as [| n IH]; intros Hf Hn.
  - exists 0. cbn [fsum rsum INR]. split; [reflexivity |]. split.
    { split; [apply rnd_0 |]. rewrite Rabs_R0. lra. }
    split; [lra |]. split; [intros; lia |]. split; [lra |].
    rewrite Rminus_diag, Rabs_R0. lra.
  - destruct IH as (s & Hs & [Hrs Hsh] & Hs0 & Hterm & Hsig & HE);
      [intros; apply Hf; lia | lia |].
    destruct (Hf n (Nat.lt_succ_diag_r n)) as (e & He & [Hre _] & Hbe).
    set (sigma := rsum n (fun j => to_R (f j))) in *.
    assert (HN : 0 <= INR n <= 1023).
    { split; [apply pos_INR |].
      apply (INR_le_IZR n 1023%Z). lia. }
    assert (Hsmall : 10001 / 10000 * INR n * eps <= / 10000) by nra.
    pose proof (Rabs_bounds _ _ HE) as HE'.
    assert (Hsb : s <= 1025).
    { assert (10001 / 10000 * INR n * eps * (sigma + tiny / eps) <= 1) by nra.
      lra. }
    pose proof (rnd_bounds (s + e)) as Hrb.
    rewrite (Rabs_pos_eq (s + e)) in Hrb by lra.
    pose proof (rnd_mono s (s + e) ltac:(lra)) as Hms. rewrite Hrs in Hms.
    pose proof (rnd_mono e (s + e) ltac:(lra)) as Hme. rewrite Hre in Hme.
    exists (rnd (s + e)). cbn [fsum rsum]. rewrite Hs, He. cbn [fadd to_R].
    unfold fl.
    assert (Hup : rnd (s + e) < huge).
    { unfold huge. pose proof tiny_lt_1. nra. }
    destruct (Rle_dec huge (rnd (s + e))); [lra |].
    destruct (Rle_dec (rnd (s + e)) (- huge)); [lra |].
    split; [reflexivity |]. split.
    { split; [apply rnd_idem | apply Rabs_def1; lra]. }
    split; [lra |]. split.
    { intros j Hj. destruct (Nat.eq_dec j n) as [-> | Hne].
      - rewrite He. cbn [to_R]. exact Hme.
      - pose proof (Hterm j ltac:(lia)). lra. }
    split; [rewrite S_INR; fold sigma; lra |].
    fold sigma. rewrite S_INR.
    apply (sum_step (INR n) s sigma e); try lra.
    pose proof (rnd_err (s + e)) as Her.
    now rewrite (Rabs_pos_eq (s + e)) in Her by lra.
Qed.

(** The softmax of a row of at most 1024 numbers: numbers of [[0, 1]]
    whose sum is 1 within [(n + 2) * eps]. *)
Lemma softmax_row_nums (n : nat) (row : nat -> f32) :
  (0 < n)%nat -> (n <= 1024)%nat ->
  (forall j, (j < n)%nat -> is_num (row j)) ->
  (forall j, (j < n)%nat ->
     exists w, softmax_row n row j = Num w /\ 0 <= w <= 1) /\
  Rabs (rsum n (fun j => to_R (softmax_row n row j)) - 1)
    <= (INR n + 2) * eps.
Proof.
  intros Hn0 Hn Hnum.
  destruct (fmaximum_nums n row) as [[_ Hall] | (mu & Hm & Hle & j0 & Hj0 & Hmax)].
  { intros j Hj. left. now apply Hnum. }
  { pose proof (Hnum 0%nat Hn0) as H0. rewrite (Hall 0%nat Hn0) in H0.
    contradiction. }
  set (e := fun j => fexp (fsub (row j) (Num mu))).
  assert (He : forall j, (j < n)%nat ->
            exists r, e j = Num r /\ representable (Num r) /\ 0 <= r <= 1 /\
                      (row j = Num mu -> r = 1)).
  { intros j Hj.
    destruct (fexp_shift_unit (row j) mu) as (r & Hr & Hrep & Hb & _ & H1).
    - right. pose proof (Hnum j Hj) as Hnj.
      destruct (row j) as [s | | |] eqn:Hs; try contradiction.
      exists s. split; [reflexivity | now apply (Hle j s)].
    - now exists r. }
  assert (He' : forall j, (j < n)%nat ->
            exists r, e j = Num r /\ representable (Num r) /\ 0 <= r <= 1).
  { intros j Hj. destruct (He j Hj) as (r & Hr & Hrep & Hb & _). now exists r. }
  destruct (fsum_unit n e He' Hn) as (s & Hsum & _ & _ & Hterm & Hsig & HE).
  set (sigma := rsum n (fun j => to_R (e j))) in *.
  assert (Hs1 : 1 <= s).
  { destruct (He j0 Hj0) as (r & Hr & _ & _ & H1).
    pose proof (Hterm j0 Hj0) as Hge. rewrite Hr, (H1 Hmax) in Hge. exact Hge. }
  assert (HW : forall j, (j < n)%nat ->
            exists w, softmax_row n row j = Num w /\ 0 <= w <= 1 /\
                      Rabs (w - to_R (e j) / s) <= eps * (to_R (e j) / s) + tiny).
  { intros j Hj. unfold softmax_row. rewrite Hm. fold (e j). fold e.
    rewrite Hsum. destruct (He' j Hj) as (r & Hr & _ & Hb).
    pose proof (Hterm j Hj) as Hrs. rewrite Hr in *. cbn [fdiv to_R] in *.
    destruct (Req_dec_T s 0); [lra |].
    assert (Hq : 0 <= r / s <= 1).
    { split.
      - apply Rmult_le_pos; [lra |]. left. apply Rinv_0_lt_compat. lra.
      - apply (Rmult_le_reg_r s); [lra |].
        unfold Rdiv. rewrite Rmult_assoc, Rinv_l by lra. lra. }
    destruct (fl_unit _ Hq) as (w & Hw & _ & Hwb & Hwe).
    exists w. repeat split; try assumption; lra. }
  split.
  - intros j Hj. destruct (HW j Hj) as (w & Hw & Hwb & _). now exists w.
  - apply (softmax_sum_bound (INR n) sigma s).
    + split; [apply (le_INR 1); lia | apply (INR_le_IZR n 1024%Z); lia].
    + exact Hs1.
    + lra.
    + exact HE.
    + assert (Hlo : rsum n (fun j => (1 - eps) * (to_R (e j) * / s) + - tiny)
                    <= rsum n (fun j => to_R (softmax_row n row j))).
      { apply rsum_le. intros j Hj. destruct (HW j Hj) as (w & -> & _ & Hwe).
        apply Rabs_bounds in Hwe. cbn [to_R]. unfold Rdiv in Hwe. lra. }
      assert (Hhi : rsum n (fun j => to_R (softmax_row n row j))
                    <= rsum n (fun j => (1 + eps) * (to_R (e j) * / s) + tiny)).
      { apply rsum_le. intros j Hj. destruct (HW j Hj) as (w & -> & _ & Hwe).
        apply Rabs_bounds in Hwe. cbn [to_R]. unfold Rdiv in Hwe. lra. }
      rewrite rsum_plus, rsum_const, rsum_scal_l, rsum_scal_r in Hlo, Hhi.
      fold sigma in Hlo, Hhi. unfold Rdiv. lra.
Qed.

(** The positions after [i], which hold [-inf], contribute nothing to the
    softmax of the row. *)
Lemma softmax_row_tail (n i j : nat) (row : nat -> f32) :
  (i < n)%nat -> (forall j', (j' <= i)%nat -> is_num (row j')) ->
  (forall j', (i < j' < n)%nat -> row j' = Ninf) ->
  softmax_row n row j = softmax_row (S i) row j.
Proof.
  intros Hi Hnum Htail. unfold softmax_row.
  rewrite (fmaximum_tail n i row Hi Htail).
  destruct (fmaximum_nums (S i) row) as [[_ Hall] | (mu & -> & _)].
  { intros j' Hj'. left. apply Hnum. lia. }
  { pose proof (Hnum 0%nat (Nat.le_0_l i)) as H0.
    rewrite (Hall 0%nat) in H0 by lia. contradiction. }
  f_equal. apply fsum_tail; [exact Hi |].
  intros j' Hj'. now rewrite Htail.
Qed.

(** The maximum and the denominator of the softmax of a row of numbers. *)
Lemma softmax_row_parts (n : nat) (row : nat -> f32) :
  (0 < n)%nat -> (n <= 1024)%nat ->
  (forall j, (j < n)%nat -> is_num (row j)) ->
  exists mu s,
    fmaximum n row = Num mu /\
    fsum n (fun j => fexp (fsub (row j) (Num mu))) = Num s /\ 1 <= s.
Proof.
  intros Hn0 Hn Hnum.
  destruct (fmaximum_nums n row) as [[_ Hall] | (mu & Hm & Hle & j0 & Hj0 & Hmax)].
  { intros j Hj. left. now apply Hnum. }
  { pose proof (Hnum 0%nat Hn0) as H0. rewrite (Hall 0%nat Hn0) in H0.
    contradiction. }
  set (e := fun j => fexp (fsub (row j) (Num mu))).
  assert (He : forall j, (j < n)%nat ->
            exists r, e j = Num r /\ representable (Num r) /\ 0 <= r <= 1 /\
                      (row j = Num mu -> r = 1)).
  { intros j Hj.
    destruct (fexp_shift_unit (row j) mu) as (r & Hr & Hrep & Hb & _ & H1).
    - right. pose proof (Hnum j Hj) as Hnj.
      destruct (row j) as [s | | |] eqn:Hs; try contradiction.
      exists s. split; [reflexivity | now apply (Hle j s)].
    - now exists r. }
  destruct (fsum_unit n e) as (s & Hsum & _ & _ & Hterm & _); [| exact Hn |].
  { intros j Hj. destruct (He j Hj) as (r & Hr & Hrep & Hb & _). now exists r. }
  exists mu, s. split; [exact Hm |]. split; [exact Hsum |].
  destruct (He j0 Hj0) as (r & Hr & _ & _ & H1).
  pose proof (Hterm j0 Hj0) as Hge. rewrite Hr, (H1 Hmax) in Hge. exact Hge.
Qed.

(** The softmax of a row whose visible positions [0..i] hold numbers and
    whose other positions hold [-inf]: numbers of [[0, 1]], 0 after [i],
    and of sum 1 within [(i + 3) * eps]. *)
Lemma softmax_row_prefix (n : nat) (row : nat -> f32) (i : nat) :
  (i < n)%nat -> (S i <= 1024)%nat ->
  (forall j, (j <= i)%nat -> is_num (row j)) ->
  (forall j, (i < j < n)%nat -> row j = Ninf) ->
  (forall j, (j <= i)%nat ->
     exists w, softmax_row n row j = Num w /\ 0 <= w <= 1) /\
  (forall j, (i < j < n)%nat -> softmax_row n row j = Num 0) /\
  Rabs (rsum (S i) (fun j => to_R (softmax_row n row j)) - 1)
    <= (INR (S i) + 2) * eps.
Proof.
  intros Hi Hn Hnum Hinf.
  destruct (softmax_row_nums (S i) row) as [Hunit Hsum];
    [lia | lia | intros; apply Hnum; lia |].
  assert (Htail : forall j, softmax_row n row j = softmax_row (S i) row j)
    by (intros j; now apply softmax_row_tail).
  split; [| split].
  - intros j Hj. rewrite Htail. apply Hunit. lia.
  - intros j Hj.
    destruct (softmax_row_parts (S i) row) as (mu & s & Hm & Hs & Hs1);
      [lia | lia | intros; apply Hnum; lia |].
    unfold softmax_row. rewrite (fmaximum_tail n i row Hi Hinf), Hm.
    rewrite (fsum_tail n i) by (try lia; intros j' Hj'; now rewrite Hinf).
    rewrite Hs, (Hinf j Hj). cbn [fsub fneg fadd fexp fdiv].
    destruct (Req_dec_T s 0); [lra |].
    unfold Rdiv. rewrite Rmult_0_l. apply fl_0.
  - rewrite (rsum_ext (S i) _ (fun j => to_R (softmax_row (S i) row j)))
      by (intros; now rewrite Htail).
    exact Hsum.
Qed.

(** The row of the first position: one number, then [-inf]. *)
Lemma fmaximum_first (n : nat) (row : nat -> f32) (s : R) :
  (0 < n)%nat -> row 0%nat = Num s ->
  (forall j, (0 < j < n)%nat -> row j = Ninf) ->
  fmaximum n row = Num s.
Proof.
  intros Hn H0 Htail. induction n as [| n IH]; [lia |].
  cbn [fmaximum]. destruct n as [| n].
  - cbn [fmaximum]. now rewrite H0.
  - rewrite IH by (try lia; intros; apply Htail; lia).
    now rewrite Htail by lia.
Qed.

Lemma fsum_first (n : nat) (f : nat -> f32) :
  (0 < n)%nat -> f 0%nat = Num 1 ->
  (forall j, (0 < j < n)%nat -> f j = Num 0) ->
  fsum n f = Num 1.
Proof.
  intros Hn H0 Htail. induction n as [| n IH]; [lia |].
  cbn [fsum]. destruct n as [| n].
  - cbn [fsum]. rewrite H0. cbn [fadd]. rewrite Rplus_0_l. apply fl_1.
  - rewrite IH by (try lia; intros; apply Htail; lia).
    rewrite Htail by lia. cbn [fadd]. rewrite Rplus_0_r. apply fl_1.
Qed.

Lemma softmax_row_first (n : nat) (row : nat -> f32) (s : R) :
  (0 < n)%nat -> row 0%nat = Num s ->
  (forall j, (0 < j < n)%nat -> row j = Ninf) ->
  softmax_row n row 0 = Num 1 /\
  forall j, (0 < j < n)%nat -> softmax_row n row j = Num 0.
Proof.
  intros Hn H0 Htail. unfold softmax_row.
  rewrite (fmaximum_first n row s Hn H0 Htail).
  assert (He0 : fexp (fsub (row 0%nat) (Num s)) = Num 1).
  { rewrite H0. cbn [fsub fneg fadd]. rewrite Rplus_opp_r, fl_0.
    cbn [fexp]. rewrite expf_0. apply fl_1. }
  assert (Het : forall j, (0 < j < n)%nat -> fexp (fsub (row j) (Num s)) = Num 0).
  { intros j Hj. now rewrite Htail. }
  rewrite (fsum_first n (fun j' => fexp (fsub (row j') (Num s))) Hn He0 Het).
  split.
  - rewrite He0. cbn [fdiv]. destruct (Req_dec_T 1 0); [lra |].
    unfold Rdiv. rewrite Rinv_1, Rmult_1_l. apply fl_1.
  - intros j Hj. rewrite (Het j Hj). cbn [fdiv].
    destruct (Req_dec_T 1 0); [lra |].
    unfold Rdiv. rewrite Rmult_0_l. apply fl_0.
Qed.

End FloatSoftmax.

(** ** Rows of the weights, causality and the single position, on float32 *)

Section FirstPosition.
Import Torch Float32.
Local Open Scope R_scope.
Context {Rd : Rounding}.
Variables (hs : nat) (rk rq rv : nat -> nat -> f32).
Variables (x : Tensor3 f32) (B T C : nat).
Hypothesis Hx : shape3 x = (B, T, C).
Hypothesis HC : (0 < C)%nat.
Hypothesis HT : (0 < T)%nat.

(** The first position, whose only visible position is itself. *)
Lemma f_first_row :
  exists Sc W v out,
    scores (nn_Linear C hs rk) (nn_Linear C hs rq) x = Ok Sc /\
    weights (nn_Linear C hs rk) (nn_Linear C hs rq) x = Ok W /\
    call (nn_Linear C hs rv) x = Ok v /\
    attention hs rk rq rv x = Ok out /\
    forall b, (b < B)%nat -> is_num (get3 Sc b 0 0) ->
      get3 W b 0 0 = Num 1 /\
      (forall j, (0 < j < T)%nat -> get3 W b 0 j = Num 0) /\
      forall h, (h < hs)%nat ->
        (forall j, (0 < j < T)%nat -> is_num (get3 v b j h)) ->
        get3 out b 0 h = get3 v b 0 h.
Proof.
  destruct (f_cell_formulas hs rk rq rv x B T C Hx HC)
    as (k & q & v & Sc & W & out & _ & _ & Ev & ES & EW & _ & Eo & _ & _ & _
        & Hkqv & _ & HW & Hout).
  exists Sc, W, v, out. repeat (split; [assumption |]).
  intros b Hb Hnum.
  destruct (get3 Sc b 0 0) as [s | | |] eqn:Hs; try contradiction.
  destruct (softmax_row_first T (masked_row Sc b 0) s HT) as [HW0 HWt].
  { unfold masked_row. cbn [Nat.leb]. exact Hs. }
  { intros j Hj. unfold masked_row. destruct (Nat.leb_spec j 0); [lia |].
    reflexivity. }
  rewrite <- HW in HW0 by assumption.
  assert (HWt' : forall j, (0 < j < T)%nat -> get3 W b 0 j = Num 0)
    by (intros j Hj; rewrite HW by (assumption || lia); now apply HWt).
  split; [exact HW0 |]. split; [exact HWt' |].
  intros h Hh Hfin. rewrite Hout by assumption.
  rewrite (fsum_head T (fun j => fmul (get3 W b 0 j) (get3 v b j h)) HT).
  - rewrite HW0. apply fmul_1_l.
    destruct (Hkqv b 0%nat h Hb HT Hh) as (_ & _ & ->).
    apply fsum_representable.
  - rewrite HW0, fmul_1_l;
      destruct (Hkqv b 0%nat h Hb HT Hh) as (_ & _ & ->);
      apply fsum_representable.
  - intros j Hj. rewrite (HWt' j Hj).
    pose proof (Hfin j Hj) as Hv. destruct (get3 v b j h); try contradiction.
    apply fmul_0_num.
Qed.

End FirstPosition.

Section FloatClaims.
Import Torch Float32.
Local Open Scope R_scope.
Context {Rd : Rounding}.


(** C7, amended.  When T = 1, on an input with C > 0, for every batch
    element [b] whose score is a number (no overflow to an infinity, no
    NaN) the weight [W[b,0,0]] is 1 exactly and the output row
    [out[b,0,:]] is the projected value row [v[b,0,:]] exactly. *)
Theorem C7_single_position (hs : nat) (rk rq rv : nat -> nat -> f32)
    (x : Tensor3 f32) (B T C : nat) :
  shape3 x = (B, T, C) -> T = 1%nat -> (0 < C)%nat ->
  exists Sc W v out,
    scores (nn_Linear C hs rk) (nn_Linear C hs rq) x = Ok Sc /\
    weights (nn_Linear C hs rk) (nn_Linear C hs rq) x = Ok W /\
    call (nn_Linear C hs rv) x = Ok v /\
    attention hs rk rq rv x = Ok out /\
    forall b, (b < B)%nat -> is_num (get3 Sc b 0 0) ->
      get3 W b 0 0 = Num 1 /\
      forall h, (h < hs)%nat -> get3 out b 0 h = get3 v b 0 h.
Proof.
  intros Hx -> HC.
  destruct (f_first_row hs rk rq rv x B 1 C Hx HC Nat.lt_0_1)
    as (Sc & W & v & out & ES & EW & Ev & Eo & Hfirst).
  exists Sc, W, v, out. repeat (split; [assumption |]).
  intros b Hb Hnum. destruct (Hfirst b Hb Hnum) as (HW & _ & Hout).
  split; [exact HW |]. intros h Hh. apply Hout; [exact Hh |]. intros j Hj. lia.
Qed.

(** C3, amended.  With the attention weights [W] of an input with C > 0,
    two value tensors [v] and [v'] that differ only in row [j] of batch
    element [b], this row holding numbers in both (no infinity, no NaN),
    give outputs [W @ v] and [W @ v'] with the same row at every position
    [i < j] of [b] (the same numbers, infinities or NaN, entry by entry).
    [W @ v] is the output of the cell for every value projection that
    makes [v] of the input. *)
Theorem C3_causality (hs : nat) (rk rq : nat -> nat -> f32)
    (x v v' : Tensor3 f32) (B T C Hv b i j : nat) :
  shape3 x = (B, T, C) -> (0 < C)%nat ->
  shape3 v = (B, T, Hv) -> shape3 v' = (B, T, Hv) ->
  (b < B)%nat -> (i < j)%nat -> (j < T)%nat ->
  (forall b' t h, (b' < B)%nat -> (t < T)%nat -> (h < Hv)%nat ->
     (b', t) <> (b, j) -> get3 v b' t h = get3 v' b' t h) ->
  (forall h, (h < Hv)%nat -> is_num (get3 v b j h) /\ is_num (get3 v' b j h)) ->
  exists W out out',
    weights (nn_Linear C hs rk) (nn_Linear C hs rq) x = Ok W /\
    matmul W v = Ok out /\ matmul W v' = Ok out' /\
    (forall rv, call (nn_Linear C hs rv) x = Ok v ->
       attention hs rk rq rv x = Ok out) /\
    (forall rv, call (nn_Linear C hs rv) x = Ok v' ->
       attention hs rk rq rv x = Ok out') /\
    forall h, (h < Hv)%nat -> get3 out b i h = get3 out' b i h.
Proof.
  intros Hx HC Hsv Hsv' Hb Hij Hj Hsame Hfin.
  destruct (f_cell_formulas hs rk rq rk x B T C Hx HC)
    as (k & q & v0 & Sc & W & out0 & _ & _ & _ & _ & EW & _ & _ & _ & HsW & _
        & _ & _ & HW & _).
  destruct (f_matmul_get W v B T T Hv HsW Hsv) as (out & Eo & _ & Ho).
  destruct (f_matmul_get W v' B T T Hv HsW Hsv') as (out' & Eo' & _ & Ho').
  exists W, out, out'. repeat (split; [assumption |]).
  split; [| split].
  - intros rv Ev. unfold attention. rewrite Hx. unfold forward.
    rewrite EW. cbn [mbind result_bind]. rewrite Ev. exact Eo.
  - intros rv Ev. unfold attention. rewrite Hx. unfold forward.
    rewrite EW. cbn [mbind result_bind]. rewrite Ev. exact Eo'.
  - intros h Hh. assert (Hi : (i < T)%nat) by lia.
    rewrite Ho, Ho' by assumption. apply fsum_ext. intros t Ht.
    destruct (Nat.eq_dec t j) as [-> | Hne].
    + destruct (Hfin h Hh) as [Hn Hn']. apply fmul_masked; try assumption.
      rewrite HW by assumption. apply softmax_row_masked.
      unfold masked_row. destruct (Nat.leb_spec j i); [lia | reflexivity].
    + rewrite (Hsame b t h); [reflexivity | assumption .. | congruence].
Qed.

(** X12.  The first position attends to itself alone: for T >= 1 and
    every batch element whose first score is a number, the weight
    [W[b,0,0]] is 1, the other weights of the row are 0, and [out[b,0,:]]
    is the projected value row [v[b,0,:]] wherever the later value rows
    hold numbers. *)
Theorem first_position (hs : nat) (rk rq rv : nat -> nat -> f32)
    (x : Tensor3 f32) (B T C : nat) :
  shape3 x = (B, T, C) -> (0 < C)%nat -> (0 < T)%nat ->
  exists Sc W v out,
    scores (nn_Linear C hs rk) (nn_Linear C hs rq) x = Ok Sc /\
    weights (nn_Linear C hs rk) (nn_Linear C hs rq) x = Ok W /\
    call (nn_Linear C hs rv) x = Ok v /\
    attention hs rk rq rv x = Ok out /\
    forall b, (b < B)%nat -> is_num (get3 Sc b 0 0) ->
      get3 W b 0 0 = Num 1 /\
      (forall j, (0 < j < T)%nat -> get3 W b 0 j = Num 0) /\
      forall h, (h < hs)%nat ->
        (forall j, (0 < j < T)%nat -> is_num (get3 v b j h)) ->
        get3 out b 0 h = get3 v b 0 h.
Proof.
  intros Hx HC HT. exact (f_first_row hs rk rq rv x B T C Hx HC HT).
Qed.

(** X13.  The output at position [i] of batch element [b] depends on the
    input rows [0..i] of [b] only: two inputs of the same shape that agree
    on these rows give the same output row [out[b,i,:]] (the same numbers,
    infinities or NaN, entry by entry), provided the later projected
    value rows hold numbers in both runs. *)
Theorem output_local (hs : nat) (rk rq rv : nat -> nat -> f32)
    (x x' : Tensor3 f32) (B T C b i : nat) :
  shape3 x = (B, T, C) -> shape3 x' = (B, T, C) -> (0 < C)%nat ->
  (b < B)%nat -> (i < T)%nat ->
  (forall t c, (t <= i)%nat -> (c < C)%nat -> get3 x b t c = get3 x' b t c) ->
  exists v v' out out',
    call (nn_Linear C hs rv) x = Ok v /\
    call (nn_Linear C hs rv) x' = Ok v' /\
    attention hs rk rq rv x = Ok out /\
    attention hs rk rq rv x' = Ok out' /\
    ((forall j h, (i < j < T)%nat -> (h < hs)%nat ->
        is_num (get3 v b j h) /\ is_num (get3 v' b j h)) ->
     forall h, (h < hs)%nat -> get3 out b i h = get3 out' b i h).
Proof.
  intros Hx Hx' HC Hb Hi Hsame.
  destruct (f_cell_formulas hs rk rq rv x B T C Hx HC)
    as (k & q & v & Sc & W & out & _ & _ & Ev & _ & _ & _ & Eo & _ & _ & _
        & Hkqv & HSc & HW & Hout).
  destruct (f_cell_formulas hs rk rq rv x' B T C Hx' HC)
    as (k' & q' & v' & Sc' & W' & out' & _ & _ & Ev' & _ & _ & _ & Eo' & _ & _
        & _ & Hkqv' & HSc' & HW' & Hout').
  exists v, v', out, out'. repeat (split; [assumption |]).
  intros Hfin h Hh.
  assert (Hrows : forall t h', (t <= i)%nat -> (h' < hs)%nat ->
            get3 k b t h' = get3 k' b t h' /\ get3 q b t h' = get3 q' b t h' /\
            get3 v b t h' = get3 v' b t h').
  { intros t h' Ht Hh'.
    destruct (Hkqv b t h' Hb ltac:(lia) Hh') as (-> & -> & ->).
    destruct (Hkqv' b t h' Hb ltac:(lia) Hh') as (-> & -> & ->).
    repeat split; apply fsum_ext; intros c Hc; now rewrite Hsame. }
  assert (Hrow : forall j, (j < T)%nat ->
            masked_row Sc b i j = masked_row Sc' b i j).
  { intros j Hj. unfold masked_row. destruct (Nat.leb_spec j i); [| reflexivity].
    rewrite HSc, HSc' by assumption. f_equal. apply fsum_ext. intros h' Hh'.
    destruct (Hrows i h' (Nat.le_refl i) Hh') as (_ & -> & _).
    destruct (Hrows j h' ltac:(lia) Hh') as (-> & _ & _). reflexivity. }
  rewrite Hout, Hout' by assumption. apply fsum_ext. intros j Hj.
  rewrite HW, HW' by assumption.
  rewrite (softmax_row_ext T _ _ j Hrow Hj).
  destruct (Nat.le_gt_cases j i) as [Hle | Hgt].
  - destruct (Hrows j h Hle Hh) as (_ & _ & ->). reflexivity.
  - destruct (Hfin j h ltac:(lia) Hh) as [Hn Hn'].
    apply fmul_masked; try assumption. apply softmax_row_masked.
    unfold masked_row. destruct (Nat.leb_spec j i); [lia | reflexivity].
Qed.

(** X10.  Mask and softmax together are a softmax over the visible
    positions: on an input with C > 0, for a row [i < 1024] whose visible
    scores are numbers, the weight of a position [j <= i] is the softmax of the scores
    of the positions [0..i] alone, and it is a number of [[0, 1]]. *)
Theorem weights_prefix_softmax (hs : nat) (rk rq : nat -> nat -> f32)
    (x : Tensor3 f32) (B T C : nat) :
  shape3 x = (B, T, C) -> (0 < C)%nat ->
  exists Sc W,
    scores (nn_Linear C hs rk) (nn_Linear C hs rq) x = Ok Sc /\
    weights (nn_Linear C hs rk) (nn_Linear C hs rq) x = Ok W /\
    forall b i, (b < B)%nat -> (i < T)%nat -> (i < 1024)%nat ->
      (forall j, (j <= i)%nat -> is_num (get3 Sc b i j)) ->
      forall j, (j <= i)%nat ->
        get3 W b i j = softmax_row (S i) (fun j' => get3 Sc b i j') j /\
        exists w, get3 W b i j = Num w /\ 0 <= w <= 1.
Proof.
  intros Hx HC.
  destruct (f_cell_formulas hs rk rq rk x B T C Hx HC)
    as (k & q & v & Sc & W & out & _ & _ & _ & ES & EW & _ & _ & _ & _ & _
        & _ & _ & HW & _).
  exists Sc, W. split; [exact ES |]. split; [exact EW |].
  intros b i Hb Hi Hi' Hnum j Hj.
  assert (Hvis : forall j', (j' <= i)%nat -> masked_row Sc b i j' = get3 Sc b i j').
  { intros j' Hj'. unfold masked_row.
    destruct (Nat.leb_spec j' i); [reflexivity | lia]. }
  assert (Hmask : forall j', (i < j' < T)%nat -> masked_row Sc b i j' = Ninf).
  { intros j' Hj'. unfold masked_row.
    destruct (Nat.leb_spec j' i); [lia | reflexivity]. }
  assert (Hnum' : forall j', (j' <= i)%nat -> is_num (masked_row Sc b i j')).
  { intros j' Hj'. rewrite Hvis by assumption. now apply Hnum. }
  rewrite HW by (assumption || lia). split.
  - rewrite (softmax_row_tail T i j _ Hi Hnum' Hmask).
    apply softmax_row_ext; [| lia]. intros j' Hj'. apply Hvis. lia.
  - destruct (softmax_row_prefix T (masked_row Sc b i) i Hi ltac:(lia) Hnum'
                Hmask)
      as (Hunit & _). apply Hunit. lia.
Qed.

(** X16.  When the query weights are 0, on an input with C > 0: for a
    position [i < 1024] whose input row and whose key rows up to [i] hold
    numbers, every visible score is 0 and every visible position gets the
    same weight [w], with [(i + 1) * w] within [(i + 3) * 2^-24] of 1; the
    later positions get 0. *)
Theorem zero_query_uniform (hs : nat) (rk : nat -> nat -> f32)
    (x : Tensor3 f32) (B T C : nat) :
  shape3 x = (B, T, C) -> (0 < C)%nat ->
  exists k Sc W,
    call (nn_Linear C hs rk) x = Ok k /\
    scores (nn_Linear C hs rk) (nn_Linear C hs w_zero) x = Ok Sc /\
    weights (nn_Linear C hs rk) (nn_Linear C hs w_zero) x = Ok W /\
    forall b i, (b < B)%nat -> (i < T)%nat -> (i < 1024)%nat ->
      (forall c, (c < C)%nat -> is_num (get3 x b i c)) ->
      (forall j h, (j <= i)%nat -> (h < hs)%nat -> is_num (get3 k b j h)) ->
      (forall j, (j <= i)%nat -> get3 Sc b i j = Num 0) /\
      (exists w, 0 <= w <= 1 /\
         (forall j, (j <= i)%nat -> get3 W b i j = Num w) /\
         Rabs (INR (S i) * w - 1) <= (INR (S i) + 2) * eps) /\
      (forall j, (i < j < T)%nat -> get3 W b i j = Num 0).
Proof.
  intros Hx HC.
  destruct (f_cell_formulas hs rk w_zero rk x B T C Hx HC)
    as (k & q & v & Sc & W & out & Ek & _ & _ & ES & EW & _ & _ & _ & _ & _
        & Hkqv & HSc & HW & _).
  exists k, Sc, W. repeat (split; [assumption |]).
  intros b i Hb Hi Hi' Hxnum Hknum.
  assert (Hq : forall h, (h < hs)%nat -> get3 q b i h = Num 0).
  { intros h Hh. destruct (Hkqv b i h Hb Hi Hh) as (_ & -> & _).
    apply fsum_zeros. intros c Hc. pose proof (Hxnum c Hc) as Hn.
    destruct (get3 x b i c); try contradiction.
    unfold w_zero, w_all. cbn [fmul]. rewrite Rmult_0_r. apply fl_0. }
  assert (HS0 : forall j, (j <= i)%nat -> get3 Sc b i j = Num 0).
  { intros j Hj. rewrite HSc by (assumption || lia).
    rewrite (fsum_zeros hs).
    - destruct (f_scale_unit C HC) as (s & ->). apply fmul_0_num.
    - intros h Hh. rewrite Hq by assumption.
      pose proof (Hknum j h Hj Hh) as Hn.
      destruct (get3 k b j h); try contradiction. apply fmul_0_num. }
  assert (Hvis : forall j', (j' <= i)%nat -> masked_row Sc b i j' = Num 0).
  { intros j' Hj'. unfold masked_row.
    destruct (Nat.leb_spec j' i); [now apply HS0 | lia]. }
  assert (Hmask : forall j', (i < j' < T)%nat -> masked_row Sc b i j' = Ninf).
  { intros j' Hj'. unfold masked_row.
    destruct (Nat.leb_spec j' i); [lia | reflexivity]. }
  assert (Hnum' : forall j', (j' <= i)%nat -> is_num (masked_row Sc b i j')).
  { intros j' Hj'. now rewrite Hvis. }
  destruct (softmax_row_prefix T (masked_row Sc b i) i Hi ltac:(lia) Hnum' Hmask)
    as (_ & Hzero & _).
  destruct (softmax_row_nums (S i) (fun _ => Num 0)) as [Hunit Hsum];
    [lia | lia | intros; exact I |].
  destruct (Hunit 0%nat ltac:(lia)) as (w & Hw & Hwb).
  assert (Hall : forall j, softmax_row (S i) (fun _ => Num 0) j = Num w)
    by (intros j; exact Hw).
  split; [exact HS0 |]. split.
  - exists w. split; [exact Hwb |]. split.
    + intros j Hj. rewrite HW by (assumption || lia).
      rewrite (softmax_row_tail T i j _ Hi Hnum' Hmask).
      rewrite (softmax_row_ext (S i) _ (fun _ => Num 0) j)
        by (try lia; intros; apply Hvis; lia).
      apply Hall.
    + rewrite (rsum_ext (S i) _ (fun _ => w)) in Hsum
        by (intros; now rewrite Hall).
      now rewrite rsum_const in Hsum.
  - intros j Hj. rewrite HW by (assumption || lia). now apply Hzero.
Qed.

End FloatClaims.

(** ** The rounding that only underflows *)

Section Flush.
Import Float32.
Local Open Scope R_scope.

Lemma flush_rnd_0 : flush_rnd 0 = 0.
Proof. unfold flush_rnd. now destruct (Rle_dec (Rabs 0) tiny). Qed.

Lemma flush_rnd_1 : flush_rnd 1 = 1.
Proof.
  unfold flush_rnd. rewrite Rabs_R1.
  destruct (Rle_dec 1 tiny) as [H | _]; [| reflexivity].
  unfold tiny in H. lra.
Qed.

Lemma flush_rnd_idem (r : R) : flush_rnd (flush_rnd r) = flush_rnd r.
Proof.
  unfold flush_rnd at 2 3. destruct (Rle_dec (Rabs r) tiny) as [H | H].
  - apply flush_rnd_0.
  - unfold flush_rnd. now destruct (Rle_dec (Rabs r) tiny).
Qed.

Lemma flush_rnd_mono (r r' : R) : r <= r' -> flush_rnd r <= flush_rnd r'.
Proof.
  intros Hr. unfold flush_rnd.
  assert (Ht : 0 < tiny) by (unfold tiny; lra).
  destruct (Rle_dec (Rabs r) tiny) as [H | H];
    destruct (Rle_dec (Rabs r') tiny) as [H' | H'];
    revert H H'; unfold Rabs;
    destruct (Rcase_abs r), (Rcase_abs r'); intros; lra.
Qed.

Lemma flush_rnd_err (r : R) :
  Rabs (flush_rnd r - r) <= eps * Rabs r + tiny.
Proof.
  assert (Ht : 0 < tiny) by (unfold tiny; lra).
  assert (He : 0 < eps) by (unfold eps; lra).
  pose proof (Rabs_pos r) as Hr. unfold flush_rnd.
  destruct (Rle_dec (Rabs r) tiny) as [H | H].
  - rewrite Rminus_0_l, Rabs_Ropp. nra.
  - rewrite Rminus_diag, Rabs_R0. nra.
Qed.

Lemma exp_unit (x : R) : x <= 0 -> 0 <= exp x <= 1.
Proof.
  intros Hx. split; [left; apply exp_pos |].
  rewrite <- exp_0. destruct (Req_dec_T x 0) as [-> | Hne]; [lra |].
  left. apply exp_increasing. lra.
Qed.

End Flush.

#[global] Instance flush : Float32.Rounding := {|
  Float32.rnd := Float32.flush_rnd;
  Float32.expf := exp;
  Float32.rnd_0 := flush_rnd_0;
  Float32.rnd_1 := flush_rnd_1;
  Float32.rnd_idem := flush_rnd_idem;
  Float32.rnd_mono := flush_rnd_mono;
  Float32.rnd_err := flush_rnd_err;
  Float32.expf_0 := exp_0;
  Float32.expf_unit := exp_unit
|}.

(** ** The head at concrete float32 inputs, for the rounding [flush] *)

Section FloatRuns.
Import Torch Float32.
Local Open Scope R_scope.

Lemma fl_flush (r : R) : tiny < Rabs r -> Rabs r < huge -> fl r = Num r.
Proof.
  intros Ht Hh. unfold fl. cbn [rnd flush]. unfold flush_rnd.
  destruct (Rle_dec (Rabs r) tiny); [lra |]. apply Rabs_def2 in Hh.
  destruct (Rle_dec huge r); [lra |].
  destruct (Rle_dec r (- huge)); [lra | reflexivity].
Qed.

Lemma fl_pos (r : R) : tiny < r < huge -> fl r = Num r.
Proof.
  intros [Ht Hh]. pose proof tiny_lt_1.
  apply fl_flush; rewrite Rabs_pos_eq; lra.
Qed.

Lemma fl_overflow (r : R) : huge <= r -> fl r = Pinf.
Proof.
  intros Hr. unfold fl. cbn [rnd flush]. unfold flush_rnd.
  pose proof huge_gt_1 as Hh. pose proof tiny_lt_1 as Ht.
  destruct (Rle_dec (Rabs r) tiny) as [Hf | _].
  { rewrite Rabs_pos_eq in Hf; lra. }
  now destruct (Rle_dec huge r).
Qed.

Lemma fl_underflow (r : R) : 0 <= r <= tiny -> fl r = Num 0.
Proof.
  intros [H0 Ht]. unfold fl. cbn [rnd flush]. unfold flush_rnd.
  rewrite (Rabs_pos_eq r H0). pose proof huge_gt_1.
  destruct (Rle_dec r tiny); [| lra].
  destruct (Rle_dec huge 0); [lra |].
  destruct (Rle_dec 0 (- huge)); [lra | reflexivity].
Qed.

Lemma Rpower_1 (y : R) : Rpower 1 y = 1.
Proof. unfold Rpower. rewrite ln_1, Rmult_0_r. apply exp_0. Qed.

Ltac f_eval :=
  repeat first
    [ progress cbn [fsum fmaximum fadd fsub fneg fmul fdiv fexp fmax to_R INR]
    | rewrite fl_0 | rewrite fl_1
    | rewrite Rplus_0_l | rewrite Rmult_1_l | rewrite Rmult_1_r
    | rewrite fl_pos by (unfold tiny, huge; lra)
    | rewrite fl_overflow by (unfold huge; lra) ].

(** On [x_big] with weights 1/2 the score overflows and the weight is
    NaN. *)
Lemma x_big_run :
  exists Sc W v out,
    scores (nn_Linear 1 Attention.head_size w_half)
      (nn_Linear 1 Attention.head_size w_half) x_big = Ok Sc /\
    weights (nn_Linear 1 Attention.head_size w_half)
      (nn_Linear 1 Attention.head_size w_half) x_big = Ok W /\
    call (nn_Linear 1 Attention.head_size w_half) x_big = Ok v /\
    attention Attention.head_size w_half w_half w_half x_big = Ok out /\
    get3 Sc 0 0 0 = Pinf /\ get3 W 0 0 0 = Nan /\
    get3 v 0 0 0 = Num 50000000000000000000 /\ get3 out 0 0 0 = Nan.
Proof.
  destruct (f_cell_formulas Attention.head_size w_half w_half w_half x_big
              1 1 1 eq_refl ltac:(lia))
    as (k & q & v & Sc & W & out & _ & _ & Ev & ES & EW & _ & Eo & _ & _ & _
        & Hkqv & HSc & HW & Hout).
  exists Sc, W, v, out. repeat (split; [assumption |]).
  assert (Hx0 : get3 x_big 0 0 0 = Num 100000000000000000000)
    by reflexivity.
  assert (Hval : forall h, (h < Attention.head_size)%nat ->
            get3 k 0 0 h = Num 50000000000000000000 /\
            get3 q 0 0 h = Num 50000000000000000000 /\
            get3 v 0 0 h = Num 50000000000000000000).
  { intros h Hh.
    destruct (Hkqv 0 0 h)%nat as (-> & -> & ->); try lia.
    unfold w_half, w_all. cbn [fsum]. rewrite Hx0. f_eval.
    replace (100000000000000000000 * / 2) with 50000000000000000000 by lra.
    f_eval. now repeat split. }
  assert (Hk : forall h, (h < 6)%nat -> get3 k 0 0 h = Num 50000000000000000000)
    by (intros; now apply Hval).
  assert (Hq : forall h, (h < 6)%nat -> get3 q 0 0 h = Num 50000000000000000000)
    by (intros; now apply Hval).
  assert (HS0 : get3 Sc 0 0 0 = Pinf).
  { rewrite HSc by lia. unfold Attention.head_size.
    cbn [fsum]. rewrite !Hk, !Hq by lia.
    rewrite Rpower_1. f_eval. apply signed_inf_pos. lra. }
  assert (HW0 : get3 W 0 0 0 = Nan).
  { rewrite HW by lia. unfold softmax_row, masked_row. cbn [fsum fmaximum].
    cbn [Nat.leb]. rewrite HS0. reflexivity. }
  split; [exact HS0 |]. split; [exact HW0 |].
  split; [apply Hval; unfold Attention.head_size; lia |].
  rewrite Hout by (unfold Attention.head_size; lia).
  cbn [fsum]. rewrite HW0. reflexivity.
Qed.

(** On the input of shape (B, T, 1) whose entries are 1, with weights
    1/2, nothing overflows: keys, queries and values are 1/2 and every score
    is 3/2. *)
Lemma x_one_run (B T : nat) :
  exists Sc v,
    scores (nn_Linear 1 Attention.head_size w_half)
      (nn_Linear 1 Attention.head_size w_half) (full B T 1 (Num 1)) = Ok Sc /\
    call (nn_Linear 1 Attention.head_size w_half) (full B T 1 (Num 1)) = Ok v /\
    (forall b i j, (b < B)%nat -> (i < T)%nat -> (j < T)%nat ->
       get3 Sc b i j = Num (3 / 2)) /\
    (forall b t h, (b < B)%nat -> (t < T)%nat -> (h < Attention.head_size)%nat ->
       get3 v b t h = Num (/ 2)).
Proof.
  destruct (f_cell_formulas Attention.head_size w_half w_half w_half
              (full B T 1 (Num 1)) B T 1 eq_refl ltac:(lia))
    as (k & q & v & Sc & W & out & _ & _ & Ev & ES & _ & _ & _ & _ & _ & _
        & Hkqv & HSc & _).
  exists Sc, v. split; [exact ES |]. split; [exact Ev |].
  assert (Hval : forall b t h, (b < B)%nat -> (t < T)%nat -> (h < 6)%nat ->
            get3 k b t h = Num (/ 2) /\ get3 q b t h = Num (/ 2) /\
            get3 v b t h = Num (/ 2)).
  { intros b t h Hb Ht Hh.
    destruct (Hkqv b t h Hb Ht Hh) as (-> & -> & ->).
    unfold w_half, w_all, full. cbn [fsum].
    rewrite get3_mk3 by (assumption || lia). f_eval. now repeat split. }
  split; [| intros; now apply Hval].
  intros b i j Hb Hi Hj. rewrite HSc by assumption.
  unfold Attention.head_size. cbn [fsum].
  assert (Hk : forall h, (h < 6)%nat -> get3 k b j h = Num (/ 2))
    by (intros; now apply Hval).
  assert (Hq : forall h, (h < 6)%nat -> get3 q b i h = Num (/ 2))
    by (intros; now apply Hval).
  rewrite !Hk, !Hq by lia. rewrite Rpower_1. f_eval.
  f_equal. lra.
Qed.


(** C7, as stated, fails: on [x_big], of shape (1, 1, 1), the score
    overflows; the weight [W[0,0,0]] is NaN, not 1, and the output is NaN
    while the projected value is the number 5e19. *)
Lemma C7_overflow_weight_is_nan :
  exists W v out,
    weights (nn_Linear 1 Attention.head_size w_half)
      (nn_Linear 1 Attention.head_size w_half) x_big = Ok W /\
    call (nn_Linear 1 Attention.head_size w_half) x_big = Ok v /\
    attention Attention.head_size w_half w_half w_half x_big = Ok out /\
    get3 W 0 0 0 <> Num 1 /\ get3 out 0 0 0 <> get3 v 0 0 0.
Proof.
  destruct x_big_run as (Sc & W & v & out & _ & EW & Ev & Eo & _ & HW & Hv & Ho).
  exists W, v, out. repeat (split; [assumption |]).
  rewrite HW, Hv, Ho. split; discriminate.
Qed.

(** C3, as stated, fails: with the weights [W] of the input of shape
    (1, 2, 1) whose entries are 1, the value tensors [v_num] and [v_inf]
    differ in row 1 only, where [v_inf] holds an infinity; the output at
    position 0 is 1 for the first and NaN for the second, [0 * inf]. *)
Lemma C3_infinite_value_leaks :
  (forall b' t h, (b', t) <> (0, 1)%nat ->
     get3 v_num b' t h = get3 v_inf b' t h) /\
  exists W out out',
    weights (nn_Linear 1 Attention.head_size w_half)
      (nn_Linear 1 Attention.head_size w_half) (full 1 2 1 (Num 1)) = Ok W /\
    matmul W v_num = Ok out /\ matmul W v_inf = Ok out' /\
    get3 out 0 0 0 = Num 1 /\ get3 out' 0 0 0 = Nan.
Proof.
  split.
  { intros b' t h Hne.
    destruct b' as [| b']; [| now destruct b', t as [| [| t]]].
    destruct t as [| [| t]]; [reflexivity | congruence | reflexivity]. }
  destruct (f_first_row Attention.head_size w_half w_half w_half
              (full 1 2 1 (Num 1)) 1 2 1 eq_refl ltac:(lia) ltac:(lia))
    as (Sc & W & v & out0 & ES & EW & _ & _ & Hfirst).
  destruct (x_one_run 1 2) as (Sc' & _ & ES' & _ & HSc & _).
  assert (Sc' = Sc) as -> by congruence.
  destruct (Hfirst 0%nat ltac:(lia)) as (HW0 & HW1 & _);
    [rewrite HSc by lia; exact I |].
  assert (HW : shape3 W = (1, 2, 2)%nat).
  { destruct (f_cell_formulas Attention.head_size w_half w_half w_half
                (full 1 2 1 (Num 1)) 1 2 1 eq_refl ltac:(lia))
      as (_ & _ & _ & _ & W' & _ & _ & _ & _ & _ & EW' & _ & _ & _ & HsW & _).
    congruence. }
  destruct (f_matmul_get W v_num 1 2 2 1 HW eq_refl) as (out & Eo & _ & Ho).
  destruct (f_matmul_get W v_inf 1 2 2 1 HW eq_refl) as (out' & Eo' & _ & Ho').
  exists W, out, out'. repeat (split; [assumption |]).
  rewrite Ho, Ho' by lia. cbn [fsum]. rewrite HW0, (HW1 1%nat) by lia.
  change (get3 v_num 0 0 0) with (Num 1). change (get3 v_num 0 1 0) with (Num 1).
  change (get3 v_inf 0 0 0) with (Num 1). change (get3 v_inf 0 1 0) with Pinf.
  split.
  - f_eval. f_equal. lra.
  - cbn [fmul]. rewrite signed_inf_0. f_eval. reflexivity.
Qed.

Lemma exp_neg_le_pow (n : nat) : exp (- INR n) <= (/ 2) ^ n.
Proof.
  induction n as [| n IH].
  - cbn. rewrite Ropp_0, exp_0. lra.
  - rewrite S_INR, Ropp_plus_distr, exp_plus. cbn [pow].
    assert (H1 : exp (- (1)) <= / 2).
    { rewrite exp_Ropp. apply Rinv_le_contravar; [lra |].
      pose proof (exp_ineq1 1 ltac:(lra)). lra. }
    pose proof (exp_pos (- INR n)). pose proof (exp_pos (- (1))).
    rewrite (Rmult_comm (/ 2)). apply Rmult_le_compat; lra.
Qed.

Lemma exp_underflows : exp (- (225)) <= tiny.
Proof.
  replace (- (225)) with (- INR 225)
    by (rewrite INR_IZR_INZ; change (Z.of_nat 225) with 225%Z; lra).
  apply (Rle_trans _ _ _ (exp_neg_le_pow 225)).
  rewrite pow_inv. unfold tiny.
  assert (H150 : 2 ^ 150 = 1427247692705959881058285969449495136382746624).
  { rewrite pow_IZR. f_equal. }
  rewrite <- H150. apply Rinv_le_contravar; [apply pow_lt; lra |].
  apply Rle_pow; [lra | lia].
Qed.

(** X18.  A visible position can get the weight 0: for the input of shape
    (1, 2, 1) with entries 0 and 15 and weights 1, the scores of position
    1 are 0 and 225, [exp (0 - 225)] underflows, and the weights of the
    row are 0 and 1. *)
Theorem weight_underflows :
  exists Sc W,
    scores (nn_Linear 1 1 w_one) (nn_Linear 1 1 w_one) x_gap = Ok Sc /\
    weights (nn_Linear 1 1 w_one) (nn_Linear 1 1 w_one) x_gap = Ok W /\
    get3 Sc 0 1 0 = Num 0 /\ get3 Sc 0 1 1 = Num 225 /\
    get3 W 0 1 0 = Num 0 /\ get3 W 0 1 1 = Num 1.
Proof.
  destruct (f_cell_formulas 1 w_one w_one w_one x_gap 1 2 1 eq_refl ltac:(lia))
    as (k & q & v & Sc & W & out & _ & _ & _ & ES & EW & _ & _ & _ & _ & _
        & Hkqv & HSc & HW & _).
  exists Sc, W. split; [exact ES |]. split; [exact EW |].
  assert (Hk : forall t, (t < 2)%nat ->
            get3 k 0 t 0 = get3 x_gap 0 t 0 /\ get3 q 0 t 0 = get3 x_gap 0 t 0).
  { intros t Ht. destruct (Hkqv 0%nat t 0%nat ltac:(lia) Ht ltac:(lia))
      as (-> & -> & _).
    cbn [fsum]. unfold w_one, w_all.
    destruct t as [| [| t]]; [| | lia].
    - change (get3 x_gap 0 0 0) with (Num 0). f_eval. split; reflexivity.
    - change (get3 x_gap 0 1 0) with (Num 15). f_eval. split; reflexivity. }
  destruct (Hk 0%nat ltac:(lia)) as [Hk0 Hq0].
  destruct (Hk 1%nat ltac:(lia)) as [Hk1 Hq1].
  change (get3 x_gap 0 0 0) with (Num 0) in Hk0, Hq0.
  change (get3 x_gap 0 1 0) with (Num 15) in Hk1, Hq1.
  assert (HS0 : get3 Sc 0 1 0 = Num 0).
  { rewrite HSc by lia. cbn [fsum]. rewrite Hq1, Hk0. cbn [INR].
    rewrite Rpower_1. f_eval. rewrite Rmult_0_r, fl_0. f_eval. reflexivity. }
  assert (HS1 : get3 Sc 0 1 1 = Num 225).
  { rewrite HSc by lia. cbn [fsum]. rewrite Hq1, Hk1. cbn [INR].
    rewrite Rpower_1. f_eval. f_equal. lra. }
  split; [exact HS0 |]. split; [exact HS1 |].
  rewrite !HW by lia. unfold softmax_row. cbn [fmaximum fsum].
  unfold masked_row. cbn [Nat.leb]. rewrite HS0, HS1.
  cbn [fmax]. destruct (Rle_dec 0 225) as [_ | Hn]; [| lra].
  cbn [fsub fneg fadd]. rewrite Rplus_opp_r, fl_0, Rplus_0_l.
  assert (Hneg : fl (- (225)) = Num (- (225))).
  { pose proof tiny_lt_1.
    apply fl_flush; rewrite Rabs_left by lra; unfold huge; lra. }
  rewrite Hneg. cbn [fexp expf flush]. rewrite exp_0, fl_1.
  rewrite (fl_underflow (exp (- (225))))
    by (split; [left; apply exp_pos | apply exp_underflows]).
  f_eval. cbn [fdiv]. destruct (Req_dec_T 1 0); [lra |].
  unfold Rdiv. rewrite Rmult_0_l, fl_0, Rinv_1, Rmult_1_l, fl_1. split; reflexivity.
Qed.

(** *** Instances *)


Lemma C3_causality_witness :
  shape3 (full 1 2 1 (Num 1)) = (1, 2, 1)%nat /\ (0 < 1)%nat /\
  shape3 v_num = (1, 2, 1)%nat /\ shape3 v_two = (1, 2, 1)%nat /\
  (0 < 1)%nat /\ (0 < 1)%nat /\ (1 < 2)%nat /\
  (forall b' t h, (b' < 1)%nat -> (t < 2)%nat -> (h < 1)%nat ->
     (b', t) <> (0, 1)%nat -> get3 v_num b' t h = get3 v_two b' t h) /\
  (forall h, (h < 1)%nat ->
     is_num (get3 v_num 0 1 h) /\ is_num (get3 v_two 0 1 h)) /\
  get3 v_num 0 1 0 <> get3 v_two 0 1 0 /\
  exists W out out',
    weights (nn_Linear 1 Attention.head_size w_half)
      (nn_Linear 1 Attention.head_size w_half) (full 1 2 1 (Num 1)) = Ok W /\
    matmul W v_num = Ok out /\ matmul W v_two = Ok out' /\
    forall h, (h < 1)%nat -> get3 out 0 0 h = get3 out' 0 0 h.
Proof.
  assert (Hsame : forall b' t h, (b' < 1)%nat -> (t < 2)%nat -> (h < 1)%nat ->
            (b', t) <> (0, 1)%nat -> get3 v_num b' t h = get3 v_two b' t h).
  { intros b' t h Hb' Ht Hh Hne.
    assert (b' = 0%nat) as -> by lia. assert (h = 0%nat) as -> by lia.
    destruct t as [| [| t]]; [reflexivity | congruence | lia]. }
  assert (Hfin : forall h, (h < 1)%nat ->
            is_num (get3 v_num 0 1 h) /\ is_num (get3 v_two 0 1 h)).
  { intros h Hh. assert (h = 0%nat) as -> by lia. split; exact I. }
  split; [reflexivity |]. split; [lia |]. split; [reflexivity |].
  split; [reflexivity |]. split; [lia |]. split; [lia |]. split; [lia |].
  split; [exact Hsame |]. split; [exact Hfin |]. split.
  - change (Num 1 <> Num 2). intros E. injection E. lra.
  - destruct (C3_causality Attention.head_size w_half w_half
                (full 1 2 1 (Num 1)) v_num v_two 1 2 1 1 0 0 1 eq_refl
                ltac:(lia) eq_refl eq_refl ltac:(lia) ltac:(lia) ltac:(lia)
                Hsame Hfin)
      as (W & out & out' & EW & Eo & Eo' & _ & _ & Hrow).
    exists W, out, out'. repeat (split; [assumption |]). exact Hrow.
Defined.

Lemma C7_single_position_witness :
  shape3 (full 2 1 1 (Num 1)) = (2, 1, 1)%nat /\ 1%nat = 1%nat /\ (0 < 1)%nat /\
  exists W v out,
    weights (nn_Linear 1 Attention.head_size w_half)
      (nn_Linear 1 Attention.head_size w_half) (full 2 1 1 (Num 1)) = Ok W /\
    call (nn_Linear 1 Attention.head_size w_half) (full 2 1 1 (Num 1)) = Ok v /\
    attention Attention.head_size w_half w_half w_half (full 2 1 1 (Num 1))
      = Ok out /\
    forall b, (b < 2)%nat ->
      get3 W b 0 0 = Num 1 /\
      forall h, (h < Attention.head_size)%nat ->
        get3 out b 0 h = Num (/ 2) /\ get3 v b 0 h = Num (/ 2).
Proof.
  split; [reflexivity |]. split; [reflexivity |]. split; [lia |].
  destruct (C7_single_position Attention.head_size w_half w_half w_half
              (full 2 1 1 (Num 1)) 2 1 1 eq_refl eq_refl ltac:(lia))
    as (Sc & W & v & out & ES & EW & Ev & Eo & Hone).
  destruct (x_one_run 2 1) as (Sc' & v' & ES' & Ev' & HSc & Hv).
  assert (Sc' = Sc) as -> by congruence.
  assert (v' = v) as -> by congruence.
  exists W, v, out. repeat (split; [assumption |]).
  intros b Hb. destruct (Hone b Hb) as [HW Hout].
  { rewrite HSc by lia. exact I. }
  split; [exact HW |]. intros h Hh.
  rewrite (Hout h Hh), Hv by (assumption || lia). split; reflexivity.
Defined.

Lemma first_position_witness :
  shape3 (full 1 2 1 (Num 1)) = (1, 2, 1)%nat /\ (0 < 1)%nat /\ (0 < 2)%nat /\
  exists W out,
    weights (nn_Linear 1 Attention.head_size w_half)
      (nn_Linear 1 Attention.head_size w_half) (full 1 2 1 (Num 1)) = Ok W /\
    attention Attention.head_size w_half w_half w_half (full 1 2 1 (Num 1))
      = Ok out /\
    get3 W 0 0 0 = Num 1 /\ get3 W 0 0 1 = Num 0 /\
    forall h, (h < Attention.head_size)%nat -> get3 out 0 0 h = Num (/ 2).
Proof.
  split; [reflexivity |]. split; [lia |]. split; [lia |].
  destruct (first_position Attention.head_size w_half w_half w_half
              (full 1 2 1 (Num 1)) 1 2 1 eq_refl ltac:(lia) ltac:(lia))
    as (Sc & W & v & out & ES & EW & Ev & Eo & Hone).
  destruct (x_one_run 1 2) as (Sc' & v' & ES' & Ev' & HSc & Hv).
  assert (Sc' = Sc) as -> by congruence.
  assert (v' = v) as -> by congruence.
  exists W, out. repeat (split; [assumption |]).
  destruct (Hone 0%nat ltac:(lia)) as (HW0 & HW1 & Hout).
  { rewrite HSc by lia. exact I. }
  split; [exact HW0 |]. split; [apply HW1; lia |]. intros h Hh.
  rewrite (Hout h Hh).
  - rewrite Hv by (assumption || lia). reflexivity.
  - intros j Hj. rewrite Hv by (assumption || lia). exact I.
Defined.

Lemma output_local_witness :
  shape3 (full 1 2 1 (Num 1)) = (1, 2, 1)%nat /\
  shape3 v_two = (1, 2, 1)%nat /\ (0 < 1)%nat /\
  (0 < 1)%nat /\ (0 < 2)%nat /\
  (forall t c, (t <= 0)%nat -> (c < 1)%nat ->
     get3 (full 1 2 1 (Num 1)) 0 t c = get3 v_two 0 t c) /\
  get3 (full 1 2 1 (Num 1)) 0 1 0 <> get3 v_two 0 1 0 /\
  exists out out',
    attention Attention.head_size w_half w_half w_half (full 1 2 1 (Num 1))
      = Ok out /\
    attention Attention.head_size w_half w_half w_half v_two = Ok out' /\
    forall h, (h < Attention.head_size)%nat -> get3 out 0 0 h = get3 out' 0 0 h.
Proof.
  assert (Hsame : forall t c, (t <= 0)%nat -> (c < 1)%nat ->
            get3 (full 1 2 1 (Num 1)) 0 t c = get3 v_two 0 t c).
  { intros t c Ht Hc. assert (t = 0%nat) as -> by lia.
    assert (c = 0%nat) as -> by lia. reflexivity. }
  split; [reflexivity |]. split; [reflexivity |]. split; [lia |].
  split; [lia |]. split; [lia |]. split; [exact Hsame |]. split.
  { change (Num 1 <> Num 2). intros E. injection E. lra. }
  destruct (output_local Attention.head_size w_half w_half w_half
              (full 1 2 1 (Num 1)) v_two 1 2 1 0 0 eq_refl
              eq_refl ltac:(lia) ltac:(lia) ltac:(lia) Hsame)
    as (v & v' & out & out' & Ev & Ev' & Eo & Eo' & Hloc).
  exists out, out'. repeat (split; [assumption |]).
  apply Hloc. intros j h Hj Hh. assert (j = 1%nat) as -> by lia.
  destruct (x_one_run 1 2) as (Sc0 & v0 & _ & Ev0 & _ & Hv).
  assert (v0 = v) as -> by congruence.
  destruct (f_cell_formulas Attention.head_size w_half w_half w_half
              v_two 1 2 1 eq_refl ltac:(lia))
    as (k1 & q1 & v1 & Sc1 & W1 & out1 & _ & _ & Ev1 & _ & _ & _ & _ & _ & _
        & _ & Hkqv & _).
  assert (v1 = v') as -> by congruence.
  split.
  - rewrite Hv by (assumption || lia). exact I.
  - destruct (Hkqv 0%nat 1%nat h ltac:(lia) ltac:(lia) Hh) as (_ & _ & ->).
    cbn [fsum]. change (get3 v_two 0 1 0) with (Num 2).
    unfold w_half, w_all. f_eval. exact I.
Defined.

Lemma weights_prefix_softmax_witness :
  shape3 (full 1 2 1 (Num 1)) = (1, 2, 1)%nat /\ (0 < 1)%nat /\
  exists Sc W,
    scores (nn_Linear 1 Attention.head_size w_half)
      (nn_Linear 1 Attention.head_size w_half) (full 1 2 1 (Num 1)) = Ok Sc /\
    weights (nn_Linear 1 Attention.head_size w_half)
      (nn_Linear 1 Attention.head_size w_half) (full 1 2 1 (Num 1)) = Ok W /\
    get3 W 0 1 0 = softmax_row 2 (fun j' => get3 Sc 0 1 j') 0 /\
    exists w, get3 W 0 1 0 = Num w /\ 0 <= w <= 1.
Proof.
  split; [reflexivity |]. split; [lia |].
  destruct (weights_prefix_softmax Attention.head_size w_half w_half
              (full 1 2 1 (Num 1)) 1 2 1 eq_refl ltac:(lia))
    as (Sc & W & ES & EW & Hrows).
  destruct (x_one_run 1 2) as (Sc' & v & ES' & _ & HSc & _).
  assert (Sc' = Sc) as -> by congruence.
  exists Sc, W. split; [exact ES |]. split; [exact EW |].
  apply (Hrows 0%nat 1%nat); [lia | lia | lia | | lia].
  intros j Hj. rewrite HSc by lia. exact I.
Defined.

Lemma zero_query_uniform_witness :
  shape3 (full 1 2 1 (Num 1)) = (1, 2, 1)%nat /\ (0 < 1)%nat /\
  exists W w,
    weights (nn_Linear 1 Attention.head_size w_half)
      (nn_Linear 1 Attention.head_size w_zero) (full 1 2 1 (Num 1)) = Ok W /\
    get3 W 0 1 0 = Num w /\ get3 W 0 1 1 = Num w /\
    Rabs (INR 2 * w - 1) <= (INR 2 + 2) * eps /\
    get3 W 0 0 1 = Num 0.
Proof.
  split; [reflexivity |]. split; [lia |].
  destruct (zero_query_uniform Attention.head_size w_half
              (full 1 2 1 (Num 1)) 1 2 1 eq_refl ltac:(lia))
    as (k & Sc & W & Ek & _ & EW & Hrows).
  destruct (x_one_run 1 2) as (Sc' & k' & _ & Ek' & _ & Hk).
  assert (k' = k) as -> by congruence.
  assert (Hx : forall i c, (i < 2)%nat -> (c < 1)%nat ->
            is_num (get3 (full 1 2 1 (Num 1)) 0 i c)).
  { intros i c Hi Hc. unfold full. rewrite get3_mk3 by lia. exact I. }
  assert (Hkn : forall j h, (j < 2)%nat -> (h < Attention.head_size)%nat ->
            is_num (get3 k 0 j h)).
  { intros j h Hj Hh. rewrite Hk by (assumption || lia). exact I. }
  destruct (Hrows 0%nat 1%nat ltac:(lia) ltac:(lia) ltac:(lia))
    as (_ & (w & _ & Hw & Hsum) & _).
  { intros c Hc. apply Hx; lia. } { intros j h Hj Hh. apply Hkn; [lia | exact Hh]. }
  destruct (Hrows 0%nat 0%nat ltac:(lia) ltac:(lia) ltac:(lia)) as (_ & _ & H0').
  { intros c Hc. apply Hx; lia. } { intros j h Hj Hh. apply Hkn; [lia | exact Hh]. }
  exists W, w. split; [exact EW |].
  split; [apply (Hw 0%nat); lia |]. split; [apply (Hw 1%nat); lia |].
  split; [exact Hsum |]. apply H0'. lia.
Defined.

End FloatRuns.
